(** * vibeReel1: the crop-region selection engine of the preview page

    A shallow embedding of the page script (the revision with corner
    handles: [clamp], [updateRectSizeFromVideo], [pointerDown],
    [pointerDownResize], [pointerMove], [resizeRect], [endDrag] and
    [handleConfirm]) together with the properties its specification states,
    further properties read off the script, and the earlier revision of the
    script ([static/js/main.js], module [MainJs]).

    Modelling conventions.
    - JavaScript numbers are modelled by exact rationals ([Q]); every
      statement below about them is a statement about exact arithmetic, and
      equality of numbers is [Qeq] ([==]).  The rounding of the script's
      doubles is not part of that model; module [Doubles] repeats the
      arithmetic of the sizing and of the resize on binary64 floats and is
      evaluated on the videos where rounding crosses a bound.
    - A response body is a JSON value ([Json]); reading a member of [null]
      and printing a value without a string form raise the [TypeError] that
      the catch-all of [handleConfirm] reports.
    - [video.videoWidth] and [video.videoHeight] are unsigned integers
      ([N]); the value [0] is the falsy "metrics unknown" case.
    - [rect.left] and [rect.top] start as [null]: they are [option Q].
    - The two rectangle objects are shared, mutable objects; the interaction
      record holds a reference to one of them.  The reference is modelled by
      [RectRef], the store by the two rectangle fields of [State].
    - Painting, pointer capture and [preventDefault] act on the document only
      and are not part of the model; [stopPropagation] shows in [dispatch]. *)

From Stdlib Require Import QArith Qminmax Qabs Lqa Lia ZArith NArith Bool List String.
From Stdlib Require PrimFloat.
Import ListNotations.

Local Open Scope Q_scope.

(* ================================================================== *)
(** ** Numbers *)

(** [function clamp(value, min, max)]: when the range is empty ([min > max])
    the lower end wins. *)
Definition clamp (value min max : Q) : Q :=
  if Qlt_le_dec max min then min else Qmin (Qmax value min) max.

(** Truthiness of a number, as tested by [!x] and [x || y]. *)
Definition truthy (x : Q) : bool := negb (Qeq_bool x 0).

(** [a || b] on numbers. *)
Definition or_else (a b : Q) : Q := if truthy a then a else b.

Module TARGET_ASPECT.
Definition width : Q := 1100.
Definition height : Q := 1000.
End TARGET_ASPECT.

Definition TARGET_ASPECT_RATIO : Q := TARGET_ASPECT.width / TARGET_ASPECT.height.

Inductive Handle := TopLeft | TopRight | BottomLeft | BottomRight.

Definition HANDLE_POSITIONS : list Handle := [TopLeft; TopRight; BottomLeft; BottomRight].

(* ================================================================== *)
(** ** Data model *)

Module Rect.
Record t := mk {
  id : string;
  defaultLeft : Q;
  defaultTop : Q;
  left : option Q;
  top : option Q;
  widthRatio : Q;
  heightRatio : Q
}.
End Rect.

(** A reference to one of the two entries of [rectangles]. *)
Inductive RectRef := Speaker1 | Speaker2.

(** What a pointer capture is taken on: a rectangle element or one of its
    handle elements. *)
Inductive Target :=
| RectElement (r : RectRef)
| HandleElement (r : RectRef) (h : Handle).

Module MoveStart.
Record t := mk { clientX : Q; clientY : Q; left : Q; top : Q }.
End MoveStart.

Module ResizeStart.
Record t := mk {
  leftRatio : Q; topRatio : Q; widthRatio : Q; heightRatio : Q;
  leftPx : Q; topPx : Q; widthPx : Q; heightPx : Q
}.
End ResizeStart.

(** The object stored in [interaction]; [mode] is the constructor. *)
Inductive Interaction :=
| Move (rect : RectRef) (start : MoveStart.t) (pointerId : Z) (capturedTarget : Target)
| Resize (rect : RectRef) (handle : Handle) (start : ResizeStart.t)
         (pointerId : Z) (capturedTarget : Target).

(** The variables captured by the handlers. *)
Record State := mkState {
  rect1 : Rect.t;
  rect2 : Rect.t;
  interaction : option Interaction;
  minWidthRatio : Q
}.

Definition get_rect (s : State) (r : RectRef) : Rect.t :=
  match r with Speaker1 => rect1 s | Speaker2 => rect2 s end.

Definition set_rect (s : State) (r : RectRef) (v : Rect.t) : State :=
  match r with
  | Speaker1 => mkState v (rect2 s) (interaction s) (minWidthRatio s)
  | Speaker2 => mkState (rect1 s) v (interaction s) (minWidthRatio s)
  end.

Definition set_interaction (s : State) (i : option Interaction) : State :=
  mkState (rect1 s) (rect2 s) i (minWidthRatio s).

Definition initial_state : State :=
  mkState
    (Rect.mk "rect-speaker-1" (5 # 100) (1 # 10) None None 0 0)
    (Rect.mk "rect-speaker-2" (6 # 10) (55 # 100) None None 0 0)
    None
    (12 # 100).

(** What the handlers read from the document. *)
Module Metrics.
Record t := mk { width : Q; height : Q }.
End Metrics.

Module DOMRect.
Record t := mk { left : Q; top : Q; width : Q; height : Q }.
End DOMRect.

Module PointerEvent.
Record t := mk { clientX : Q; clientY : Q; pointerId : Z }.
End PointerEvent.

Definition N2Q (n : N) : Q := inject_Z (Z.of_N n).

(** [getVideoMetrics], reading [video.videoWidth] and [video.videoHeight]. *)
Definition getVideoMetrics (videoWidth videoHeight : N) : option Metrics.t :=
  if (N.eqb videoWidth 0 || N.eqb videoHeight 0)%bool then None
  else Some (Metrics.mk (N2Q videoWidth) (N2Q videoHeight)).

(* ================================================================== *)
(** ** Initial sizing *)

(** The floor computed in [updateRectSizeFromVideo]. *)
Definition minWidthRatio_of (cropWidth : Q) : Q :=
  Qmin (Qmax (cropWidth * (1 # 2)) (3 # 100)) (or_else cropWidth (12 # 100)).

(** The body of the [rectangles.forEach] of [updateRectSizeFromVideo]. *)
Definition size_rect (cropWidth cropHeight : Q) (rect : Rect.t) : Rect.t :=
  let '(l, t) :=
    match Rect.left rect, Rect.top rect with
    | Some l, Some t => (l, t)
    | _, _ => (Rect.defaultLeft rect, Rect.defaultTop rect)
    end in
  Rect.mk (Rect.id rect) (Rect.defaultLeft rect) (Rect.defaultTop rect)
    (Some (clamp l 0 (1 - cropWidth)))
    (Some (clamp t 0 (1 - cropHeight)))
    cropWidth cropHeight.

Definition updateRectSizeFromVideo (videoWidth videoHeight : N) (s : State) : State :=
  if (N.eqb videoWidth 0 || N.eqb videoHeight 0)%bool then s
  else
    let cropWidth := TARGET_ASPECT.width / N2Q videoWidth in
    let cropHeight := TARGET_ASPECT.height / N2Q videoHeight in
    mkState (size_rect cropWidth cropHeight (rect1 s))
            (size_rect cropWidth cropHeight (rect2 s))
            (interaction s)
            (minWidthRatio_of cropWidth).

(* ================================================================== *)
(** ** Pointer down *)

Definition positioned (rect : Rect.t) : option (Q * Q) :=
  match Rect.left rect, Rect.top rect with
  | Some l, Some t => Some (l, t)
  | _, _ => None
  end.

Definition pointerDown (event : PointerEvent.t) (r : RectRef) (s : State) : State :=
  match positioned (get_rect s r) with
  | None => s
  | Some (l, t) =>
      set_interaction s
        (Some (Move r
                 (MoveStart.mk (PointerEvent.clientX event) (PointerEvent.clientY event) l t)
                 (PointerEvent.pointerId event)
                 (RectElement r)))
  end.

Definition pointerDownResize (videoWidth videoHeight : N)
    (event : PointerEvent.t) (r : RectRef) (handle : Handle) (s : State) : State :=
  let rect := get_rect s r in
  match positioned rect with
  | None => s
  | Some (l, t) =>
      match getVideoMetrics videoWidth videoHeight with
      | None => s
      | Some metrics =>
          set_interaction s
            (Some (Resize r handle
                     (ResizeStart.mk l t (Rect.widthRatio rect) (Rect.heightRatio rect)
                        (l * Metrics.width metrics)
                        (t * Metrics.height metrics)
                        (Rect.widthRatio rect * Metrics.width metrics)
                        (Rect.heightRatio rect * Metrics.height metrics))
                     (PointerEvent.pointerId event)
                     (HandleElement r handle)))
      end
  end.

(* ================================================================== *)
(** ** Resize geometry *)

(** [minWidthPx] of [resizeRect]. *)
Definition minWidthPx_of (minWidthRatio : Q) (metrics : Metrics.t) : Q :=
  Qmax (Qmin minWidthRatio 1) (2 # 100) * Metrics.width metrics.

(** The closure [applyValues] of [resizeRect]: it assigns the four geometry
    fields of the rectangle. *)
Definition applyValues (metrics : Metrics.t) (minWidthPx : Q)
    (leftPx topPx widthPx : Q) (rect : Rect.t) : Rect.t :=
  let boundedWidthPx := clamp widthPx minWidthPx (Metrics.width metrics) in
  let heightPx := boundedWidthPx / TARGET_ASPECT_RATIO in
  let maxLeftPx := Qmax (Metrics.width metrics - boundedWidthPx) 0 in
  let maxTopPx := Qmax (Metrics.height metrics - heightPx) 0 in
  let safeLeftPx := clamp leftPx 0 maxLeftPx in
  let safeTopPx := clamp topPx 0 maxTopPx in
  Rect.mk (Rect.id rect) (Rect.defaultLeft rect) (Rect.defaultTop rect)
    (Some (safeLeftPx / Metrics.width metrics))
    (Some (safeTopPx / Metrics.height metrics))
    (boundedWidthPx / Metrics.width metrics)
    (heightPx / Metrics.height metrics).

(** The closure [computeWidthPx] of [resizeRect]. *)
Definition computeWidthPx (metrics : Metrics.t) (minWidthPx : Q)
    (dxPx dyPx boundPx : Q) : Q :=
  let widthFromX := Qmax dxPx 0 in
  let widthFromY := Qmax dyPx 0 * TARGET_ASPECT_RATIO in
  let candidate := Qmin widthFromX widthFromY in
  let maxWidthPx := Qmax (Qmin boundPx (Metrics.width metrics)) minWidthPx in
  clamp candidate minWidthPx maxWidthPx.

(** One arm of the [switch] of [resizeRect], as the five values it computes
    before calling [applyValues]. *)
Record Arm := mkArm {
  anchorX : Q; anchorY : Q; dxPx : Q; dyPx : Q; boundsWidthPx : Q
}.

Definition arm (metrics : Metrics.t) (handle : Handle) (start : ResizeStart.t)
    (pointerX pointerY : Q) : Arm :=
  let W := Metrics.width metrics in
  let H := Metrics.height metrics in
  match handle with
  | TopLeft =>
      let anchorX := ResizeStart.leftPx start + ResizeStart.widthPx start in
      let anchorY := ResizeStart.topPx start + ResizeStart.heightPx start in
      mkArm anchorX anchorY (anchorX - pointerX) (anchorY - pointerY)
            (Qmin anchorX (anchorY * TARGET_ASPECT_RATIO))
  | TopRight =>
      let anchorX := ResizeStart.leftPx start in
      let anchorY := ResizeStart.topPx start + ResizeStart.heightPx start in
      mkArm anchorX anchorY (pointerX - anchorX) (anchorY - pointerY)
            (Qmin (W - anchorX) (anchorY * TARGET_ASPECT_RATIO))
  | BottomLeft =>
      let anchorX := ResizeStart.leftPx start + ResizeStart.widthPx start in
      let anchorY := ResizeStart.topPx start in
      mkArm anchorX anchorY (anchorX - pointerX) (pointerY - anchorY)
            (Qmin anchorX ((H - anchorY) * TARGET_ASPECT_RATIO))
  | BottomRight =>
      let anchorX := ResizeStart.leftPx start in
      let anchorY := ResizeStart.topPx start in
      mkArm anchorX anchorY (pointerX - anchorX) (pointerY - anchorY)
            (Qmin (W - anchorX) ((H - anchorY) * TARGET_ASPECT_RATIO))
  end.

(** [newLeftPx] and [newTopPx] of each arm. *)
Definition newLeftPx (handle : Handle) (a : Arm) (newWidthPx : Q) : Q :=
  match handle with
  | TopLeft | BottomLeft => anchorX a - newWidthPx
  | TopRight | BottomRight => anchorX a
  end.

Definition newTopPx (handle : Handle) (a : Arm) (newWidthPx : Q) : Q :=
  match handle with
  | TopLeft | TopRight => anchorY a - newWidthPx / TARGET_ASPECT_RATIO
  | BottomLeft | BottomRight => anchorY a
  end.

(** The width [resizeRect] passes to [applyValues]. *)
Definition newWidthPx_of (metrics : Metrics.t) (minWidthRatio : Q)
    (handle : Handle) (start : ResizeStart.t) (pointerX pointerY : Q) : Q :=
  let a := arm metrics handle start pointerX pointerY in
  computeWidthPx metrics (minWidthPx_of minWidthRatio metrics)
    (dxPx a) (dyPx a) (boundsWidthPx a).

(** [resizeRect] on the rectangle the interaction refers to;
    [pointRatio] is [(x, y)]. *)
Definition resizeRect_rect (metrics : Metrics.t) (minWidthRatio : Q)
    (handle : Handle) (start : ResizeStart.t) (pointRatio : Q * Q)
    (rect : Rect.t) : Rect.t :=
  let pointerX := fst pointRatio * Metrics.width metrics in
  let pointerY := snd pointRatio * Metrics.height metrics in
  let minWidthPx := minWidthPx_of minWidthRatio metrics in
  let a := arm metrics handle start pointerX pointerY in
  let newWidthPx := computeWidthPx metrics minWidthPx (dxPx a) (dyPx a) (boundsWidthPx a) in
  applyValues metrics minWidthPx
    (newLeftPx handle a newWidthPx) (newTopPx handle a newWidthPx) newWidthPx rect.

Definition resizeRect (videoWidth videoHeight : N)
    (r : RectRef) (handle : Handle) (start : ResizeStart.t)
    (pointRatio : Q * Q) (s : State) : State :=
  match getVideoMetrics videoWidth videoHeight with
  | None => s
  | Some metrics =>
      set_rect s r
        (resizeRect_rect metrics (minWidthRatio s) handle start pointRatio (get_rect s r))
  end.

(* ================================================================== *)
(** ** Pointer move and pointer up *)

Definition getPointerRatio (bounds : DOMRect.t) (event : PointerEvent.t) : option (Q * Q) :=
  if (negb (truthy (DOMRect.width bounds)) || negb (truthy (DOMRect.height bounds)))%bool
  then None
  else Some
    (clamp ((PointerEvent.clientX event - DOMRect.left bounds) / DOMRect.width bounds) 0 1,
     clamp ((PointerEvent.clientY event - DOMRect.top bounds) / DOMRect.height bounds) 0 1).

(** The two assignments of the move branch of [pointerMove]. *)
Definition move_rect (bounds : DOMRect.t) (start : MoveStart.t)
    (event : PointerEvent.t) (rect : Rect.t) : Rect.t :=
  let deltaX := (PointerEvent.clientX event - MoveStart.clientX start) / DOMRect.width bounds in
  let deltaY := (PointerEvent.clientY event - MoveStart.clientY start) / DOMRect.height bounds in
  Rect.mk (Rect.id rect) (Rect.defaultLeft rect) (Rect.defaultTop rect)
    (Some (clamp (MoveStart.left start + deltaX) 0 (1 - Rect.widthRatio rect)))
    (Some (clamp (MoveStart.top start + deltaY) 0 (1 - Rect.heightRatio rect)))
    (Rect.widthRatio rect) (Rect.heightRatio rect).

Definition pointerMove (videoWidth videoHeight : N) (bounds : DOMRect.t)
    (event : PointerEvent.t) (s : State) : State :=
  match interaction s with
  | None => s
  | Some (Move r start _ _) =>
      if (negb (truthy (DOMRect.width bounds)) || negb (truthy (DOMRect.height bounds)))%bool
      then s
      else set_rect s r (move_rect bounds start event (get_rect s r))
  | Some (Resize r handle start _ _) =>
      match getPointerRatio bounds event with
      | None => s
      | Some point => resizeRect videoWidth videoHeight r handle start point s
      end
  end.

Definition endDrag (s : State) : State := set_interaction s None.

(* ================================================================== *)
(** ** Event dispatch *)

(** What the document supplies when a handler runs. *)
Record Env := mkEnv {
  videoWidth : N;
  videoHeight : N;
  bounds : DOMRect.t  (* overlay.getBoundingClientRect() *)
}.

Inductive Event :=
| LoadedMetadata
| PointerDownRect (r : RectRef) (e : PointerEvent.t)
| PointerDownHandle (r : RectRef) (h : Handle) (e : PointerEvent.t)
| PointerMoved (e : PointerEvent.t)
| PointerUp
| PointerCancel.

(** The listeners registered by the script.  A handle is a child of its
    rectangle element: the press on a handle reaches the rectangle's own
    listener unless [pointerDownResize] got as far as [stopPropagation]. *)
Definition dispatch (env : Env) (ev : Event) (s : State) : State :=
  match ev with
  | LoadedMetadata => updateRectSizeFromVideo (videoWidth env) (videoHeight env) s
  | PointerDownRect r e => pointerDown e r s
  | PointerDownHandle r h e =>
      match positioned (get_rect s r), getVideoMetrics (videoWidth env) (videoHeight env) with
      | Some _, Some _ => pointerDownResize (videoWidth env) (videoHeight env) e r h s
      | _, _ => pointerDown e r s
      end
  | PointerMoved e => pointerMove (videoWidth env) (videoHeight env) (bounds env) e s
  | PointerUp | PointerCancel => endDrag s
  end.

Definition run (trace : list (Env * Event)) (s : State) : State :=
  fold_left (fun acc step => dispatch (fst step) (snd step) acc) trace s.

(** A run of pointer-move events, each with the bounds it saw. *)
Definition pointerMoves (videoWidth videoHeight : N)
    (moves : list (DOMRect.t * PointerEvent.t)) (s : State) : State :=
  fold_left (fun acc m => pointerMove videoWidth videoHeight (fst m) (snd m) acc) moves s.

(* ================================================================== *)
(** ** Submission *)

Inductive Status := pending | warning | success | error.

(** A value a response body parses to.  An object is the list of its own
    members (the keys of a parsed object are distinct); a number is the
    number it parses to (a literal beyond the range of a double parses to
    an infinity, which the script treats as any other non-zero number). *)
#[warnings="-register-all"]
Inductive Json :=
| JNull
| JBool (b : bool)
| JNum (q : Q)
| JStr (s : string)
| JArr (items : list Json)
| JObj (members : list (string * Json)).

Fixpoint lookup (key : string) (members : list (string * Json)) : option Json :=
  match members with
  | [] => None
  | (k, v) :: rest => if String.eqb key k then Some v else lookup key rest
  end.

(** What reading a member gives: a [TypeError] (the value is [null]),
    [undefined], or a value. *)
Inductive Access :=
| Throws
| Undefined
| Got (v : Json).

(** [value.key] for the keys the script reads other than [length] and
    [map] ([error], [outputs], [label], [crop], [url], [width], [height],
    [x], [y]): no prototype supplies them, so only an object has such a
    member, and [null] has none to read. *)
Definition member (value : Json) (key : string) : Access :=
  match value with
  | JNull => Throws
  | JObj members =>
      match lookup key members with
      | Some v => Got v
      | None => Undefined
      end
  | _ => Undefined
  end.

(** Truthiness of a value, as tested by [||] and [!]. *)
Definition truthy_json (value : Json) : bool :=
  match value with
  | JNull => false
  | JBool b => b
  | JNum q => negb (Qeq_bool q 0)
  | JStr s => negb (String.eqb s "")
  | JArr _ | JObj _ => true
  end.

(** Whether [outputs.length] is truthy; [None] is the [TypeError] of reading
    it from [null].  Arrays and strings have a length of their own, an
    object has the member it was given, other values have none. *)
Definition length_truthy (outputs : Json) : option bool :=
  match outputs with
  | JNull => None
  | JArr items => Some (match items with [] => false | _ => true end)
  | JStr s => Some (negb (String.eqb s ""))
  | JObj members =>
      Some (match lookup "length" members with
            | Some v => truthy_json v
            | None => false
            end)
  | JBool _ | JNum _ => Some false
  end.

(** [await response.json()]: it yields the parsed value or rejects. *)
Inductive JsonPromise :=
| Parsed (value : Json)
| Rejected (message : string).

(** [await fetch(...)]: it rejects, or yields a response with its [ok] flag
    and its body. *)
Inductive FetchOutcome :=
| NetworkFailure (message : string)
| Response (ok : bool) (body : JsonPromise).

(** The text of a message: a string the script or the response supplies,
    the string conversion of a value that is not a string, or the text the
    engine gives a [TypeError]. *)
Inductive Message :=
| Text (s : string)
| StringOf (v : Json)
| TypeErrorText.

(** The part of the page [handleConfirm] writes. *)
Record Page := mkPage {
  feedback_text : Message;
  feedback_status : option Status;   (* [feedback feedback--<status>] *)
  exports : list Json;               (* the items rendered in [exportsList] *)
  confirm_disabled : bool
}.

Definition resetFeedback (p : Page) : Page :=
  mkPage (Text "") None [] (confirm_disabled p).

Definition setFeedback (message : Message) (status : Status) (p : Page) : Page :=
  mkPage message (Some status) (exports p) (confirm_disabled p).

Definition set_disabled (b : bool) (p : Page) : Page :=
  mkPage (feedback_text p) (feedback_status p) (exports p) b.

Definition set_exports (l : list Json) (p : Page) : Page :=
  mkPage (feedback_text p) (feedback_status p) l (confirm_disabled p).

(** Whether a value can be turned into a string: an object cannot when it
    has a member named [toString] (a parsed member is never a function, and
    [Object.prototype.valueOf] gives the object back), and a list cannot
    when one of its items cannot; everything else can. *)
Fixpoint stringifies (value : Json) : bool :=
  match value with
  | JObj members =>
      match lookup "toString" members with
      | Some _ => false
      | None => true
      end
  | JArr items => forallb stringifies items
  | JNull | JBool _ | JNum _ | JStr _ => true
  end.

(** [new Error(value).message], or the text of the [TypeError] that
    [new Error(value)] throws when the value has no string. *)
Definition message_of (value : Json) : Message :=
  match value with
  | JStr s => Text s
  | _ => if stringifies value then StringOf value else TypeErrorText
  end.

(** The message thrown on a response that is not [ok]:
    [error.error || "Unable to process video"], with [error] the parsed body
    or [{}] when the body cannot be read. *)
Definition error_message (body : JsonPromise) : Message :=
  let error := match body with Parsed v => v | Rejected _ => JObj [] end in
  match member error "error" with
  | Throws => TypeErrorText
  | Undefined => Text "Unable to process video"
  | Got v => if truthy_json v then message_of v else Text "Unable to process video"
  end.

(** Whether [${...}] can print what a member access gave: [undefined]
    prints, a value prints when it has a string. *)
Definition shows (access : Access) : bool :=
  match access with
  | Throws => false
  | Undefined => true
  | Got v => stringifies v
  end.

(** Whether the template of [outputs.map] can be filled for an item: it
    prints [item.label], [item.crop.width], [item.crop.height],
    [item.crop.x], [item.crop.y] and [item.url], so the item must not be
    [null], must have a [crop] that is not [null], and each of the six must
    print. *)
Definition renders (item : Json) : bool :=
  match member item "crop" with
  | Got crop =>
      shows (member item "label")
      && shows (member crop "width") && shows (member crop "height")
      && shows (member crop "x") && shows (member crop "y")
      && shows (member item "url")
  | Throws | Undefined => false
  end.

(** What the [try] block does: the page it leaves and, when it throws, the
    message of what it threw. *)
Definition confirm_try (outcome : FetchOutcome) (p : Page) : Page * option Message :=
  match outcome with
  | NetworkFailure m => (p, Some (Text m))
  | Response false body => (p, Some (error_message body))
  | Response true (Rejected m) => (p, Some (Text m))
  | Response true (Parsed result) =>
      (* const { outputs = [] } = result *)
      match member result "outputs" with
      | Throws => (p, Some TypeErrorText)
      | access =>
          let outputs := match access with Got v => v | _ => JArr [] end in
          match length_truthy outputs with
          | None => (p, Some TypeErrorText)
          | Some false =>
              (setFeedback (Text "Processing finished but no outputs were generated.")
                 warning p, None)
          | Some true =>
              let p' := setFeedback (Text "Export complete!") success p in
              match outputs with
              | JArr items =>
                  if forallb renders items then (set_exports items p', None)
                  else (p', Some TypeErrorText)
              | _ => (p', Some TypeErrorText)   (* [outputs.map] is not a function *)
              end
          end
      end
  end.

(** [handleConfirm], from the click to the settled page. *)
Definition handleConfirm (outcome : FetchOutcome) (p : Page) : Page :=
  let p1 :=
    set_disabled true
      (setFeedback (Text "Processing with ffmpeg…") pending (resetFeedback p)) in
  let p2 :=
    match confirm_try outcome p1 with
    | (p', None) => p'
    | (p', Some m) => setFeedback m error p'
    end in
  set_disabled false p2.

(* ================================================================== *)
(** ** Properties the specification names *)

(** The region is inside the frame, in ratio space. *)
Definition contained (rect : Rect.t) : Prop :=
  exists l t,
    Rect.left rect = Some l /\ Rect.top rect = Some t /\
    0 <= l /\ 0 <= t /\
    l + Rect.widthRatio rect <= 1 /\ t + Rect.heightRatio rect <= 1.

(** The aspect of the region measured in ratio space. *)
Definition ratio_aspect (rect : Rect.t) : Q :=
  Rect.widthRatio rect / Rect.heightRatio rect.

(** The aspect of the region measured in video pixels. *)
Definition pixel_aspect (videoWidth videoHeight : N) (rect : Rect.t) : Q :=
  (Rect.widthRatio rect * N2Q videoWidth) / (Rect.heightRatio rect * N2Q videoHeight).

(** The width of the region in video pixels. *)
Definition width_px (videoWidth : N) (rect : Rect.t) : Q :=
  Rect.widthRatio rect * N2Q videoWidth.

(** The pixel position of the corner of [rect] opposite to [handle]. *)
Definition opposite_corner_px (metrics : Metrics.t) (handle : Handle)
    (rect : Rect.t) : option (Q * Q) :=
  match positioned rect with
  | None => None
  | Some (l, t) =>
      let W := Metrics.width metrics in
      let H := Metrics.height metrics in
      let r := (l + Rect.widthRatio rect) * W in
      let b := (t + Rect.heightRatio rect) * H in
      Some match handle with
           | TopLeft => (r, b)
           | TopRight => (l * W, b)
           | BottomLeft => (r, t * H)
           | BottomRight => (l * W, t * H)
           end
  end.

(** The corner of [rect] opposite to [handle] is at [anchor], in pixels of
    a [W] x [H] video. *)
Definition corner_kept (W H : Q) (handle : Handle) (anchor : Q * Q)
    (rect : Rect.t) : Prop :=
  exists cx cy,
    opposite_corner_px (Metrics.mk W H) handle rect = Some (cx, cy) /\
    cx == fst anchor /\ cy == snd anchor.

(** The upper bound [maxWidthPx] used by [computeWidthPx]. *)
Definition maxWidthPx_of (metrics : Metrics.t) (minWidthPx boundPx : Q) : Q :=
  Qmax (Qmin boundPx (Metrics.width metrics)) minWidthPx.

(** The start rectangle of a resize lies inside the frame, in pixels. *)
Definition start_in_frame (metrics : Metrics.t) (start : ResizeStart.t) : Prop :=
  0 <= ResizeStart.leftPx start /\ 0 <= ResizeStart.topPx start /\
  0 <= ResizeStart.widthPx start /\ 0 <= ResizeStart.heightPx start /\
  ResizeStart.leftPx start + ResizeStart.widthPx start <= Metrics.width metrics /\
  ResizeStart.topPx start + ResizeStart.heightPx start <= Metrics.height metrics.

Definition other (r : RectRef) : RectRef :=
  match r with Speaker1 => Speaker2 | Speaker2 => Speaker1 end.

(** The corner of the start rectangle opposite to the dragged handle. *)
Definition anchor_of (handle : Handle) (start : ResizeStart.t) : Q * Q :=
  let l := ResizeStart.leftPx start in
  let t := ResizeStart.topPx start in
  let r := ResizeStart.leftPx start + ResizeStart.widthPx start in
  let b := ResizeStart.topPx start + ResizeStart.heightPx start in
  match handle with
  | TopLeft => (r, b)
  | TopRight => (l, b)
  | BottomLeft => (r, t)
  | BottomRight => (l, t)
  end.

(** Every step of the trace saw the same video dimensions. *)
Definition fixed_video (vw vh : N) (trace : list (Env * Event)) : Prop :=
  Forall (fun step => videoWidth (fst step) = vw /\ videoHeight (fst step) = vh) trace.

(** What holds of every state the page reaches while it shows one video:
    before the first sizing nothing is positioned and nothing is dragged;
    afterwards both regions are inside the frame, the floor fits the frame
    height, and a resize in progress started from a region inside the frame. *)
Definition in_frame_inv (vw vh : N) (s : State) : Prop :=
  (positioned (rect1 s) = None /\ positioned (rect2 s) = None /\ interaction s = None) \/
  ((forall r, contained (get_rect s r)) /\
   minWidthPx_of (minWidthRatio s) (Metrics.mk (N2Q vw) (N2Q vh))
     <= N2Q vh * TARGET_ASPECT_RATIO /\
   (forall r h start pid ct,
      interaction s = Some (Resize r h start pid ct) ->
      0 <= ResizeStart.topPx start /\
      ResizeStart.topPx start + ResizeStart.heightPx start <= N2Q vh)).

(** What a run of pointer moves keeps while a move is in progress. *)
Definition moving_inv (r : RectRef) (start : MoveStart.t) (pid : Z) (ct : Target)
    (s0 s : State) : Prop :=
  interaction s = Some (Move r start pid ct) /\
  Rect.widthRatio (get_rect s r) = Rect.widthRatio (get_rect s0 r) /\
  Rect.heightRatio (get_rect s r) = Rect.heightRatio (get_rect s0 r) /\
  get_rect s (other r) = get_rect s0 (other r).

(* ================================================================== *)
(** ** Scenarios *)

Definition press_at (x y : Q) : PointerEvent.t := PointerEvent.mk x y 1.

Definition env_1920x1080 : Env := mkEnv 1920 1080 (DOMRect.mk 0 0 960 540).

Definition sized_1920x1080 : State := updateRectSizeFromVideo 1920 1080 initial_state.

(** A 1920x1080 video shown at 960x540: the bottom-right handle of the
    first region is pressed and dragged to the overlay point (288, 486). *)
Definition resize_trace_1920x1080 : list (Env * Event) :=
  [ (env_1920x1080, LoadedMetadata);
    (env_1920x1080, PointerDownHandle Speaker1 BottomRight (press_at 600 400));
    (env_1920x1080, PointerMoved (press_at 288 486)) ].

Definition env_1280x720 : Env := mkEnv 1280 720 (DOMRect.mk 0 0 640 360).


(** A state in the middle of a resize on a 3840x2160 video: the first
    region sits at ratio (0.05, 0.10) with the 1100x1000 pixel size of the
    initial sizing and its bottom-right handle is held. *)
Definition start_4k : ResizeStart.t :=
  ResizeStart.mk (5 # 100) (1 # 10) (1100 # 3840) (1000 # 2160) 192 216 1100 1000.

Definition resizing_4k : State :=
  mkState
    (Rect.mk "rect-speaker-1" (5 # 100) (1 # 10) (Some (5 # 100)) (Some (1 # 10))
       (1100 # 3840) (1000 # 2160))
    (Rect.mk "rect-speaker-2" (6 # 10) (55 # 100) (Some (6 # 10)) (Some (55 # 100))
       (1100 # 3840) (1000 # 2160))
    (Some (Resize Speaker1 BottomRight start_4k 1 (HandleElement Speaker1 BottomRight)))
    (55 # 384).

Definition bounds_4k : DOMRect.t := DOMRect.mk 0 0 960 540.

Definition blank_page : Page := mkPage (Text "") None [] false.

(** The first region of a sized 1920x1080 video, pressed on its body. *)
Definition moving_1920x1080 : State :=
  pointerDown (press_at 100 100) Speaker1 sized_1920x1080.

(* ================================================================== *)
(** ** The request payload and the capture released at pointer-up *)

(** One entry of [body.regions] in [handleConfirm]. *)
Module Region.
Record t := mk {
  id : string;
  x : option Q;
  y : option Q;
  width : Q;
  height : Q
}.
End Region.

Definition serialize (rect : Rect.t) : Region.t :=
  Region.mk (Rect.id rect) (Rect.left rect) (Rect.top rect)
    (Rect.widthRatio rect) (Rect.heightRatio rect).

(** [rectangles.map(...)] in [handleConfirm]. *)
Definition request_regions (s : State) : list Region.t :=
  [serialize (rect1 s); serialize (rect2 s)].

(** The call [target.releasePointerCapture(interaction.pointerId)] of
    [endDrag], as the element and pointer id it is made with; [None] when the
    guard [interaction?.pointerId && interaction?.capturedTarget] fails.  A
    pointer id of [0] is falsy. *)
Definition endDrag_release (s : State) : option (Target * Z) :=
  match interaction s with
  | None => None
  | Some (Move _ _ pid ct) | Some (Resize _ _ _ pid ct) =>
      if Z.eqb pid 0 then None else Some (ct, pid)
  end.

(** The call to [setPointerCapture] made when an interaction is created:
    the element it is made on and the pointer id. *)
Definition capture_of (i : Interaction) : Target * Z :=
  match i with
  | Move _ _ pid ct => (ct, pid)
  | Resize _ _ _ pid ct => (ct, pid)
  end.

(** The oriented distances of the resize algorithm as the specification
    words them: from the anchor to the pointer, positive in the direction the
    dragged handle grows. *)
Definition spec_horizontal_distance (handle : Handle) (anchor pointer : Q * Q) : Q :=
  match handle with
  | TopLeft | BottomLeft => fst anchor - fst pointer
  | TopRight | BottomRight => fst pointer - fst anchor
  end.

Definition spec_vertical_distance (handle : Handle) (anchor pointer : Q * Q) : Q :=
  match handle with
  | TopLeft | TopRight => snd anchor - snd pointer
  | BottomLeft | BottomRight => snd pointer - snd anchor
  end.

(** The frame-edge bound on the width: the distance from the anchor to the
    frame edge the handle grows towards, horizontally, and vertically times
    the aspect ratio, whichever is smaller. *)
Definition spec_frame_edge_bound (W H : Q) (handle : Handle) (anchor : Q * Q) : Q :=
  Qmin
    (match handle with
     | TopLeft | BottomLeft => fst anchor
     | TopRight | BottomRight => W - fst anchor
     end)
    ((match handle with
      | TopLeft | TopRight => snd anchor
      | BottomLeft | BottomRight => H - snd anchor
      end) * (1100 # 1000)).

(** The pointer in video pixels: its position relative to the overlay,
    limited to the overlay, times the video dimensions. *)
Definition spec_pointer_px (W H : Q) (bounds : DOMRect.t) (event : PointerEvent.t) : Q * Q :=
  (Qmin (Qmax ((PointerEvent.clientX event - DOMRect.left bounds) / DOMRect.width bounds) 0) 1
   * W,
   Qmin (Qmax ((PointerEvent.clientY event - DOMRect.top bounds) / DOMRect.height bounds) 0) 1
   * H).

(** A value that is falsy. *)
Inductive falsy : Json -> Prop :=
| falsy_null : falsy JNull
| falsy_false : falsy (JBool false)
| falsy_zero q : q == 0 -> falsy (JNum q)
| falsy_empty : falsy (JStr "").

(** The [outputs] a parsed success body gives: its [outputs] member, or the
    empty list when it has none.  A [null] body gives nothing. *)
Inductive outputs_of : Json -> Json -> Prop :=
| outputs_member members v :
    lookup "outputs" members = Some v -> outputs_of (JObj members) v
| outputs_absent members :
    lookup "outputs" members = None -> outputs_of (JObj members) (JArr [])
| outputs_of_bool b : outputs_of (JBool b) (JArr [])
| outputs_of_num q : outputs_of (JNum q) (JArr [])
| outputs_of_str s : outputs_of (JStr s) (JArr [])
| outputs_of_arr l : outputs_of (JArr l) (JArr []).

(** [outputs] has nothing to show: an empty list or string, a number, a
    boolean, or an object without a truthy [length]. *)
Inductive no_items : Json -> Prop :=
| no_items_arr : no_items (JArr [])
| no_items_str : no_items (JStr "")
| no_items_bool b : no_items (JBool b)
| no_items_num q : no_items (JNum q)
| no_items_obj_absent members :
    lookup "length" members = None -> no_items (JObj members)
| no_items_obj_falsy members v :
    lookup "length" members = Some v -> falsy v -> no_items (JObj members).

(** A value that has a string form: not an object with a member named
    [toString], and not a list holding a value without one. *)
#[warnings="-register-all"]
Inductive has_text : Json -> Prop :=
| has_text_null : has_text JNull
| has_text_bool b : has_text (JBool b)
| has_text_num q : has_text (JNum q)
| has_text_str s : has_text (JStr s)
| has_text_arr items : Forall has_text items -> has_text (JArr items)
| has_text_obj members : lookup "toString" members = None -> has_text (JObj members).

(** A member the page prints: absent, or a value with a string form. *)
Definition prints (members : list (string * Json)) (key : string) : Prop :=
  match lookup key members with
  | Some v => has_text v
  | None => True
  end.

(** A [crop] the page can print: not [null], and when it is an object its
    [width], [height], [x] and [y] print. *)
Inductive well_formed_crop : Json -> Prop :=
| crop_obj members :
    prints members "width" -> prints members "height" ->
    prints members "x" -> prints members "y" ->
    well_formed_crop (JObj members)
| crop_bool b : well_formed_crop (JBool b)
| crop_num q : well_formed_crop (JNum q)
| crop_str s : well_formed_crop (JStr s)
| crop_arr items : well_formed_crop (JArr items).

(** An output the page can show: an object with such a [crop], whose
    [label] and [url] print. *)
Inductive well_formed_item : Json -> Prop :=
| well_formed_item_intro members crop :
    lookup "crop" members = Some crop -> well_formed_crop crop ->
    prints members "label" -> prints members "url" ->
    well_formed_item (JObj members).

(** The body of a response that is not [ok] carries no usable message: it
    cannot be read, or it is not [null] and has no truthy [error] member. *)
Inductive lacks_error_message : JsonPromise -> Prop :=
| lacks_unreadable m : lacks_error_message (Rejected m)
| lacks_bool b : lacks_error_message (Parsed (JBool b))
| lacks_num q : lacks_error_message (Parsed (JNum q))
| lacks_str s : lacks_error_message (Parsed (JStr s))
| lacks_arr l : lacks_error_message (Parsed (JArr l))
| lacks_absent members :
    lookup "error" members = None -> lacks_error_message (Parsed (JObj members))
| lacks_falsy members v :
    lookup "error" members = Some v -> falsy v ->
    lacks_error_message (Parsed (JObj members)).

(** The rectangle the interaction in progress refers to. *)
Definition dragged (s : State) : option RectRef :=
  match interaction s with
  | None => None
  | Some (Move r _ _ _) | Some (Resize r _ _ _ _) => Some r
  end.

(** The pointer position [p'] is at least as far from the anchor of
    [handle] as [p] on both axes, in the directions that handle grows. *)
Definition farther (handle : Handle) (p p' : Q * Q) : Prop :=
  match handle with
  | TopLeft => fst p' <= fst p /\ snd p' <= snd p
  | TopRight => fst p <= fst p' /\ snd p' <= snd p
  | BottomLeft => fst p' <= fst p /\ snd p <= snd p'
  | BottomRight => fst p <= fst p' /\ snd p <= snd p'
  end.

(** The corner of [rect] that [handle] sits on, in ratio space. *)
Definition handle_corner (handle : Handle) (rect : Rect.t) : option (Q * Q) :=
  match positioned rect with
  | None => None
  | Some (l, t) =>
      let r := l + Rect.widthRatio rect in
      let b := t + Rect.heightRatio rect in
      Some match handle with
           | TopLeft => (l, t)
           | TopRight => (r, t)
           | BottomLeft => (l, b)
           | BottomRight => (r, b)
           end
  end.

(** The metrics a step of a trace saw are unknown. *)
Definition metrics_unknown (env : Env) : Prop :=
  getVideoMetrics (videoWidth env) (videoHeight env) = None.

(** What holds of every state reached while the page shows one video of any
    size: before the first sizing nothing is positioned and nothing is
    dragged; afterwards each region is positioned at non-negative
    coordinates, has positive sizes and the pixel-space aspect of the target
    box. *)
Definition sized_rect (vw vh : N) (rect : Rect.t) : Prop :=
  exists l t,
    Rect.left rect = Some l /\ Rect.top rect = Some t /\
    0 <= l /\ 0 <= t /\
    0 < Rect.widthRatio rect /\ 0 < Rect.heightRatio rect /\
    Rect.widthRatio rect * N2Q vw
      == Rect.heightRatio rect * N2Q vh * TARGET_ASPECT_RATIO.

Definition sized_inv (vw vh : N) (s : State) : Prop :=
  (positioned (rect1 s) = None /\ positioned (rect2 s) = None /\ interaction s = None) \/
  (forall r, sized_rect vw vh (get_rect s r)).

(* ================================================================== *)
(** ** The earlier revision of the script ([static/js/main.js])

    It has no handles: regions are sized once to a 1080x675 box scaled down
    to fit the video, and can only be moved. *)

Module MainJs.

(** [function clamp(value, min, max)], without the empty-range test. *)
Definition clamp (value min max : Q) : Q := Qmin (Qmax value min) max.

(** The variables captured by the handlers. *)
Record State := mkState {
  rect1 : Rect.t;
  rect2 : Rect.t;
  activeRect : option RectRef;
  dragStart : option MoveStart.t
}.

Definition get_rect (s : State) (r : RectRef) : Rect.t :=
  match r with Speaker1 => rect1 s | Speaker2 => rect2 s end.

Definition set_rect (s : State) (r : RectRef) (v : Rect.t) : State :=
  match r with
  | Speaker1 => mkState v (rect2 s) (activeRect s) (dragStart s)
  | Speaker2 => mkState (rect1 s) v (activeRect s) (dragStart s)
  end.

Definition initial_state : State :=
  mkState
    (Rect.mk "rect-speaker-1" (5 # 100) (1 # 10) None None 0 0)
    (Rect.mk "rect-speaker-2" (6 # 10) (55 # 100) None None 0 0)
    None None.

(** [scale] of [updateRectSizeFromVideo]. *)
Definition scale (videoWidth videoHeight : N) : Q :=
  Qmin (Qmin 1 (N2Q videoWidth / 1080)) (N2Q videoHeight / 675).

(** The body of the [rectangles.forEach] of [updateRectSizeFromVideo]. *)
Definition size_rect (cropWidth cropHeight : Q) (rect : Rect.t) : Rect.t :=
  let '(l, t) :=
    match Rect.left rect, Rect.top rect with
    | Some l, Some t => (l, t)
    | _, _ => (Rect.defaultLeft rect, Rect.defaultTop rect)
    end in
  Rect.mk (Rect.id rect) (Rect.defaultLeft rect) (Rect.defaultTop rect)
    (Some (clamp l 0 (1 - cropWidth)))
    (Some (clamp t 0 (1 - cropHeight)))
    cropWidth cropHeight.

Definition updateRectSizeFromVideo (videoWidth videoHeight : N) (s : State) : State :=
  if (N.eqb videoWidth 0 || N.eqb videoHeight 0)%bool then s
  else
    let scale := scale videoWidth videoHeight in
    let cropWidth := (1080 * scale) / N2Q videoWidth in
    let cropHeight := (675 * scale) / N2Q videoHeight in
    mkState (size_rect cropWidth cropHeight (rect1 s))
            (size_rect cropWidth cropHeight (rect2 s))
            (activeRect s) (dragStart s).

Definition pointerDown (event : PointerEvent.t) (r : RectRef) (s : State) : State :=
  match positioned (get_rect s r) with
  | None => s
  | Some (l, t) =>
      mkState (rect1 s) (rect2 s) (Some r)
        (Some (MoveStart.mk (PointerEvent.clientX event) (PointerEvent.clientY event) l t))
  end.

Definition pointerMove (bounds : DOMRect.t) (event : PointerEvent.t) (s : State) : State :=
  match activeRect s, dragStart s with
  | Some r, Some start =>
      if (negb (truthy (DOMRect.width bounds)) || negb (truthy (DOMRect.height bounds)))%bool
      then s
      else
        let rect := get_rect s r in
        let deltaX :=
          (PointerEvent.clientX event - MoveStart.clientX start) / DOMRect.width bounds in
        let deltaY :=
          (PointerEvent.clientY event - MoveStart.clientY start) / DOMRect.height bounds in
        set_rect s r
          (Rect.mk (Rect.id rect) (Rect.defaultLeft rect) (Rect.defaultTop rect)
             (Some (clamp (MoveStart.left start + deltaX) 0 (1 - Rect.widthRatio rect)))
             (Some (clamp (MoveStart.top start + deltaY) 0 (1 - Rect.heightRatio rect)))
             (Rect.widthRatio rect) (Rect.heightRatio rect))
  | _, _ => s
  end.

Definition endDrag (s : State) : State := mkState (rect1 s) (rect2 s) None None.

Inductive Event :=
| LoadedMetadata
| PointerDownRect (r : RectRef) (e : PointerEvent.t)
| PointerMoved (e : PointerEvent.t)
| PointerUp
| PointerCancel.

(** The listeners registered by the script. *)
Definition dispatch (env : Env) (ev : Event) (s : State) : State :=
  match ev with
  | LoadedMetadata => updateRectSizeFromVideo (videoWidth env) (videoHeight env) s
  | PointerDownRect r e => pointerDown e r s
  | PointerMoved e => pointerMove (bounds env) e s
  | PointerUp | PointerCancel => endDrag s
  end.

Definition run (trace : list (Env * Event)) (s : State) : State :=
  fold_left (fun acc step => dispatch (fst step) (snd step) acc) trace s.

(** The aspect of the region measured in video pixels. *)
Definition pixel_aspect (videoWidth videoHeight : N) (rect : Rect.t) : Q :=
  (Rect.widthRatio rect * N2Q videoWidth) / (Rect.heightRatio rect * N2Q videoHeight).

End MainJs.

(* ================================================================== *)
(** ** The arithmetic in doubles *)

(** The script computes in IEEE binary64 numbers, rounding to nearest; the
    exact rationals above do not round.  This module repeats the arithmetic
    of the sizing and of [resizeRect] on binary64 floats with the same
    rounding, so that it can be evaluated where rounding decides. *)
Module Doubles.
Import PrimFloat.
Local Open Scope float_scope.

(** [Math.max] and [Math.min] of two numbers: [NaN] if either is [NaN],
    and [-0] below [+0]. *)
Definition max (a b : float) : float :=
  if (is_nan a || is_nan b)%bool then nan
  else if ltb a b then b
  else if ltb b a then a
  else if get_sign a then b else a.

Definition min (a b : float) : float :=
  if (is_nan a || is_nan b)%bool then nan
  else if ltb a b then a
  else if ltb b a then b
  else if get_sign a then a else b.

Definition clamp (value lo hi : float) : float :=
  if ltb hi lo then lo else min (max value lo) hi.

Definition TARGET_ASPECT_RATIO : float := 1100 / 1000.

(** The geometry of a rectangle that has a position. *)
Record Rect := mkRect {
  left : float;
  top : float;
  widthRatio : float;
  heightRatio : float
}.

Definition bottom (rect : Rect) : float := top rect + heightRatio rect.

Definition right (rect : Rect) : float := left rect + widthRatio rect.

(** [minWidthRatio] as [updateRectSizeFromVideo] sets it. *)
#[warnings="-inexact-float"]
Definition minWidthRatio_of (cropWidth : float) : float :=
  min (max (cropWidth * 0.5) 0.03)
    (if (is_zero cropWidth || is_nan cropWidth)%bool then 0.12 else cropWidth).

(** The body of the [rectangles.forEach] of [updateRectSizeFromVideo];
    [left] and [top] are the position of the rectangle, or its default
    position when it has none. *)
Definition size_rect (videoWidth videoHeight left top : float) : Rect :=
  let cropWidth := 1100 / videoWidth in
  let cropHeight := 1000 / videoHeight in
  mkRect (clamp left 0 (1 - cropWidth)) (clamp top 0 (1 - cropHeight))
    cropWidth cropHeight.

(** The pixel values [pointerDownResize] records. *)
Record Start := mkStart {
  leftPx : float;
  topPx : float;
  widthPx : float;
  heightPx : float
}.

Definition start_of (videoWidth videoHeight : float) (rect : Rect) : Start :=
  mkStart (left rect * videoWidth) (top rect * videoHeight)
    (widthRatio rect * videoWidth) (heightRatio rect * videoHeight).

Definition applyValues (W H minWidthPx leftPx topPx widthPx : float) : Rect :=
  let boundedWidthPx := clamp widthPx minWidthPx W in
  let heightPx := boundedWidthPx / TARGET_ASPECT_RATIO in
  let maxLeftPx := max (W - boundedWidthPx) 0 in
  let maxTopPx := max (H - heightPx) 0 in
  let safeLeftPx := clamp leftPx 0 maxLeftPx in
  let safeTopPx := clamp topPx 0 maxTopPx in
  mkRect (safeLeftPx / W) (safeTopPx / H) (boundedWidthPx / W) (heightPx / H).

Definition computeWidthPx (W minWidthPx dxPx dyPx boundPx : float) : float :=
  let widthFromX := max dxPx 0 in
  let widthFromY := max dyPx 0 * TARGET_ASPECT_RATIO in
  let candidate := min widthFromX widthFromY in
  let maxWidthPx := max (min boundPx W) minWidthPx in
  clamp candidate minWidthPx maxWidthPx.

(** [resizeRect] for a video of [W] x [H] pixels and the pointer at ratio
    [(x, y)] of the overlay. *)
#[warnings="-inexact-float"]
Definition resizeRect (W H minWidthRatio : float) (handle : Handle)
    (start : Start) (x y : float) : Rect :=
  let pointerX := x * W in
  let pointerY := y * H in
  let minWidthPx := max (min minWidthRatio 1) 0.02 * W in
  match handle with
  | TopLeft =>
      let anchorX := leftPx start + widthPx start in
      let anchorY := topPx start + heightPx start in
      let dxPx := anchorX - pointerX in
      let dyPx := anchorY - pointerY in
      let boundsWidthPx := min anchorX (anchorY * TARGET_ASPECT_RATIO) in
      let newWidthPx := computeWidthPx W minWidthPx dxPx dyPx boundsWidthPx in
      applyValues W H minWidthPx (anchorX - newWidthPx)
        (anchorY - newWidthPx / TARGET_ASPECT_RATIO) newWidthPx
  | TopRight =>
      let anchorX := leftPx start in
      let anchorY := topPx start + heightPx start in
      let dxPx := pointerX - anchorX in
      let dyPx := anchorY - pointerY in
      let boundsWidthPx := min (W - anchorX) (anchorY * TARGET_ASPECT_RATIO) in
      let newWidthPx := computeWidthPx W minWidthPx dxPx dyPx boundsWidthPx in
      applyValues W H minWidthPx anchorX
        (anchorY - newWidthPx / TARGET_ASPECT_RATIO) newWidthPx
  | BottomLeft =>
      let anchorX := leftPx start + widthPx start in
      let anchorY := topPx start in
      let dxPx := anchorX - pointerX in
      let dyPx := pointerY - anchorY in
      let boundsWidthPx := min anchorX ((H - anchorY) * TARGET_ASPECT_RATIO) in
      let newWidthPx := computeWidthPx W minWidthPx dxPx dyPx boundsWidthPx in
      applyValues W H minWidthPx (anchorX - newWidthPx) anchorY newWidthPx
  | BottomRight =>
      let anchorX := leftPx start in
      let anchorY := topPx start in
      let dxPx := pointerX - anchorX in
      let dyPx := pointerY - anchorY in
      let boundsWidthPx := min (W - anchorX) ((H - anchorY) * TARGET_ASPECT_RATIO) in
      let newWidthPx := computeWidthPx W minWidthPx dxPx dyPx boundsWidthPx in
      applyValues W H minWidthPx anchorX anchorY newWidthPx
  end.

(** The sizing of the earlier revision, [static/js/main.js], with its
    [clamp]. *)
Definition mainjs_clamp (value lo hi : float) : float := min (max value lo) hi.

Definition mainjs_size_rect (videoWidth videoHeight left top : float) : Rect :=
  let scale := min (min 1 (videoWidth / 1080)) (videoHeight / 675) in
  let cropWidth := (1080 * scale) / videoWidth in
  let cropHeight := (675 * scale) / videoHeight in
  mkRect (mainjs_clamp left 0 (1 - cropWidth)) (mainjs_clamp top 0 (1 - cropHeight))
    cropWidth cropHeight.

(** The first region of a 1920x1008 video after the initial sizing, and
    after a resize from its top-left handle with the pointer on the top-left
    corner of the overlay. *)
#[warnings="-inexact-float"]
Definition sized_1920x1008 : Rect := size_rect 1920 1008 0.05 0.1.

Definition resized_1920x1008 : Rect :=
  resizeRect 1920 1008 (minWidthRatio_of (1100 / 1920)) TopLeft
    (start_of 1920 1008 sized_1920x1008) 0 0.

(** The second region of a 334x1502 video, the same way. *)
#[warnings="-inexact-float"]
Definition sized_334x1502 : Rect := size_rect 334 1502 0.6 0.55.

Definition resized_334x1502 : Rect :=
  resizeRect 334 1502 (minWidthRatio_of (1100 / 334)) TopLeft
    (start_of 334 1502 sized_334x1502) 0 0.

(** The first region of a 1280x478 video after the initial sizing of the
    earlier revision. *)
#[warnings="-inexact-float"]
Definition mainjs_sized_1280x478 : Rect := mainjs_size_rect 1280 478 0.05 0.1.

(** The double next above 1, written 1.0000000000000002, and the double
    [-2^-52], written -2.220446049250313e-16. *)
Definition above_one : float := 0x1.0000000000001p+0.

Definition below_zero : float := - 0x1p-52.

Definition zero : float := 0.

Definition one : float := 1.

Definition less (a b : float) : bool := ltb a b.

End Doubles.

(* ================================================================== *)
(** * Proofs *)

(** ** Arithmetic of [Qmin], [Qmax] and [clamp] *)

Lemma TARGET_ASPECT_RATIO_value : TARGET_ASPECT_RATIO = (1100 # 1000).
Proof. reflexivity. Qed.

Lemma div_TARGET_ASPECT_RATIO x : x / TARGET_ASPECT_RATIO = x * (1000 # 1100).
Proof. reflexivity. Qed.

Lemma Qmax_cases x y : (x < y /\ Qmax x y = y) \/ (y <= x /\ Qmax x y = x).
Proof.
  unfold Qmax, GenericMinMax.gmax. destruct (x ?= y) eqn:E.
  - right. split; [|reflexivity]. apply Qeq_alt in E. lra.
  - left. split; [|reflexivity]. apply Qlt_alt in E. lra.
  - right. split; [|reflexivity]. apply Qgt_alt in E. lra.
Qed.

Lemma Qmin_cases x y : (x <= y /\ Qmin x y = x) \/ (y < x /\ Qmin x y = y).
Proof.
  unfold Qmin, GenericMinMax.gmin. destruct (x ?= y) eqn:E.
  - left. split; [|reflexivity]. apply Qeq_alt in E. lra.
  - left. split; [|reflexivity]. apply Qlt_alt in E. lra.
  - right. split; [|reflexivity]. apply Qgt_alt in E. lra.
Qed.

(** Split on every [Qmax], [Qmin] and [clamp] test in sight. *)
Ltac split_minmax :=
  repeat match goal with
  | |- context [Qmax ?a ?b] =>
      let H := fresh "Hmax" in let E := fresh "Emax" in
      destruct (Qmax_cases a b) as [[H E] | [H E]]; rewrite !E in *; clear E
  | |- context [Qmin ?a ?b] =>
      let H := fresh "Hmin" in let E := fresh "Emin" in
      destruct (Qmin_cases a b) as [[H E] | [H E]]; rewrite !E in *; clear E
  | |- context [Qlt_le_dec ?a ?b] =>
      destruct (Qlt_le_dec a b)
  | H : context [Qmax ?a ?b] |- _ =>
      let H := fresh "Hmax" in let E := fresh "Emax" in
      destruct (Qmax_cases a b) as [[H E] | [H E]]; rewrite !E in *; clear E
  | H : context [Qmin ?a ?b] |- _ =>
      let H := fresh "Hmin" in let E := fresh "Emin" in
      destruct (Qmin_cases a b) as [[H E] | [H E]]; rewrite !E in *; clear E
  | H : context [Qlt_le_dec ?a ?b] |- _ =>
      destruct (Qlt_le_dec a b)
  end.

Ltac minmax := unfold clamp in *; split_minmax; try lra.

Lemma clamp_bounds v lo hi : lo <= hi -> lo <= clamp v lo hi <= hi.
Proof. intros. minmax. Qed.

Lemma clamp_id v lo hi : lo <= v -> v <= hi -> clamp v lo hi == v.
Proof. intros. minmax. Qed.

(** [clamp] respects [==] in every argument. *)
Lemma clamp_compat v v' lo lo' hi hi' :
  v == v' -> lo == lo' -> hi == hi' -> clamp v lo hi == clamp v' lo' hi'.
Proof. intros. minmax. Qed.

(** The negative parts of the two candidates never survive a positive
    floor: clamping the candidate of [computeWidthPx] is clamping the smaller
    of the two signed distances. *)
Lemma clamp_candidate dx dy lo hi :
  0 <= lo ->
  clamp (Qmin (Qmax dx 0) (Qmax dy 0 * TARGET_ASPECT_RATIO)) lo hi
  == clamp (Qmin dx (dy * TARGET_ASPECT_RATIO)) lo hi.
Proof. intros. rewrite TARGET_ASPECT_RATIO_value. minmax. Qed.

(** ** Division by a video dimension *)

Lemma div_mul_cancel x w : 0 < w -> x / w * w == x.
Proof. intros. field. lra. Qed.

Lemma div_nonneg x w : 0 < w -> 0 <= x -> 0 <= x / w.
Proof. intros. apply Qle_shift_div_l; lra. Qed.

Lemma div_sum_le_1 a b w : 0 < w -> a + b <= w -> a / w + b / w <= 1.
Proof.
  intros Hw Hab.
  assert (E : a / w + b / w == (a + b) / w) by (field; lra).
  rewrite E. apply Qle_shift_div_r; lra.
Qed.

Lemma div_le_1 a w : 0 < w -> a <= w -> a / w <= 1.
Proof. intros. apply Qle_shift_div_r; lra. Qed.

Lemma N2Q_pos n : n <> 0%N -> 0 < N2Q n.
Proof.
  intros Hn. unfold N2Q. change 0 with (inject_Z 0). rewrite <- Zlt_Qlt. lia.
Qed.

Lemma N2Q_le a b : (a <= b)%N -> N2Q a <= N2Q b.
Proof. intros. unfold N2Q. rewrite <- Zle_Qle. lia. Qed.

Lemma getVideoMetrics_known vw vh :
  vw <> 0%N -> vh <> 0%N ->
  getVideoMetrics vw vh = Some (Metrics.mk (N2Q vw) (N2Q vh)).
Proof.
  intros Hw Hh. unfold getVideoMetrics.
  destruct (N.eqb_spec vw 0); [contradiction|].
  destruct (N.eqb_spec vh 0); [contradiction|]. reflexivity.
Qed.

Lemma getPointerRatio_known b e :
  truthy (DOMRect.width b) = true -> truthy (DOMRect.height b) = true ->
  exists x y, getPointerRatio b e = Some (x, y) /\ 0 <= x <= 1 /\ 0 <= y <= 1.
Proof.
  intros Hw Hh. unfold getPointerRatio. rewrite Hw, Hh. simpl.
  eexists _, _. split; [reflexivity|].
  split; apply clamp_bounds; lra.
Qed.

(** ** State bookkeeping *)

Lemma get_set_same s r v : get_rect (set_rect s r v) r = v.
Proof. destruct r; reflexivity. Qed.

Lemma get_set_other s r v : get_rect (set_rect s r v) (other r) = get_rect s (other r).
Proof. destruct r; reflexivity. Qed.

Lemma interaction_set_rect s r v : interaction (set_rect s r v) = interaction s.
Proof. destruct r; reflexivity. Qed.

Lemma minWidthRatio_set_rect s r v : minWidthRatio (set_rect s r v) = minWidthRatio s.
Proof. destruct r; reflexivity. Qed.

(** ** What each handler does to the state *)

Lemma updateRectSizeFromVideo_known vw vh s :
  vw <> 0%N -> vh <> 0%N ->
  updateRectSizeFromVideo vw vh s
  = mkState (size_rect (TARGET_ASPECT.width / N2Q vw) (TARGET_ASPECT.height / N2Q vh) (rect1 s))
            (size_rect (TARGET_ASPECT.width / N2Q vw) (TARGET_ASPECT.height / N2Q vh) (rect2 s))
            (interaction s)
            (minWidthRatio_of (TARGET_ASPECT.width / N2Q vw)).
Proof.
  intros Hw Hh. unfold updateRectSizeFromVideo.
  destruct (N.eqb_spec vw 0); [contradiction|].
  destruct (N.eqb_spec vh 0); [contradiction|]. reflexivity.
Qed.

Lemma size_rect_fields cw ch rect :
  Rect.widthRatio (size_rect cw ch rect) = cw /\
  Rect.heightRatio (size_rect cw ch rect) = ch /\
  exists l t,
    Rect.left (size_rect cw ch rect) = Some (clamp l 0 (1 - cw)) /\
    Rect.top (size_rect cw ch rect) = Some (clamp t 0 (1 - ch)).
Proof.
  unfold size_rect.
  destruct (Rect.left rect), (Rect.top rect); simpl; repeat split; eauto.
Qed.

Lemma get_rect_update vw vh s r :
  vw <> 0%N -> vh <> 0%N ->
  get_rect (updateRectSizeFromVideo vw vh s) r
  = size_rect (TARGET_ASPECT.width / N2Q vw) (TARGET_ASPECT.height / N2Q vh) (get_rect s r).
Proof.
  intros Hw Hh. rewrite updateRectSizeFromVideo_known by assumption.
  destruct r; reflexivity.
Qed.

Lemma pointerMove_resize vw vh b e s r h start pid ct :
  interaction s = Some (Resize r h start pid ct) ->
  vw <> 0%N -> vh <> 0%N ->
  truthy (DOMRect.width b) = true -> truthy (DOMRect.height b) = true ->
  exists x y,
    getPointerRatio b e = Some (x, y) /\ 0 <= x <= 1 /\ 0 <= y <= 1 /\
    pointerMove vw vh b e s
    = set_rect s r
        (resizeRect_rect (Metrics.mk (N2Q vw) (N2Q vh)) (minWidthRatio s) h start (x, y)
           (get_rect s r)).
Proof.
  intros Hi Hw Hh Hbw Hbh.
  destruct (getPointerRatio_known b e Hbw Hbh) as (x & y & Hp & Hx & Hy).
  exists x, y. repeat split; try tauto.
  unfold pointerMove. rewrite Hi, Hp. unfold resizeRect.
  rewrite getVideoMetrics_known by assumption. reflexivity.
Qed.

Lemma pointerMove_move vw vh b e s r start pid ct :
  interaction s = Some (Move r start pid ct) ->
  truthy (DOMRect.width b) = true -> truthy (DOMRect.height b) = true ->
  pointerMove vw vh b e s = set_rect s r (move_rect b start e (get_rect s r)).
Proof.
  intros Hi Hbw Hbh. unfold pointerMove. rewrite Hi, Hbw, Hbh. reflexivity.
Qed.

(** *** The width range, for known metrics *)

Section WidthRange.

Variable m : Metrics.t.
Variable mwr : Q.
Hypothesis HW : 0 < Metrics.width m.

Let floor := minWidthPx_of mwr m.

(** The floor in pixels is positive and no wider than the frame. *)
Lemma minWidthPx_of_bounds :
  (2 # 100) * Metrics.width m <= floor <= Metrics.width m.
Proof.
  unfold floor, minWidthPx_of.
  assert (Hf : (2 # 100) <= Qmax (Qmin mwr 1) (2 # 100) <= 1) by minmax.
  set (f := Qmax (Qmin mwr 1) (2 # 100)) in *. clearbody f. nra.
Qed.

Lemma minWidthPx_of_pos : 0 < floor.
Proof. pose proof minWidthPx_of_bounds. lra. Qed.

(** The width [applyValues] keeps. *)
Lemma boundedWidthPx_bounds w :
  floor <= clamp w floor (Metrics.width m) <= Metrics.width m.
Proof. apply clamp_bounds. apply minWidthPx_of_bounds. Qed.

(** [computeWidthPx] already lies in the range [applyValues] clamps to. *)
Lemma computeWidthPx_bounds dx dy bound :
  floor <= computeWidthPx m floor dx dy bound <= maxWidthPx_of m floor bound /\
  maxWidthPx_of m floor bound <= Metrics.width m.
Proof.
  pose proof minWidthPx_of_bounds as Hm.
  unfold computeWidthPx, maxWidthPx_of. clearbody floor.
  split; [apply clamp_bounds|]; minmax.
Qed.

Lemma applyValues_idempotent_width dx dy bound :
  clamp (computeWidthPx m floor dx dy bound) floor (Metrics.width m)
  == computeWidthPx m floor dx dy bound.
Proof.
  destruct (computeWidthPx_bounds dx dy bound) as [H1 H2].
  apply clamp_id; lra.
Qed.

Lemma newWidthPx_of_bounds h start px py :
  let upper := maxWidthPx_of m floor (boundsWidthPx (arm m h start px py)) in
  floor <= newWidthPx_of m mwr h start px py <= upper /\ upper <= Metrics.width m.
Proof.
  intros upper. unfold newWidthPx_of. cbv zeta. apply computeWidthPx_bounds.
Qed.

End WidthRange.

(* ================================================================== *)
(** ** Initial sizing (C7) *)

(** C7: whenever the video metrics become known, both regions get
    [widthRatio = 1100 / videoWidth] and [heightRatio = 1000 / videoHeight],
    each dimension divided on its own; for a 1920x1080 video that is
    1100/1920 (about 0.5729) and 1000/1080 (about 0.9259), and the height is
    not the width divided by the aspect ratio. *)
Theorem initial_sizing_divides_each_dimension :
  (forall vw vh s r,
     vw <> 0%N -> vh <> 0%N ->
     Rect.widthRatio (get_rect (updateRectSizeFromVideo vw vh s) r)
       = TARGET_ASPECT.width / N2Q vw /\
     Rect.heightRatio (get_rect (updateRectSizeFromVideo vw vh s) r)
       = TARGET_ASPECT.height / N2Q vh) /\
  (forall s r,
     let rect := get_rect (dispatch env_1920x1080 LoadedMetadata s) r in
     Rect.widthRatio rect == 1100 # 1920 /\
     Rect.heightRatio rect == 1000 # 1080 /\
     (5729 # 10000) <= Rect.widthRatio rect < (5730 # 10000) /\
     (9259 # 10000) <= Rect.heightRatio rect < (9260 # 10000) /\
     ~ Rect.heightRatio rect == Rect.widthRatio rect / TARGET_ASPECT_RATIO).
Proof.
  split.
  - intros vw vh s r Hw Hh. rewrite get_rect_update by assumption.
    destruct (size_rect_fields (TARGET_ASPECT.width / N2Q vw)
                (TARGET_ASPECT.height / N2Q vh) (get_rect s r)) as (E1 & E2 & _).
    split; assumption.
  - intros s r rect. subst rect. simpl dispatch.
    rewrite get_rect_update by discriminate.
    destruct (size_rect_fields (TARGET_ASPECT.width / N2Q 1920)
                (TARGET_ASPECT.height / N2Q 1080) (get_rect s r)) as (E1 & E2 & _).
    rewrite E1, E2.
    repeat split; try reflexivity; vm_compute; discriminate.
Qed.

(** An instance: a 1280x720 video. *)
Lemma initial_sizing_divides_each_dimension_witness :
  Rect.widthRatio (get_rect (updateRectSizeFromVideo 1280 720 initial_state) Speaker2)
    = TARGET_ASPECT.width / N2Q 1280 /\
  Rect.heightRatio (get_rect (updateRectSizeFromVideo 1280 720 initial_state) Speaker2)
    = TARGET_ASPECT.height / N2Q 720.
Proof.
  apply (proj1 initial_sizing_divides_each_dimension 1280%N 720%N initial_state Speaker2);
    discriminate.
Defined.

(* ================================================================== *)
(** ** The aspect lock (C10, C1) *)

Lemma resize_rect_sizes m mwr h start p rect :
  0 < Metrics.width m -> 0 < Metrics.height m ->
  exists bw,
    minWidthPx_of mwr m <= bw <= Metrics.width m /\
    0 < bw /\
    Rect.widthRatio (resizeRect_rect m mwr h start p rect) = bw / Metrics.width m /\
    Rect.heightRatio (resizeRect_rect m mwr h start p rect)
      = bw / TARGET_ASPECT_RATIO / Metrics.height m.
Proof.
  intros HW HH. unfold resizeRect_rect, applyValues. cbv zeta.
  eexists. split; [apply boundedWidthPx_bounds; assumption|].
  split; [|split; reflexivity].
  eapply Qlt_le_trans; [apply (minWidthPx_of_pos m mwr HW)|].
  apply boundedWidthPx_bounds; assumption.
Qed.

(** C10: the lock the code keeps is in pixel space.  After the initial
    sizing and after every resize the quotient of the region's pixel width
    by its pixel height is exactly 1100/1000, whatever the shape of the
    video; a move leaves the quotient of every region as it was. *)
Theorem pixel_aspect_locked :
  (forall vw vh s r,
     vw <> 0%N -> vh <> 0%N ->
     pixel_aspect vw vh (get_rect (updateRectSizeFromVideo vw vh s) r)
       == TARGET_ASPECT_RATIO) /\
  (forall vw vh b e s r h start pid ct,
     interaction s = Some (Resize r h start pid ct) ->
     vw <> 0%N -> vh <> 0%N ->
     truthy (DOMRect.width b) = true -> truthy (DOMRect.height b) = true ->
     pixel_aspect vw vh (get_rect (pointerMove vw vh b e s) r) == TARGET_ASPECT_RATIO) /\
  (forall vw vh b e s r start pid ct r',
     interaction s = Some (Move r start pid ct) ->
     pixel_aspect vw vh (get_rect (pointerMove vw vh b e s) r')
       = pixel_aspect vw vh (get_rect s r')).
Proof.
  split; [|split].
  - intros vw vh s r Hw Hh. unfold pixel_aspect.
    rewrite get_rect_update by assumption.
    destruct (size_rect_fields (TARGET_ASPECT.width / N2Q vw)
                (TARGET_ASPECT.height / N2Q vh) (get_rect s r)) as (E1 & E2 & _).
    rewrite E1, E2.
    pose proof (N2Q_pos vw Hw). pose proof (N2Q_pos vh Hh).
    rewrite !div_mul_cancel by assumption. reflexivity.
  - intros vw vh b e s r h start pid ct Hi Hw Hh Hbw Hbh.
    destruct (pointerMove_resize vw vh b e s r h start pid ct Hi Hw Hh Hbw Hbh)
      as (x & y & _ & _ & _ & ->).
    rewrite get_set_same. unfold pixel_aspect.
    pose proof (N2Q_pos vw Hw) as HW. pose proof (N2Q_pos vh Hh) as HH.
    destruct (resize_rect_sizes (Metrics.mk (N2Q vw) (N2Q vh)) (minWidthRatio s) h start
                (x, y) (get_rect s r) HW HH) as (bw & _ & Hpos & -> & ->).
    simpl Metrics.width. simpl Metrics.height.
    rewrite !div_mul_cancel by assumption.
    rewrite TARGET_ASPECT_RATIO_value. field. lra.
  - intros vw vh b e s r start pid ct r' Hi.
    unfold pointerMove. rewrite Hi.
    destruct (negb (truthy (DOMRect.width b)) || negb (truthy (DOMRect.height b)))%bool;
      [reflexivity|].
    destruct r, r'; reflexivity.
Qed.

(** Instances: the sizing of a 1920x1080 video, a resize on a 3840x2160
    video and a move on a 1920x1080 video. *)
Lemma pixel_aspect_locked_witness :
  pixel_aspect 1920 1080 (get_rect (updateRectSizeFromVideo 1920 1080 initial_state) Speaker1)
    == TARGET_ASPECT_RATIO /\
  pixel_aspect 3840 2160
    (get_rect (pointerMove 3840 2160 bounds_4k (press_at 248 400) resizing_4k) Speaker1)
    == TARGET_ASPECT_RATIO /\
  pixel_aspect 1920 1080
    (get_rect (pointerMove 1920 1080 bounds_4k (press_at 196 100) moving_1920x1080) Speaker1)
    = pixel_aspect 1920 1080 (get_rect moving_1920x1080 Speaker1).
Proof.
  destruct pixel_aspect_locked as (Hinit & Hresize & Hmove).
  split; [apply Hinit; discriminate|].
  split.
  - apply (Hresize 3840%N 2160%N bounds_4k (press_at 248 400) resizing_4k Speaker1
             BottomRight start_4k 1%Z (HandleElement Speaker1 BottomRight));
      reflexivity || discriminate.
  - eapply Hmove. reflexivity.
Defined.

(** C1 as stated fails on a 1920x1080 video: the ratio-space quotient after
    the resize of [resize_trace_1920x1080] is 99/160 = 0.61875, more than
    0.48 away from the target 1.1. *)
Lemma ratio_aspect_off_target_1920x1080 :
  let rect := get_rect (run resize_trace_1920x1080 initial_state) Speaker1 in
  ratio_aspect rect == 99 # 160 /\
  ~ ratio_aspect rect == TARGET_ASPECT_RATIO /\
  (48 # 100) < Qabs (ratio_aspect rect - TARGET_ASPECT_RATIO).
Proof. vm_compute. repeat split; discriminate. Qed.

(** C1 (amended): after the initial sizing and after every completed resize
    the quotient [widthRatio / heightRatio] equals the target aspect ratio
    multiplied by [videoHeight / videoWidth]; it is the target ratio itself
    exactly when the video is square. *)
Theorem ratio_aspect_scaled_by_video_shape :
  (forall vw vh s r,
     vw <> 0%N -> vh <> 0%N ->
     ratio_aspect (get_rect (updateRectSizeFromVideo vw vh s) r)
       == TARGET_ASPECT_RATIO * N2Q vh / N2Q vw) /\
  (forall vw vh b e s r h start pid ct,
     interaction s = Some (Resize r h start pid ct) ->
     vw <> 0%N -> vh <> 0%N ->
     truthy (DOMRect.width b) = true -> truthy (DOMRect.height b) = true ->
     let rect := get_rect (pointerMove vw vh b e s) r in
     ratio_aspect rect == TARGET_ASPECT_RATIO * N2Q vh / N2Q vw /\
     (ratio_aspect rect == TARGET_ASPECT_RATIO <-> vw = vh)).
Proof.
  assert (Hshape : forall vw vh, vw <> 0%N -> vh <> 0%N ->
            (TARGET_ASPECT_RATIO * N2Q vh / N2Q vw == TARGET_ASPECT_RATIO <-> vw = vh)).
  { intros vw vh Hw Hh.
    pose proof (N2Q_pos vw Hw) as HW. pose proof (N2Q_pos vh Hh) as HH.
    rewrite TARGET_ASPECT_RATIO_value. split.
    - intros E.
      assert (E' : N2Q vh == N2Q vw).
      { assert (E2 : (1100 # 1000) * N2Q vh / N2Q vw * N2Q vw == (1100 # 1000) * N2Q vw)
          by (rewrite E; reflexivity).
        rewrite div_mul_cancel in E2 by assumption. clear E. lra. }
      unfold N2Q in E'. rewrite inject_Z_injective in E'. apply N2Z.inj. symmetry. exact E'.
    - intros ->. field. lra. }
  split.
  - intros vw vh s r Hw Hh. unfold ratio_aspect.
    rewrite get_rect_update by assumption.
    destruct (size_rect_fields (TARGET_ASPECT.width / N2Q vw)
                (TARGET_ASPECT.height / N2Q vh) (get_rect s r)) as (E1 & E2 & _).
    rewrite E1, E2.
    pose proof (N2Q_pos vw Hw). pose proof (N2Q_pos vh Hh).
    rewrite TARGET_ASPECT_RATIO_value.
    unfold TARGET_ASPECT.width, TARGET_ASPECT.height. field. split; lra.
  - intros vw vh b e s r h start pid ct Hi Hw Hh Hbw Hbh rect.
    assert (E : ratio_aspect rect == TARGET_ASPECT_RATIO * N2Q vh / N2Q vw).
    { subst rect.
      destruct (pointerMove_resize vw vh b e s r h start pid ct Hi Hw Hh Hbw Hbh)
        as (x & y & _ & _ & _ & ->).
      rewrite get_set_same. unfold ratio_aspect.
      pose proof (N2Q_pos vw Hw) as HW. pose proof (N2Q_pos vh Hh) as HH.
      destruct (resize_rect_sizes (Metrics.mk (N2Q vw) (N2Q vh)) (minWidthRatio s) h start
                  (x, y) (get_rect s r) HW HH) as (bw & _ & Hpos & -> & ->).
      simpl Metrics.width. simpl Metrics.height.
      rewrite TARGET_ASPECT_RATIO_value. field. repeat split; lra. }
    split; [exact E|]. rewrite E. apply Hshape; assumption.
Qed.

(** Instances: the sizing of a 1920x1080 video and a resize on a 3840x2160
    video, which is not square. *)
Lemma ratio_aspect_scaled_by_video_shape_witness :
  ratio_aspect (get_rect (updateRectSizeFromVideo 1920 1080 initial_state) Speaker1)
    == TARGET_ASPECT_RATIO * N2Q 1080 / N2Q 1920 /\
  (let rect := get_rect (pointerMove 3840 2160 bounds_4k (press_at 248 400) resizing_4k)
                 Speaker1 in
   ratio_aspect rect == TARGET_ASPECT_RATIO * N2Q 2160 / N2Q 3840 /\
   (ratio_aspect rect == TARGET_ASPECT_RATIO <-> 3840%N = 2160%N)).
Proof.
  destruct ratio_aspect_scaled_by_video_shape as (Hinit & Hresize).
  split; [apply Hinit; discriminate|].
  apply (Hresize 3840%N 2160%N bounds_4k (press_at 248 400) resizing_4k Speaker1
           BottomRight start_4k 1%Z (HandleElement Speaker1 BottomRight));
    reflexivity || discriminate.
Defined.

(* ================================================================== *)
(** ** The resize width (C4, C6) *)

(** The pixel width a resize leaves is the width [computeWidthPx] chose. *)
Lemma resize_width_px vw vh mwr h start x y rect :
  vw <> 0%N -> vh <> 0%N ->
  let m := Metrics.mk (N2Q vw) (N2Q vh) in
  width_px vw (resizeRect_rect m mwr h start (x, y) rect)
  == newWidthPx_of m mwr h start (x * N2Q vw) (y * N2Q vh).
Proof.
  intros Hw Hh m.
  pose proof (N2Q_pos vw Hw) as HW.
  unfold width_px, resizeRect_rect, applyValues, newWidthPx_of. cbv zeta.
  simpl Rect.widthRatio. simpl fst. simpl snd. simpl Metrics.width. simpl Metrics.height.
  rewrite div_mul_cancel by assumption.
  apply (applyValues_idempotent_width m mwr HW).
Qed.

Lemma truthy_of_nonzero x : ~ x == 0 -> truthy x = true.
Proof.
  intros Hx. unfold truthy. destruct (Qeq_bool x 0) eqn:E; [|reflexivity].
  apply Qeq_bool_iff in E. contradiction.
Qed.

Lemma clamp_nonempty v lo hi : lo <= hi -> clamp v lo hi = Qmin (Qmax v lo) hi.
Proof. intros Hle. unfold clamp. destruct (Qlt_le_dec hi lo); [lra | reflexivity]. Qed.

(** The arm [resizeRect] selects computes the distances and the bound the
    specification words. *)
Lemma arm_is_spec m h start px py :
  let a := arm m h start px py in
  (anchorX a, anchorY a) = anchor_of h start /\
  dxPx a = spec_horizontal_distance h (anchor_of h start) (px, py) /\
  dyPx a = spec_vertical_distance h (anchor_of h start) (px, py) /\
  boundsWidthPx a
  = spec_frame_edge_bound (Metrics.width m) (Metrics.height m) h (anchor_of h start).
Proof. destruct h; repeat split; reflexivity. Qed.

(** One resize step, in the words of the specification: the pixel width it
    leaves and the pixel height that goes with it. *)
Lemma resize_step_spec vw vh b e s r h start pid ct :
  interaction s = Some (Resize r h start pid ct) ->
  vw <> 0%N -> vh <> 0%N ->
  ~ DOMRect.width b == 0 -> ~ DOMRect.height b == 0 ->
  let W := N2Q vw in
  let H := N2Q vh in
  let anchor := anchor_of h start in
  let pointer := spec_pointer_px W H b e in
  let horizontal := spec_horizontal_distance h anchor pointer in
  let vertical := spec_vertical_distance h anchor pointer in
  let floor := Qmax (Qmin (minWidthRatio s) 1) (2 # 100) * W in
  let upper := Qmax (Qmin (spec_frame_edge_bound W H h anchor) W) floor in
  let rect := get_rect (pointerMove vw vh b e s) r in
  width_px vw rect
    == Qmin (Qmax (Qmin horizontal (vertical * (1100 # 1000))) floor) upper /\
  Rect.heightRatio rect * H == width_px vw rect * (1000 # 1100) /\
  0 < floor /\ floor <= upper /\ upper <= W.
Proof.
  intros Hi Hw Hh Hbw Hbh W H anchor pointer horizontal vertical floor upper rect.
  pose proof (N2Q_pos vw Hw) as HW. pose proof (N2Q_pos vh Hh) as HH.
  set (m := Metrics.mk (N2Q vw) (N2Q vh)).
  set (x := Qmin (Qmax ((PointerEvent.clientX e - DOMRect.left b) / DOMRect.width b) 0) 1).
  set (y := Qmin (Qmax ((PointerEvent.clientY e - DOMRect.top b) / DOMRect.height b) 0) 1).
  assert (Hp : getPointerRatio b e = Some (x, y)).
  { unfold getPointerRatio. rewrite !truthy_of_nonzero by assumption. reflexivity. }
  destruct (arm_is_spec m h start (x * N2Q vw) (y * N2Q vh)) as (_ & Edx & Edy & Ebd).
  pose proof (minWidthPx_of_bounds m (minWidthRatio s) HW) as Hfl.
  pose proof (minWidthPx_of_pos m (minWidthRatio s) HW) as Hfl0.
  destruct (computeWidthPx_bounds m (minWidthRatio s) HW
              (dxPx (arm m h start (x * N2Q vw) (y * N2Q vh)))
              (dyPx (arm m h start (x * N2Q vw) (y * N2Q vh)))
              (boundsWidthPx (arm m h start (x * N2Q vw) (y * N2Q vh)))) as [Hn Hu].
  assert (Efloor : minWidthPx_of (minWidthRatio s) m = floor) by reflexivity.
  assert (Eupper : maxWidthPx_of m (minWidthPx_of (minWidthRatio s) m)
                     (boundsWidthPx (arm m h start (x * N2Q vw) (y * N2Q vh))) = upper).
  { unfold maxWidthPx_of. rewrite Ebd, Efloor. reflexivity. }
  rewrite Eupper, Efloor in Hn. rewrite Eupper in Hu. rewrite Efloor in Hfl, Hfl0.
  assert (Ew : width_px vw rect
               == Qmin (Qmax (Qmin horizontal (vertical * (1100 # 1000))) floor) upper).
  { subst rect. unfold pointerMove. rewrite Hi, Hp. unfold resizeRect.
    rewrite getVideoMetrics_known by assumption. rewrite get_set_same.
    rewrite resize_width_px by assumption.
    unfold newWidthPx_of, computeWidthPx. cbv zeta. fold m.
    fold (maxWidthPx_of m (minWidthPx_of (minWidthRatio s) m)
            (boundsWidthPx (arm m h start (x * N2Q vw) (y * N2Q vh)))).
    rewrite Eupper, Efloor, Edx, Edy.
    rewrite clamp_candidate by lra.
    rewrite TARGET_ASPECT_RATIO_value.
    rewrite clamp_nonempty by lra. reflexivity. }
  split; [exact Ew|]. split; [|split; [exact Hfl0 | split; [lra | exact Hu]]].
  subst rect. unfold pointerMove. rewrite Hi, Hp. unfold resizeRect.
  rewrite getVideoMetrics_known by assumption. rewrite get_set_same.
  unfold width_px, resizeRect_rect, applyValues. cbv zeta. simpl.
  rewrite !div_TARGET_ASPECT_RATIO. unfold H, W. field. split; lra.
Qed.

(** C4: the width a resize step leaves, in pixels, is the smaller of the
    horizontal anchor-to-pointer distance and the vertical distance times
    the aspect ratio, then raised to the floor
    [max(min(minWidthRatio, 1), 0.02) * videoWidth] and lowered to the
    frame-edge bound; when the horizontal candidate is the smaller one the
    width is that candidate, limited the same way.  The anchor is the corner
    of the start rectangle opposite to the handle, the pointer the pointer
    position in video pixels. *)
Theorem resize_width_is_min_of_candidates :
  forall vw vh b e s r h start pid ct,
    interaction s = Some (Resize r h start pid ct) ->
    vw <> 0%N -> vh <> 0%N ->
    ~ DOMRect.width b == 0 -> ~ DOMRect.height b == 0 ->
    let W := N2Q vw in
    let H := N2Q vh in
    let anchor := anchor_of h start in
    let pointer := spec_pointer_px W H b e in
    let horizontal := spec_horizontal_distance h anchor pointer in
    let vertical := spec_vertical_distance h anchor pointer in
    let floor := Qmax (Qmin (minWidthRatio s) 1) (2 # 100) * W in
    let upper := Qmax (Qmin (spec_frame_edge_bound W H h anchor) W) floor in
    let rect := get_rect (pointerMove vw vh b e s) r in
    width_px vw rect
      == Qmin (Qmax (Qmin horizontal (vertical * (1100 # 1000))) floor) upper /\
    (horizontal <= vertical * (1100 # 1000) ->
     width_px vw rect == Qmin (Qmax horizontal floor) upper).
Proof.
  intros vw vh b e s r h start pid ct Hi Hw Hh Hbw Hbh
    W H anchor pointer horizontal vertical floor upper rect.
  destruct (resize_step_spec vw vh b e s r h start pid ct Hi Hw Hh Hbw Hbh)
    as (Ew & _).
  fold W H anchor pointer horizontal vertical floor upper rect in Ew.
  split; [exact Ew|].
  intros Hsmaller. rewrite Ew.
  destruct (Qmin_cases horizontal (vertical * (1100 # 1000))) as [[_ ->] | [Hlt _]];
    [reflexivity | lra].
Qed.

(** An instance: on the 3840x2160 video shown at 960x540 the pointer at
    overlay point (248, 400) is at video pixel (992, 1600), 800 pixels right
    of the anchor (192, 216) and 1384 below it; the horizontal candidate
    (800) is smaller than the vertical one (1522.4) and the width becomes
    800 pixels. *)
Lemma resize_width_is_min_of_candidates_witness :
  let rect := get_rect (pointerMove 3840 2160 bounds_4k (press_at 248 400) resizing_4k)
                Speaker1 in
  let anchor := anchor_of BottomRight start_4k in
  let pointer := spec_pointer_px (N2Q 3840) (N2Q 2160) bounds_4k (press_at 248 400) in
  fst anchor == 192 /\ snd anchor == 216 /\
  fst pointer == 992 /\ snd pointer == 1600 /\
  spec_horizontal_distance BottomRight anchor pointer == 800 /\
  spec_vertical_distance BottomRight anchor pointer == 1384 /\
  width_px 3840 rect == 800.
Proof.
  cbv zeta.
  do 6 (split; [reflexivity|]).
  assert (Hnz : forall q : Q, 0 < q -> ~ q == 0) by (intros q Hq E; rewrite E in Hq; discriminate Hq).
  pose proof (resize_width_is_min_of_candidates 3840%N 2160%N bounds_4k (press_at 248 400)
                resizing_4k Speaker1 BottomRight start_4k 1%Z
                (HandleElement Speaker1 BottomRight) eq_refl
                ltac:(discriminate) ltac:(discriminate)
                (Hnz 960 eq_refl) (Hnz 540 eq_refl)) as Hstep.
  cbv zeta in Hstep. destruct Hstep as [_ Hhorizontal].
  rewrite Hhorizontal; [reflexivity|].
  vm_compute. discriminate.
Defined.




(* ================================================================== *)
(** ** Containment (C3) *)

(** The position [applyValues] keeps along one axis: [size] is the extent
    kept on that axis and [room] the frame extent. *)
Lemma safe_position room size p :
  0 <= size ->
  let safe := clamp p 0 (Qmax (room - size) 0) in
  0 <= safe /\
  (size <= room -> safe + size <= room) /\
  (0 <= p -> p + size <= room -> safe == p).
Proof. intros Hs safe. subst safe. repeat split; intros; minmax. Qed.

Lemma arm_bound_vertical m h start px py :
  0 <= ResizeStart.topPx start ->
  ResizeStart.topPx start + ResizeStart.heightPx start <= Metrics.height m ->
  boundsWidthPx (arm m h start px py) <= Metrics.height m * TARGET_ASPECT_RATIO.
Proof.
  intros H0 H1.
  destruct h; unfold arm; cbv zeta; cbn [boundsWidthPx];
    rewrite !TARGET_ASPECT_RATIO_value; minmax.
Qed.

Lemma size_rect_contained cw ch rect :
  cw <= 1 -> ch <= 1 -> contained (size_rect cw ch rect).
Proof.
  intros Hw Hh.
  destruct (size_rect_fields cw ch rect) as (E1 & E2 & l & t & El & Et).
  exists (clamp l 0 (1 - cw)), (clamp t 0 (1 - ch)).
  rewrite E1, E2. repeat split; try assumption; minmax.
Qed.

Lemma move_rect_contained b start e rect :
  Rect.widthRatio rect <= 1 -> Rect.heightRatio rect <= 1 ->
  contained (move_rect b start e rect).
Proof.
  intros Hw Hh. unfold move_rect. eexists _, _. simpl.
  repeat split; try reflexivity; minmax.
Qed.

(** A resize always keeps the region inside the frame horizontally and
    below its top edge; it keeps it above the bottom edge when the width it
    applies is no more than the frame height allows. *)
Lemma resize_rect_contained m mwr h start p rect :
  0 < Metrics.width m -> 0 < Metrics.height m ->
  0 <= ResizeStart.topPx start ->
  ResizeStart.topPx start + ResizeStart.heightPx start <= Metrics.height m ->
  minWidthPx_of mwr m <= Metrics.height m * TARGET_ASPECT_RATIO ->
  contained (resizeRect_rect m mwr h start p rect).
Proof.
  intros HW HH Ht0 Ht1 Hfloor.
  unfold resizeRect_rect. cbv zeta.
  set (px := fst p * Metrics.width m). set (py := snd p * Metrics.height m).
  set (a := arm m h start px py).
  pose proof (arm_bound_vertical m h start px py Ht0 Ht1) as Hb. fold a in Hb.
  destruct (newWidthPx_of_bounds m mwr HW h start px py) as [Hn Hu].
  unfold newWidthPx_of in Hn. cbv zeta in Hn. fold a in Hn, Hu.
  set (nw := computeWidthPx m (minWidthPx_of mwr m) (dxPx a) (dyPx a) (boundsWidthPx a)) in *.
  pose proof (minWidthPx_of_bounds m mwr HW) as Hf.
  assert (Hnw : nw <= Metrics.height m * TARGET_ASPECT_RATIO).
  { unfold maxWidthPx_of in Hn. revert Hn. minmax. }
  unfold applyValues. cbv zeta.
  set (bw := clamp nw (minWidthPx_of mwr m) (Metrics.width m)).
  assert (Hbw : minWidthPx_of mwr m <= bw <= Metrics.width m)
    by (apply clamp_bounds; lra).
  assert (Ebw : bw == nw) by (apply clamp_id; lra).
  assert (Hhp : 0 <= bw / TARGET_ASPECT_RATIO <= Metrics.height m).
  { rewrite div_TARGET_ASPECT_RATIO. rewrite TARGET_ASPECT_RATIO_value in Hnw. lra. }
  destruct (safe_position (Metrics.width m) bw (newLeftPx h a nw)) as (L0 & L1 & _);
    [lra|].
  destruct (safe_position (Metrics.height m) (bw / TARGET_ASPECT_RATIO) (newTopPx h a nw))
    as (T0 & T1 & _); [lra|].
  eexists _, _. simpl.
  split; [reflexivity|]. split; [reflexivity|].
  split; [apply div_nonneg; assumption|].
  split; [apply div_nonneg; assumption|].
  split; apply div_sum_le_1; try assumption.
  - apply L1. lra.
  - apply T1. lra.
Qed.

Lemma or_else_truthy a b : ~ a == 0 -> or_else a b = a.
Proof.
  intros Ha. unfold or_else, truthy.
  destruct (Qeq_bool a 0) eqn:E; [|reflexivity].
  apply Qeq_bool_iff in E. contradiction.
Qed.

Lemma crop_le_1 target v :
  (target <= v)%N -> v <> 0%N -> N2Q target / N2Q v <= 1.
Proof.
  intros Hle Hv. apply div_le_1; [apply N2Q_pos; assumption | apply N2Q_le; assumption].
Qed.

(** The floor recomputed at a metrics change fits the frame height. *)
Lemma floor_fits vw vh :
  (1100 <= vw)%N -> (1000 <= vh)%N -> (vw <= 55 * vh)%N ->
  minWidthPx_of (minWidthRatio_of (TARGET_ASPECT.width / N2Q vw))
    (Metrics.mk (N2Q vw) (N2Q vh))
  <= N2Q vh * TARGET_ASPECT_RATIO.
Proof.
  intros H1 H2 H3.
  assert (HW : 0 < N2Q vw) by (apply N2Q_pos; lia).
  assert (HH : N2Q 1000 <= N2Q vh) by (apply N2Q_le; assumption).
  assert (HWH : N2Q vw <= N2Q (55 * vh)) by (apply N2Q_le; assumption).
  assert (E55 : N2Q (55 * vh) == 55 * N2Q vh).
  { unfold N2Q. rewrite N2Z.inj_mul, inject_Z_mult. reflexivity. }
  rewrite E55 in HWH. change (N2Q 1000) with 1000 in HH.
  unfold minWidthPx_of. simpl Metrics.width.
  set (cw := TARGET_ASPECT.width / N2Q vw).
  assert (Hcw : cw * N2Q vw == 1100) by (apply div_mul_cancel; assumption).
  assert (Hcw0 : 0 < cw).
  { unfold cw, TARGET_ASPECT.width. apply Qlt_shift_div_l; lra. }
  unfold minWidthRatio_of. rewrite or_else_truthy by lra.
  assert (Hf : Qmax (Qmin (Qmin (Qmax (cw * (1 # 2)) (3 # 100)) cw) 1) (2 # 100)
               <= Qmax cw (2 # 100)) by minmax.
  eapply Qle_trans; [apply Qmult_le_compat_r; [exact Hf | lra]|].
  rewrite TARGET_ASPECT_RATIO_value.
  destruct (Qmax_cases cw (2 # 100)) as [[_ ->] | [_ ->]]; lra.
Qed.

Lemma contained_sizes rect :
  contained rect -> Rect.widthRatio rect <= 1 /\ Rect.heightRatio rect <= 1.
Proof. intros (l & t & _ & _ & ? & ? & ? & ?). split; lra. Qed.

Lemma contained_positioned rect :
  contained rect ->
  exists l t, positioned rect = Some (l, t) /\
              0 <= l /\ 0 <= t /\
              l + Rect.widthRatio rect <= 1 /\ t + Rect.heightRatio rect <= 1.
Proof.
  intros (l & t & El & Et & H). exists l, t. unfold positioned. rewrite El, Et. tauto.
Qed.

Lemma contained_set_rect s r v :
  contained v -> (forall r', contained (get_rect s r')) ->
  forall r', contained (get_rect (set_rect s r v) r').
Proof. intros Hv Hall r'. destruct r, r'; simpl; auto; apply (Hall Speaker1) || apply (Hall Speaker2). Qed.

Lemma in_frame_inv_step vw vh env ev s :
  (1100 <= vw)%N -> (1000 <= vh)%N -> (vw <= 55 * vh)%N ->
  videoWidth env = vw -> videoHeight env = vh ->
  in_frame_inv vw vh s -> in_frame_inv vw vh (dispatch env ev s).
Proof.
  intros H1 H2 H3 Ew Eh Hinv.
  assert (Hw : vw <> 0%N) by lia. assert (Hh : vh <> 0%N) by lia.
  pose proof (N2Q_pos vw Hw) as HW. pose proof (N2Q_pos vh Hh) as HH.
  assert (Hupdate : forall s0,
            (forall r h start pid ct,
               interaction s0 = Some (Resize r h start pid ct) ->
               0 <= ResizeStart.topPx start /\
               ResizeStart.topPx start + ResizeStart.heightPx start <= N2Q vh) ->
            in_frame_inv vw vh (updateRectSizeFromVideo vw vh s0)).
  { intros s0 Hstart. right.
    rewrite updateRectSizeFromVideo_known by assumption. simpl.
    split; [|split].
    - intros r.
      assert (Hc : forall rect,
                contained (size_rect (TARGET_ASPECT.width / N2Q vw)
                             (TARGET_ASPECT.height / N2Q vh) rect)).
      { intros rect. apply size_rect_contained.
        - apply (crop_le_1 1100 vw); assumption.
        - apply (crop_le_1 1000 vh); assumption. }
      destruct r; apply Hc.
    - apply floor_fits; assumption.
    - exact Hstart. }
  destruct ev; simpl dispatch; rewrite ?Ew, ?Eh.
  - (* loadedmetadata *)
    apply Hupdate.
    destruct Hinv as [(_ & _ & Hi) | (_ & _ & Hstart)]; [|exact Hstart].
    intros r h start pid ct E. rewrite Hi in E. discriminate.
  - (* press on a rectangle *)
    destruct Hinv as [(P1 & P2 & Hi) | (Hc & Hf & Hstart)].
    + left. unfold pointerDown.
      replace (positioned (get_rect s r)) with (@None (Q * Q)) by (destruct r; auto).
      auto.
    + right. unfold pointerDown.
      destruct (positioned (get_rect s r)) as [[l t]|]; [|auto].
      simpl. split; [exact Hc|]. split; [exact Hf|]. discriminate.
  - (* press on a handle *)
    destruct Hinv as [(P1 & P2 & Hi) | (Hc & Hf & Hstart)].
    + left. unfold pointerDown.
      replace (positioned (get_rect s r)) with (@None (Q * Q)) by (destruct r; auto).
      auto.
    + right.
      destruct (contained_positioned _ (Hc r)) as (l & t & Ep & Hl & Ht & Hlw & Hth).
      rewrite Ep. rewrite getVideoMetrics_known by assumption.
      unfold pointerDownResize. rewrite Ep. rewrite getVideoMetrics_known by assumption.
      simpl. split; [exact Hc|]. split; [exact Hf|].
      intros r0 h0 start pid ct E. inversion E; subst. simpl.
      set (hr := Rect.heightRatio (get_rect s r0)) in *. clearbody hr.
      split; nra.
  - (* pointer move *)
    pose proof Hinv as Hsame.
    destruct Hinv as [(P1 & P2 & Hi) | (Hc & Hf & Hstart)].
    + unfold pointerMove. rewrite Hi. exact Hsame.
    + unfold pointerMove.
      destruct (interaction s) as [[r start pid ct | r h start pid ct]|] eqn:Ei;
        [| |exact Hsame].
      * destruct (negb (truthy (DOMRect.width (bounds env)))
                  || negb (truthy (DOMRect.height (bounds env))))%bool; [exact Hsame|].
        right. split; [|split].
        -- apply contained_set_rect; [|exact Hc].
           destruct (contained_sizes _ (Hc r)). apply move_rect_contained; assumption.
        -- rewrite minWidthRatio_set_rect. exact Hf.
        -- intros r0 h0 start0 pid0 ct0. rewrite interaction_set_rect, Ei. discriminate.
      * destruct (getPointerRatio (bounds env) e) as [p|]; [|exact Hsame].
        unfold resizeRect. rewrite getVideoMetrics_known by assumption.
        right. split; [|split].
        -- apply contained_set_rect; [|exact Hc].
           destruct (Hstart r h start pid ct eq_refl) as [Ht0 Ht1].
           apply resize_rect_contained; assumption.
        -- rewrite minWidthRatio_set_rect. exact Hf.
        -- intros r0 h0 start0 pid0 ct0. rewrite interaction_set_rect, Ei. apply Hstart.
  - (* pointer up *)
    destruct Hinv as [(P1 & P2 & Hi) | (Hc & Hf & Hstart)];
      [left; auto | right; simpl; repeat split; auto; discriminate].
  - (* pointer cancel *)
    destruct Hinv as [(P1 & P2 & Hi) | (Hc & Hf & Hstart)];
      [left; auto | right; simpl; repeat split; auto; discriminate].
Qed.

Lemma in_frame_inv_run vw vh trace s :
  (1100 <= vw)%N -> (1000 <= vh)%N -> (vw <= 55 * vh)%N ->
  fixed_video vw vh trace ->
  in_frame_inv vw vh s -> in_frame_inv vw vh (run trace s).
Proof.
  intros H1 H2 H3 Hfix. revert s.
  induction Hfix as [|[env ev] trace [Ew Eh] _ IH]; intros s Hinv; [exact Hinv|].
  unfold run. simpl. apply IH.
  apply in_frame_inv_step; assumption.
Qed.

(** C3 as stated fails on a 1280x720 video: the initial sizing gives the
    first region a height ratio of 1000/720 = 25/18, so its bottom edge is
    below the frame. *)
Lemma initial_sizing_overflows_1280x720 :
  let rect := get_rect (run [(env_1280x720, LoadedMetadata)] initial_state) Speaker1 in
  Rect.top rect = Some 0 /\
  Rect.heightRatio rect == 25 # 18 /\
  ~ contained rect.
Proof.
  cbv zeta. split; [reflexivity|]. split; [reflexivity|].
  intros (l & t & _ & Et & _ & _ & _ & Hb).
  vm_compute in Et. injection Et as <-. vm_compute in Hb. apply Hb. reflexivity.
Qed.

(** C3 (amended): in exact arithmetic, for a video at least 1100 pixels
    wide and 1000 pixels high, and no wider than 55 times its height, every
    state reached from the initial one by metadata, pointer-down,
    pointer-move and pointer-up events has each positioned region fully
    inside the frame: [0 <= left], [0 <= top], [left + widthRatio <= 1] and
    [top + heightRatio <= 1].  (The numbers here are exact rationals; the
    doubles of the script round, and a sum that is exactly 1 here can come
    out one unit in the last place above 1 there.) *)
Theorem regions_stay_in_frame :
  forall vw vh trace r,
    (1100 <= vw)%N -> (1000 <= vh)%N -> (vw <= 55 * vh)%N ->
    fixed_video vw vh trace ->
    let rect := get_rect (run trace initial_state) r in
    positioned rect = None \/ contained rect.
Proof.
  intros vw vh trace r H1 H2 H3 Hfix rect.
  assert (Hinv : in_frame_inv vw vh (run trace initial_state)).
  { apply in_frame_inv_run; try assumption. left. repeat split; reflexivity. }
  subst rect. destruct Hinv as [(P1 & P2 & _) | (Hc & _ & _)].
  - left. destruct r; assumption.
  - right. apply Hc.
Qed.

(** An instance: the resize trace on the 1920x1080 video. *)
Lemma regions_stay_in_frame_witness :
  positioned (get_rect (run resize_trace_1920x1080 initial_state) Speaker1) = None \/
  contained (get_rect (run resize_trace_1920x1080 initial_state) Speaker1).
Proof.
  apply (regions_stay_in_frame 1920%N 1080%N resize_trace_1920x1080 Speaker1).
  - vm_compute. discriminate.
  - vm_compute. discriminate.
  - vm_compute. discriminate.
  - repeat constructor.
Defined.

(* ================================================================== *)
(** ** The anchor corner (C5) *)

(** When the start rectangle is inside the frame and no smaller than the
    floor, the frame-edge bound of the arm is at least the floor and keeps
    the resized rectangle between the anchor and the frame edges. *)
Lemma arm_bound_room m h start px py floor :
  start_in_frame m start ->
  floor <= ResizeStart.widthPx start ->
  floor <= ResizeStart.heightPx start * TARGET_ASPECT_RATIO ->
  let a := arm m h start px py in
  floor <= boundsWidthPx a /\
  boundsWidthPx a <= Metrics.width m /\
  0 <= anchorX a <= Metrics.width m /\
  0 <= anchorY a <= Metrics.height m /\
  match h with
  | TopLeft =>
      boundsWidthPx a <= anchorX a /\ boundsWidthPx a <= anchorY a * TARGET_ASPECT_RATIO
  | TopRight =>
      boundsWidthPx a <= Metrics.width m - anchorX a /\
      boundsWidthPx a <= anchorY a * TARGET_ASPECT_RATIO
  | BottomLeft =>
      boundsWidthPx a <= anchorX a /\
      boundsWidthPx a <= (Metrics.height m - anchorY a) * TARGET_ASPECT_RATIO
  | BottomRight =>
      boundsWidthPx a <= Metrics.width m - anchorX a /\
      boundsWidthPx a <= (Metrics.height m - anchorY a) * TARGET_ASPECT_RATIO
  end.
Proof.
  intros (Hl & Ht & Hw & Hh & Hr & Hb) Hfw Hfh a. subst a.
  destruct h; unfold arm; cbv zeta; cbn [boundsWidthPx anchorX anchorY];
    rewrite !TARGET_ASPECT_RATIO_value in *; repeat split; minmax.
Qed.

Lemma resize_keeps_anchor_px m mwr h start px py :
  0 < Metrics.width m -> 0 < Metrics.height m ->
  start_in_frame m start ->
  minWidthPx_of mwr m <= ResizeStart.widthPx start ->
  minWidthPx_of mwr m <= ResizeStart.heightPx start * TARGET_ASPECT_RATIO ->
  let floor := minWidthPx_of mwr m in
  let a := arm m h start px py in
  let nw := computeWidthPx m floor (dxPx a) (dyPx a) (boundsWidthPx a) in
  let bw := clamp nw floor (Metrics.width m) in
  let hp := bw / TARGET_ASPECT_RATIO in
  let sl := clamp (newLeftPx h a nw) 0 (Qmax (Metrics.width m - bw) 0) in
  let st := clamp (newTopPx h a nw) 0 (Qmax (Metrics.height m - hp) 0) in
  match h with TopLeft | BottomLeft => sl + bw | _ => sl end == anchorX a /\
  match h with TopLeft | TopRight => st + hp | _ => st end == anchorY a.
Proof.
  intros HW HH Hin Hfw Hfh floor a nw bw hp sl st.
  pose proof (arm_bound_room m h start px py floor Hin Hfw Hfh) as Hroom.
  cbv zeta in Hroom. fold a in Hroom.
  destruct Hroom as (Hfb & HbW & HaX & HaY & Hside).
  destruct (computeWidthPx_bounds m mwr HW (dxPx a) (dyPx a) (boundsWidthPx a))
    as [Hn _].
  fold floor in Hn. fold nw in Hn.
  pose proof (minWidthPx_of_bounds m mwr HW) as Hfl. fold floor in Hfl.
  assert (Hnb : nw <= boundsWidthPx a).
  { unfold maxWidthPx_of in Hn. revert Hn. minmax. }
  assert (Ebw : bw == nw) by (apply clamp_id; lra).
  assert (Ehp : hp == nw * (1000 # 1100)).
  { unfold hp. rewrite div_TARGET_ASPECT_RATIO. rewrite Ebw. reflexivity. }
  assert (Hbw0 : 0 <= bw) by lra.
  assert (Hhp0 : 0 <= hp) by lra.
  destruct (safe_position (Metrics.width m) bw (newLeftPx h a nw) Hbw0) as (_ & _ & EL).
  destruct (safe_position (Metrics.height m) hp (newTopPx h a nw) Hhp0) as (_ & _ & ET).
  fold sl in EL. fold st in ET.
  clearbody sl st bw hp nw. clear Hn.
  rewrite TARGET_ASPECT_RATIO_value in Hside.
  destruct h; unfold newLeftPx, newTopPx in EL, ET;
    rewrite ?div_TARGET_ASPECT_RATIO in ET;
    destruct Hside as [Hs1 Hs2];
    (split; [rewrite EL by lra | rewrite ET by lra]; lra).
Qed.

(** With the anchor inside the frame and the floor no larger than the
    frame-edge bound, the pixel geometry [applyValues] computes keeps the
    anchor. *)
Lemma anchor_kept_px m mwr h start px py :
  0 < Metrics.width m -> 0 < Metrics.height m ->
  let floor := minWidthPx_of mwr m in
  let a := arm m h start px py in
  let nw := computeWidthPx m floor (dxPx a) (dyPx a) (boundsWidthPx a) in
  let bw := clamp nw floor (Metrics.width m) in
  let hp := bw / TARGET_ASPECT_RATIO in
  let sl := clamp (newLeftPx h a nw) 0 (Qmax (Metrics.width m - bw) 0) in
  let st := clamp (newTopPx h a nw) 0 (Qmax (Metrics.height m - hp) 0) in
  let cx := match h with TopLeft | BottomLeft => sl + bw | _ => sl end in
  let cy := match h with TopLeft | TopRight => st + hp | _ => st end in
  0 <= anchorX a <= Metrics.width m -> 0 <= anchorY a <= Metrics.height m ->
  floor <= boundsWidthPx a ->
  cx == anchorX a /\ cy == anchorY a.
Proof.
  intros HW HH floor a nw bw hp sl st cx cy.
  destruct (computeWidthPx_bounds m mwr HW (dxPx a) (dyPx a) (boundsWidthPx a))
    as [Hn _].
  fold floor in Hn. fold nw in Hn.
  pose proof (minWidthPx_of_bounds m mwr HW) as Hfl. fold floor in Hfl.
  assert (Ebw : bw == nw).
  { apply clamp_id; [lra|]. unfold maxWidthPx_of in Hn. revert Hn. minmax. }
  assert (Ehp : hp == nw * (1000 # 1100)).
  { unfold hp. rewrite div_TARGET_ASPECT_RATIO. rewrite Ebw. reflexivity. }
  assert (Hbw0 : 0 <= bw) by lra.
  assert (Hhp0 : 0 <= hp) by lra.
  destruct (arm_is_spec m h start px py) as (_ & _ & _ & Ebd). fold a in Ebd.
  assert (Hside :
    match h with
    | TopLeft =>
        boundsWidthPx a = Qmin (anchorX a) (anchorY a * (1100 # 1000))
    | TopRight =>
        boundsWidthPx a = Qmin (Metrics.width m - anchorX a) (anchorY a * (1100 # 1000))
    | BottomLeft =>
        boundsWidthPx a = Qmin (anchorX a) ((Metrics.height m - anchorY a) * (1100 # 1000))
    | BottomRight =>
        boundsWidthPx a
        = Qmin (Metrics.width m - anchorX a)
            ((Metrics.height m - anchorY a) * (1100 # 1000))
    end) by (destruct h; reflexivity).
  assert (Enl : newLeftPx h a nw
                = match h with TopLeft | BottomLeft => anchorX a - nw | _ => anchorX a end)
    by (destruct h; reflexivity).
  assert (Ent : newTopPx h a nw
                = match h with
                  | TopLeft | TopRight => anchorY a - nw * (1000 # 1100)
                  | _ => anchorY a
                  end)
    by (destruct h; reflexivity).
  unfold maxWidthPx_of in Hn.
  subst cx cy. unfold sl, st. rewrite Enl, Ent.
  set (ax := anchorX a) in *. set (ay := anchorY a) in *.
  set (bd := boundsWidthPx a) in *.
  set (W := Metrics.width m) in *. set (H := Metrics.height m) in *.
  clearbody ax ay bd W H bw hp nw floor. clear Ebd Enl Ent sl st.
  intros Hax Hay Hfb.
  assert (Hnb : nw <= bd) by (revert Hn; minmax).
  clear Hn.
  destruct h; rewrite Hside in Hnb, Hfb; clear Hside; split; minmax.
Qed.

(** What keeping the anchor says of the clamps of [applyValues], for a
    handle on the right (the anchor is the left edge), on the left, at the
    bottom and at the top. *)
Lemma kept_right W nw floor ax :
  0 < floor -> floor <= nw <= W ->
  clamp ax 0 (Qmax (W - clamp nw floor W) 0) == ax ->
  0 <= ax /\ nw <= W - ax.
Proof. intros. minmax. Qed.

Lemma kept_left W nw floor ax :
  0 < floor -> floor <= nw <= W ->
  clamp (ax - nw) 0 (Qmax (W - clamp nw floor W) 0) + clamp nw floor W == ax ->
  nw <= ax /\ ax <= W.
Proof. intros. minmax. Qed.

Lemma kept_bottom W H nw floor ay :
  0 < floor -> floor <= nw <= W -> nw * (1000 # 1100) <= H ->
  clamp ay 0 (Qmax (H - clamp nw floor W / TARGET_ASPECT_RATIO) 0) == ay ->
  0 <= ay /\ nw <= (H - ay) * (1100 # 1000).
Proof. intros H0 H1 H2. rewrite !div_TARGET_ASPECT_RATIO. intros. minmax. Qed.

Lemma kept_top W H nw floor ay :
  0 < floor -> floor <= nw <= W -> nw * (1000 # 1100) <= H ->
  clamp (ay - nw / TARGET_ASPECT_RATIO) 0
    (Qmax (H - clamp nw floor W / TARGET_ASPECT_RATIO) 0)
  + clamp nw floor W / TARGET_ASPECT_RATIO == ay ->
  nw <= ay * (1100 # 1000) /\ ay <= H.
Proof. intros H0 H1 H2. rewrite !div_TARGET_ASPECT_RATIO. intros. minmax. Qed.

(** A pointer on the far side of the anchor gives the floor width. *)
Lemma computeWidthPx_behind m mwr dx dy bound :
  0 < Metrics.width m -> dx <= 0 ->
  computeWidthPx m (minWidthPx_of mwr m) dx dy bound == minWidthPx_of mwr m.
Proof.
  intros HW Hdx.
  pose proof (minWidthPx_of_pos m mwr HW) as Hfl.
  unfold computeWidthPx. cbv zeta.
  set (floor := minWidthPx_of mwr m) in *. clearbody floor.
  rewrite TARGET_ASPECT_RATIO_value. minmax.
Qed.

(** Conversely, when the floor height fits the frame: if the pixel geometry
    [applyValues] computes keeps the anchor for a pointer on the frame edge
    behind the anchor, the anchor is inside the frame and the floor is no
    larger than the frame-edge bound. *)
Lemma anchor_kept_only_px m mwr h start px py :
  0 < Metrics.width m -> 0 < Metrics.height m ->
  let floor := minWidthPx_of mwr m in
  let a := arm m h start px py in
  let nw := computeWidthPx m floor (dxPx a) (dyPx a) (boundsWidthPx a) in
  let bw := clamp nw floor (Metrics.width m) in
  let hp := bw / TARGET_ASPECT_RATIO in
  let sl := clamp (newLeftPx h a nw) 0 (Qmax (Metrics.width m - bw) 0) in
  let st := clamp (newTopPx h a nw) 0 (Qmax (Metrics.height m - hp) 0) in
  let cx := match h with TopLeft | BottomLeft => sl + bw | _ => sl end in
  let cy := match h with TopLeft | TopRight => st + hp | _ => st end in
  floor * (1000 # 1100) <= Metrics.height m ->
  px == match h with TopLeft | BottomLeft => Metrics.width m | _ => 0 end ->
  cx == anchorX a -> cy == anchorY a ->
  0 <= anchorX a <= Metrics.width m /\ 0 <= anchorY a <= Metrics.height m /\
  floor <= boundsWidthPx a.
Proof.
  intros HW HH floor a nw bw hp sl st cx cy Hfits Hpx Hcx Hcy.
  destruct (computeWidthPx_bounds m mwr HW (dxPx a) (dyPx a) (boundsWidthPx a))
    as [Hn Hu].
  fold floor in Hn, Hu. fold nw in Hn.
  pose proof (minWidthPx_of_pos m mwr HW) as Hfl. fold floor in Hfl.
  assert (Hnw : floor <= nw <= Metrics.width m) by lra.
  destruct (arm_is_spec m h start px py) as (Ea & Edx & _ & Ebd).
  fold a in Ea, Edx, Ebd.
  assert (Hhor : 0 <= anchorX a <= Metrics.width m /\
                 floor <= match h with
                          | TopLeft | BottomLeft => anchorX a
                          | _ => Metrics.width m - anchorX a
                          end).
  { subst cx sl bw.
    destruct h; cbn [newLeftPx] in Hcx;
      [ destruct (kept_left _ _ _ _ Hfl Hnw Hcx)
      | destruct (kept_right _ _ _ _ Hfl Hnw Hcx)
      | destruct (kept_left _ _ _ _ Hfl Hnw Hcx)
      | destruct (kept_right _ _ _ _ Hfl Hnw Hcx) ]; lra. }
  assert (Hdx : dxPx a <= 0).
  { rewrite Edx. rewrite <- Ea. destruct h; cbn [spec_horizontal_distance fst];
      rewrite Hpx; lra. }
  assert (Enw : nw == floor) by (apply computeWidthPx_behind; assumption).
  assert (Hnh : nw * (1000 # 1100) <= Metrics.height m) by (rewrite Enw; exact Hfits).
  assert (Hver : 0 <= anchorY a <= Metrics.height m /\
                 floor <= match h with
                          | TopLeft | TopRight => anchorY a
                          | _ => Metrics.height m - anchorY a
                          end * (1100 # 1000)).
  { subst cy st hp bw.
    destruct h; cbn [newTopPx] in Hcy;
      [ destruct (kept_top _ _ _ _ _ Hfl Hnw Hnh Hcy)
      | destruct (kept_top _ _ _ _ _ Hfl Hnw Hnh Hcy)
      | destruct (kept_bottom _ _ _ _ _ Hfl Hnw Hnh Hcy)
      | destruct (kept_bottom _ _ _ _ _ Hfl Hnw Hnh Hcy) ]; lra. }
  split; [tauto|]. split; [tauto|].
  rewrite Ebd. rewrite <- Ea. unfold spec_frame_edge_bound. cbn [fst snd].
  destruct Hhor as [_ Hh]. destruct Hver as [_ Hv].
  apply Q.min_glb; assumption.
Qed.

(** C5 as stated fails on a 1280x720 video: the first region is 1000
    pixels high after the initial sizing, so the corner opposite to its
    top-left handle is at pixel (1164, 1000), below the frame; the first
    pointer move of a resize from that handle brings the corner to
    (1164, 720). *)
Lemma anchor_moves_1280x720 :
  let m := Metrics.mk (N2Q 1280) (N2Q 720) in
  let pressed := run [ (env_1280x720, LoadedMetadata);
                       (env_1280x720, PointerDownHandle Speaker1 TopLeft (press_at 32 0)) ]
                   initial_state in
  let moved := dispatch env_1280x720 (PointerMoved (press_at 320 180)) pressed in
  exists start pid ct before after,
    interaction pressed = Some (Resize Speaker1 TopLeft start pid ct) /\
    opposite_corner_px m TopLeft (get_rect pressed Speaker1) = Some before /\
    opposite_corner_px m TopLeft (get_rect moved Speaker1) = Some after /\
    snd (anchor_of TopLeft start) == 1000 /\
    snd before == 1000 /\ snd after == 720 /\
    ~ snd after == snd (anchor_of TopLeft start).
Proof.
  cbv zeta. eexists _, _, _, _, _.
  split; [reflexivity|]. split; [reflexivity|]. split; [reflexivity|].
  vm_compute. repeat split; discriminate.
Qed.

(** The corner opposite to the handle after [resizeRect], in the pixel
    values [applyValues] computes. *)
Lemma resize_corner_px m mwr h start p rect :
  0 < Metrics.width m -> 0 < Metrics.height m ->
  let floor := minWidthPx_of mwr m in
  let a := arm m h start (fst p * Metrics.width m) (snd p * Metrics.height m) in
  let nw := computeWidthPx m floor (dxPx a) (dyPx a) (boundsWidthPx a) in
  let bw := clamp nw floor (Metrics.width m) in
  let hp := bw / TARGET_ASPECT_RATIO in
  let sl := clamp (newLeftPx h a nw) 0 (Qmax (Metrics.width m - bw) 0) in
  let st := clamp (newTopPx h a nw) 0 (Qmax (Metrics.height m - hp) 0) in
  let cx := match h with TopLeft | BottomLeft => sl + bw | _ => sl end in
  let cy := match h with TopLeft | TopRight => st + hp | _ => st end in
  exists ox oy,
    opposite_corner_px m h (resizeRect_rect m mwr h start p rect) = Some (ox, oy) /\
    ox == cx /\ oy == cy.
Proof.
  intros HW HH floor a nw bw hp sl st cx cy.
  unfold opposite_corner_px, positioned, resizeRect_rect, applyValues. cbv zeta.
  cbn [Rect.left Rect.top Rect.widthRatio Rect.heightRatio].
  fold floor. fold a. fold nw. fold bw. fold hp. fold sl. fold st.
  subst cx cy. clearbody sl st bw hp.
  destruct h; (eexists _, _; split; [reflexivity|]); split; field; lra.
Qed.

(** C5 (amended): when the anchor, the corner opposite to the dragged
    handle of the rectangle recorded at the start of the resize, lies inside
    the current frame, and the floor [max(min(minWidthRatio, 1), 0.02) *
    videoWidth] is no larger than the frame-edge bound at that anchor, every
    pointer move of the resize leaves the corner opposite to the handle at
    the anchor's pixel position, for all four handles and every pointer
    position.  The condition cannot be relaxed while the floor height fits
    the frame: then the corner stays at the anchor for every pointer
    position only if the anchor is inside the frame and the floor is no
    larger than the frame-edge bound. *)
Theorem resize_keeps_anchor :
  forall vw vh s r h start pid ct,
    interaction s = Some (Resize r h start pid ct) ->
    vw <> 0%N -> vh <> 0%N ->
    let W := N2Q vw in
    let H := N2Q vh in
    let anchor := anchor_of h start in
    let floor := Qmax (Qmin (minWidthRatio s) 1) (2 # 100) * W in
    let bound := spec_frame_edge_bound W H h anchor in
    (0 <= fst anchor <= W -> 0 <= snd anchor <= H -> floor <= bound ->
     forall b e,
       ~ DOMRect.width b == 0 -> ~ DOMRect.height b == 0 ->
       corner_kept W H h anchor (get_rect (pointerMove vw vh b e s) r)) /\
    (floor * (1000 # 1100) <= H ->
     (forall b e,
        ~ DOMRect.width b == 0 -> ~ DOMRect.height b == 0 ->
        corner_kept W H h anchor (get_rect (pointerMove vw vh b e s) r)) ->
     0 <= fst anchor <= W /\ 0 <= snd anchor <= H /\ floor <= bound).
Proof.
  intros vw vh s r h start pid ct Hi Hw Hh W H anchor floor bound.
  pose proof (N2Q_pos vw Hw) as HW. pose proof (N2Q_pos vh Hh) as HH.
  set (m := Metrics.mk (N2Q vw) (N2Q vh)).
  assert (Harm : forall px py,
            anchorX (arm m h start px py) = fst anchor /\
            anchorY (arm m h start px py) = snd anchor /\
            boundsWidthPx (arm m h start px py) = bound).
  { intros px py. destruct (arm_is_spec m h start px py) as (Ea & _ & _ & Ebd).
    fold anchor in Ea. rewrite <- Ea. repeat split. exact Ebd. }
  split.
  - intros Hax Hay Hfb b e Hbw Hbh.
    destruct (pointerMove_resize vw vh b e s r h start pid ct Hi Hw Hh
                (truthy_of_nonzero _ Hbw) (truthy_of_nonzero _ Hbh))
      as (x & y & _ & _ & _ & ->).
    rewrite get_set_same. fold m.
    destruct (resize_corner_px m (minWidthRatio s) h start (x, y) (get_rect s r) HW HH)
      as (ox & oy & Eo & Eox & Eoy).
    destruct (Harm (fst (x, y) * Metrics.width m) (snd (x, y) * Metrics.height m))
      as (Eax & Eay & Ebd).
    pose proof (anchor_kept_px m (minWidthRatio s) h start
                  (fst (x, y) * Metrics.width m) (snd (x, y) * Metrics.height m)
                  HW HH) as Hpx.
    cbv zeta in Hpx.
    destruct Hpx as [Ex Ey];
      [rewrite Eax; exact Hax | rewrite Eay; exact Hay | rewrite Ebd; exact Hfb|].
    exists ox, oy. split; [exact Eo|].
    split; [rewrite Eox, Ex, Eax | rewrite Eoy, Ey, Eay]; reflexivity.
  - intros Hfits Hall.
    set (xh := match h with TopLeft | BottomLeft => 1 | _ => 0 end : Q).
    set (b := DOMRect.mk 0 0 1 1).
    set (e := PointerEvent.mk xh 0 0).
    assert (Hbw : ~ DOMRect.width b == 0) by (intros E; discriminate E).
    assert (Hbh : ~ DOMRect.height b == 0) by (intros E; discriminate E).
    specialize (Hall b e Hbw Hbh).
    destruct (pointerMove_resize vw vh b e s r h start pid ct Hi Hw Hh
                (truthy_of_nonzero _ Hbw) (truthy_of_nonzero _ Hbh))
      as (x & y & Hp & _ & _ & Emove).
    rewrite Emove in Hall. clear Emove. rewrite get_set_same in Hall.
    assert (Ex : x == xh).
    { unfold getPointerRatio in Hp.
      rewrite !truthy_of_nonzero in Hp by assumption. simpl in Hp.
      injection Hp as <- _. unfold xh. destruct h; reflexivity. }
    destruct (resize_corner_px m (minWidthRatio s) h start (x, y) (get_rect s r) HW HH)
      as (ox & oy & Eo & Eox & Eoy).
    destruct Hall as (cx & cy & Ec & Hcx & Hcy).
    change (opposite_corner_px m h
              (resizeRect_rect m (minWidthRatio s) h start (x, y) (get_rect s r))
            = Some (cx, cy)) in Ec.
    rewrite Eo in Ec. injection Ec as <- <-.
    destruct (Harm (fst (x, y) * Metrics.width m) (snd (x, y) * Metrics.height m))
      as (Eax & Eay & Ebd).
    rewrite <- Eax, <- Eay, <- Ebd.
    apply (anchor_kept_only_px m (minWidthRatio s) h start
             (fst (x, y) * Metrics.width m) (snd (x, y) * Metrics.height m) HW HH).
    + exact Hfits.
    + cbn [fst]. rewrite Ex. unfold xh. simpl Metrics.width. destruct h; lra.
    + rewrite <- Eox, Eax. exact Hcx.
    + rewrite <- Eoy, Eay. exact Hcy.
Qed.

(** Instances: the resize on the 3840x2160 video keeps the top-left corner
    at pixel (192, 216); on the 1280x720 video, where the region overflows
    the frame, a resize from the bottom-right handle keeps the top-left
    corner at pixel (64, 0). *)
Lemma resize_keeps_anchor_witness :
  (exists cx cy,
     opposite_corner_px (Metrics.mk (N2Q 3840) (N2Q 2160)) BottomRight
       (get_rect (pointerMove 3840 2160 bounds_4k (press_at 248 400) resizing_4k) Speaker1)
       = Some (cx, cy) /\
     cx == 192 /\ cy == 216) /\
  (let pressed :=
     run [ (env_1280x720, LoadedMetadata);
           (env_1280x720, PointerDownHandle Speaker1 BottomRight (press_at 600 355)) ]
       initial_state in
   exists cx cy,
     opposite_corner_px (Metrics.mk (N2Q 1280) (N2Q 720)) BottomRight
       (get_rect (pointerMove 1280 720 (bounds env_1280x720) (press_at 320 180) pressed)
          Speaker1)
       = Some (cx, cy) /\
     cx == 64 /\ cy == 0).
Proof.
  assert (Hnz : forall q : Q, 0 < q -> ~ q == 0)
    by (intros q Hq E; rewrite E in Hq; discriminate Hq).
  split.
  - apply (proj1 (resize_keeps_anchor 3840%N 2160%N resizing_4k
                    Speaker1 BottomRight start_4k 1%Z (HandleElement Speaker1 BottomRight)
                    eq_refl ltac:(discriminate) ltac:(discriminate))).
    + vm_compute. split; discriminate.
    + vm_compute. split; discriminate.
    + vm_compute. discriminate.
    + exact (Hnz 960 eq_refl).
    + exact (Hnz 540 eq_refl).
  - cbv zeta.
    eassert (Ei : interaction
                    (run [ (env_1280x720, LoadedMetadata);
                           (env_1280x720,
                            PointerDownHandle Speaker1 BottomRight (press_at 600 355)) ]
                       initial_state)
                  = Some (Resize Speaker1 BottomRight _ _ _))
      by (cbv; reflexivity).
    unshelve refine (let H := proj1 (resize_keeps_anchor 1280%N 720%N _ Speaker1 BottomRight
                                       _ _ _ Ei ltac:(discriminate) ltac:(discriminate))
                                _ _ _ (bounds env_1280x720) (press_at 320 180)
                                (Hnz 640 eq_refl) (Hnz 360 eq_refl) in _);
      try solve [vm_compute; first [discriminate | split; discriminate]].
    destruct H as (cx & cy & E & Hx & Hy). exists cx, cy.
    split; [exact E|]. split; [rewrite Hx | rewrite Hy]; reflexivity.
Defined.

(* ================================================================== *)
(** ** Pointer down during an interaction (C2) *)

(** C2 as stated fails: while the first region is being moved, a press on a
    handle of the second region replaces the move by a resize of the second
    region; the pointer move that follows resizes region two and leaves
    region one where it is. *)
Lemma press_during_move_replaces_interaction :
  let moving := run [ (env_1920x1080, LoadedMetadata);
                      (env_1920x1080, PointerDownRect Speaker1 (press_at 100 100)) ]
                  initial_state in
  let pressed := dispatch env_1920x1080
                   (PointerDownHandle Speaker2 BottomRight (PointerEvent.mk 700 500 2))
                   moving in
  let after := dispatch env_1920x1080 (PointerMoved (press_at 200 100)) pressed in
  (exists start, interaction moving = Some (Move Speaker1 start 1 (RectElement Speaker1))) /\
  (exists start, interaction pressed
                 = Some (Resize Speaker2 BottomRight start 2
                           (HandleElement Speaker2 BottomRight))) /\
  interaction pressed <> interaction moving /\
  pointerDownResize 1920 1080 (PointerEvent.mk 700 500 2) Speaker2 BottomRight moving
    <> moving /\
  get_rect after Speaker1 = get_rect moving Speaker1 /\
  get_rect after Speaker2 <> get_rect moving Speaker2.
Proof.
  cbv zeta. split; [eexists; reflexivity|]. split; [eexists; reflexivity|].
  split; [discriminate|]. split; [discriminate|]. split; [reflexivity|].
  vm_compute. discriminate.
Qed.

(** C2 (amended): a pointer-down is ignored only when the pressed rectangle
    has no position yet or, on a handle, when the video metrics are unknown.
    Otherwise, whether or not an interaction is active, it replaces the
    interaction state by a new move (rectangle body) or resize (handle)
    interaction on the pressed rectangle.  The pointer-down itself changes
    no region and not the floor. *)
Theorem pointer_down_replaces_interaction :
  (forall e r s l t,
     positioned (get_rect s r) = Some (l, t) ->
     interaction (pointerDown e r s)
     = Some (Move r
               (MoveStart.mk (PointerEvent.clientX e) (PointerEvent.clientY e) l t)
               (PointerEvent.pointerId e) (RectElement r))) /\
  (forall vw vh e r h s l t,
     positioned (get_rect s r) = Some (l, t) ->
     vw <> 0%N -> vh <> 0%N ->
     let rect := get_rect s r in
     interaction (pointerDownResize vw vh e r h s)
     = Some (Resize r h
               (ResizeStart.mk l t (Rect.widthRatio rect) (Rect.heightRatio rect)
                  (l * N2Q vw) (t * N2Q vh)
                  (Rect.widthRatio rect * N2Q vw) (Rect.heightRatio rect * N2Q vh))
               (PointerEvent.pointerId e) (HandleElement r h))) /\
  (forall vw vh e r h s,
     (positioned (get_rect s r) = None -> pointerDown e r s = s) /\
     (positioned (get_rect s r) = None \/ vw = 0%N \/ vh = 0%N ->
      pointerDownResize vw vh e r h s = s)) /\
  (forall vw vh e r h s r',
     get_rect (pointerDown e r s) r' = get_rect s r' /\
     get_rect (pointerDownResize vw vh e r h s) r' = get_rect s r' /\
     minWidthRatio (pointerDown e r s) = minWidthRatio s /\
     minWidthRatio (pointerDownResize vw vh e r h s) = minWidthRatio s).
Proof.
  split; [|split; [|split]].
  - intros e r s l t Hp. unfold pointerDown. rewrite Hp. reflexivity.
  - intros vw vh e r h s l t Hp Hw Hh rect. subst rect.
    unfold pointerDownResize. rewrite Hp.
    rewrite getVideoMetrics_known by assumption. reflexivity.
  - intros vw vh e r h s. split.
    + intros Hp. unfold pointerDown. rewrite Hp. reflexivity.
    + intros Hc. unfold pointerDownResize, getVideoMetrics.
      destruct (positioned (get_rect s r)) as [[l t]|]; [|reflexivity].
      destruct Hc as [Hc | [-> | ->]]; [discriminate | reflexivity |].
      rewrite orb_true_r. reflexivity.
  - intros vw vh e r h s r'. unfold pointerDown, pointerDownResize.
    destruct (positioned (get_rect s r)) as [[l t]|];
      destruct (getVideoMetrics vw vh); destruct r'; repeat split; reflexivity.
Qed.

(** Instances: presses on the second region while the first is being
    resized, and presses that are ignored. *)
Lemma pointer_down_replaces_interaction_witness :
  interaction (pointerDown (PointerEvent.mk 10 20 7) Speaker2 resizing_4k)
  = Some (Move Speaker2 (MoveStart.mk 10 20 (6 # 10) (55 # 100)) 7 (RectElement Speaker2)) /\
  interaction (pointerDownResize 3840 2160 (PointerEvent.mk 10 20 7) Speaker2 TopLeft
                 resizing_4k)
  = Some (Resize Speaker2 TopLeft
            (ResizeStart.mk (6 # 10) (55 # 100) (1100 # 3840) (1000 # 2160)
               ((6 # 10) * N2Q 3840) ((55 # 100) * N2Q 2160)
               ((1100 # 3840) * N2Q 3840) ((1000 # 2160) * N2Q 2160))
            7 (HandleElement Speaker2 TopLeft)) /\
  pointerDown (press_at 0 0) Speaker1 initial_state = initial_state /\
  pointerDownResize 0 0 (press_at 0 0) Speaker2 TopLeft resizing_4k = resizing_4k.
Proof.
  destruct pointer_down_replaces_interaction as (Hbody & Hhandle & Hignored & _).
  split; [apply Hbody; reflexivity|].
  split; [apply (Hhandle 3840%N 2160%N); reflexivity || discriminate|].
  split.
  - apply (proj1 (Hignored 0%N 0%N (press_at 0 0) Speaker1 TopLeft initial_state)).
    reflexivity.
  - apply (proj2 (Hignored 0%N 0%N (press_at 0 0) Speaker2 TopLeft resizing_4k)).
    right. left. reflexivity.
Defined.

(* ================================================================== *)
(** ** Moving a region (C8) *)

Lemma moving_inv_step vw vh b e r start pid ct s0 s :
  moving_inv r start pid ct s0 s ->
  moving_inv r start pid ct s0 (pointerMove vw vh b e s).
Proof.
  intros (Hi & Hw & Hh & Ho). unfold pointerMove. rewrite Hi.
  destruct (negb (truthy (DOMRect.width b)) || negb (truthy (DOMRect.height b)))%bool;
    [repeat split; assumption|].
  unfold moving_inv.
  rewrite interaction_set_rect, get_set_same, get_set_other.
  repeat split; assumption.
Qed.

Lemma moving_inv_run vw vh moves r start pid ct s0 s :
  moving_inv r start pid ct s0 s ->
  moving_inv r start pid ct s0 (pointerMoves vw vh moves s).
Proof.
  revert s. induction moves as [|[b e] moves IH]; intros s Hinv; [exact Hinv|].
  unfold pointerMoves. simpl. apply IH. apply moving_inv_step. exact Hinv.
Qed.

(** The script's [clamp] from 0, written with [min] and [max]. *)
Lemma clamp_from_zero v hi :
  clamp v 0 hi == Qmax 0 (Qmin v hi) /\
  (0 <= v <= hi -> clamp v 0 hi == v) /\
  (0 <= hi -> 0 <= clamp v 0 hi <= hi).
Proof. repeat split; intros; minmax. Qed.

(** C8: during a move, every pointer move leaves [widthRatio] and
    [heightRatio] as they were and the other region untouched; [left] and
    [top] become the position the region had at pointer-down plus the whole
    pointer travel since pointer-down (whatever moves came in between)
    whenever that lies in [0, 1 - size], and in general
    [max(0, min(origin + travel, 1 - size))], each axis on its own. *)
Theorem move_is_relative_to_pointer_down :
  forall vw vh s0 r l t e0 moves b e,
    positioned (get_rect s0 r) = Some (l, t) ->
    ~ DOMRect.width b == 0 -> ~ DOMRect.height b == 0 ->
    let s := pointerMove vw vh b e (pointerMoves vw vh moves (pointerDown e0 r s0)) in
    let x' := l + (PointerEvent.clientX e - PointerEvent.clientX e0) / DOMRect.width b in
    let y' := t + (PointerEvent.clientY e - PointerEvent.clientY e0) / DOMRect.height b in
    let wr := Rect.widthRatio (get_rect s0 r) in
    let hr := Rect.heightRatio (get_rect s0 r) in
    Rect.widthRatio (get_rect s r) = wr /\
    Rect.heightRatio (get_rect s r) = hr /\
    get_rect s (other r) = get_rect s0 (other r) /\
    exists x y,
      Rect.left (get_rect s r) = Some x /\
      Rect.top (get_rect s r) = Some y /\
      x == Qmax 0 (Qmin x' (1 - wr)) /\
      y == Qmax 0 (Qmin y' (1 - hr)) /\
      (0 <= x' <= 1 - wr -> x == x') /\
      (0 <= y' <= 1 - hr -> y == y') /\
      (wr <= 1 -> 0 <= x <= 1 - wr) /\
      (hr <= 1 -> 0 <= y <= 1 - hr).
Proof.
  intros vw vh s0 r l t e0 moves b e Hp Hbw Hbh s x' y' wr hr.
  set (start := MoveStart.mk (PointerEvent.clientX e0) (PointerEvent.clientY e0) l t).
  assert (H0 : moving_inv r start (PointerEvent.pointerId e0) (RectElement r) s0
                 (pointerDown e0 r s0)).
  { unfold pointerDown. rewrite Hp. unfold moving_inv. simpl.
    destruct r; repeat split; reflexivity. }
  apply (moving_inv_run vw vh moves) in H0.
  destruct H0 as (Hi & Hw & Hh & Ho).
  subst s. rewrite (pointerMove_move vw vh b e _ r start _ _ Hi
                      (truthy_of_nonzero _ Hbw) (truthy_of_nonzero _ Hbh)).
  rewrite get_set_same, get_set_other. unfold move_rect. simpl.
  rewrite Hw, Hh. fold wr hr x' y'.
  split; [reflexivity|]. split; [reflexivity|]. split; [assumption|].
  destruct (clamp_from_zero x' (1 - wr)) as (Ex & Exin & Exr).
  destruct (clamp_from_zero y' (1 - hr)) as (Ey & Eyin & Eyr).
  eexists _, _. split; [reflexivity|]. split; [reflexivity|].
  split; [exact Ex|]. split; [exact Ey|].
  split; [exact Exin|]. split; [exact Eyin|].
  split; intros Hle; [apply Exr | apply Eyr]; lra.
Qed.

(** An instance: the first region of a 1920x1080 video is pressed at
    (100, 100), dragged far away and back, and ends 96 overlay pixels to
    the right of where it was: at left 0.05 + 96/960 = 0.15, with its top
    still 80/1080. *)
Lemma move_is_relative_to_pointer_down_witness :
  let b := DOMRect.mk 0 0 960 540 in
  let s := pointerMove 1920 1080 b (press_at 196 100)
             (pointerMoves 1920 1080 [(b, press_at 900 900); (b, press_at 0 0)]
                (pointerDown (press_at 100 100) Speaker1 sized_1920x1080)) in
  Rect.widthRatio (get_rect s Speaker1) = Rect.widthRatio (get_rect sized_1920x1080 Speaker1) /\
  Rect.heightRatio (get_rect s Speaker1)
    = Rect.heightRatio (get_rect sized_1920x1080 Speaker1) /\
  get_rect s Speaker2 = get_rect sized_1920x1080 Speaker2 /\
  exists x y,
    Rect.left (get_rect s Speaker1) = Some x /\
    Rect.top (get_rect s Speaker1) = Some y /\
    x == 15 # 100 /\ y == 80 # 1080.
Proof.
  assert (Hnz : forall q : Q, 0 < q -> ~ q == 0)
    by (intros q Hq E; rewrite E in Hq; discriminate Hq).
  cbv zeta.
  refine (let H := move_is_relative_to_pointer_down 1920%N 1080%N sized_1920x1080 Speaker1
           (clamp (5 # 100) 0 (1 - TARGET_ASPECT.width / N2Q 1920))
           (clamp (1 # 10) 0 (1 - TARGET_ASPECT.height / N2Q 1080))
           (press_at 100 100)
           [(DOMRect.mk 0 0 960 540, press_at 900 900); (DOMRect.mk 0 0 960 540, press_at 0 0)]
           (DOMRect.mk 0 0 960 540) (press_at 196 100) eq_refl
           (Hnz 960 eq_refl) (Hnz 540 eq_refl) in _).
  cbv zeta in H.
  destruct H as (H1 & H2 & H3 & x & y & Hl & Ht & _ & _ & Hx & Hy & _).
  split; [exact H1|]. split; [exact H2|]. split; [exact H3|].
  exists x, y. split; [exact Hl|]. split; [exact Ht|]. split.
  - rewrite Hx; [reflexivity|]. vm_compute. split; discriminate.
  - rewrite Hy; [reflexivity|]. vm_compute. split; discriminate.
Defined.

(* ================================================================== *)
(** ** Submission feedback (C9) *)

(** The function [truthy_json] and the predicate [falsy] agree. *)
Lemma truthy_json_falsy v : truthy_json v = false <-> falsy v.
Proof.
  destruct v as [ | b | q | s | items | members]; simpl.
  - split; [constructor | reflexivity].
  - split; [intros ->; constructor | intros H; inversion H; reflexivity].
  - rewrite negb_false_iff, Qeq_bool_iff.
    split; [intros H; constructor; exact H | intros H; inversion H; assumption].
  - rewrite negb_false_iff, String.eqb_eq.
    split; [intros ->; constructor | intros H; inversion H; reflexivity].
  - split; [discriminate | intros H; inversion H].
  - split; [discriminate | intros H; inversion H].
Qed.

(** [!outputs.length] holds exactly of the values [no_items] names. *)
Lemma length_truthy_no_items outputs :
  length_truthy outputs = Some false <-> no_items outputs.
Proof.
  destruct outputs as [ | b | q | s | items | members]; simpl.
  - split; [discriminate | intros H; inversion H].
  - split; [constructor | reflexivity].
  - split; [constructor | reflexivity].
  - split.
    + intros H. injection H as H. rewrite negb_false_iff, String.eqb_eq in H.
      subst s. constructor.
    + intros H. inversion H. reflexivity.
  - destruct items as [|x items].
    + split; [constructor | reflexivity].
    + split; [discriminate | intros H; inversion H].
  - destruct (lookup "length" members) as [v|] eqn:E.
    + split.
      * intros H. injection H as H. apply truthy_json_falsy in H.
        eapply no_items_obj_falsy; eassumption.
      * intros H. inversion H as [ | | | | ms E' | ms v' E' Hv]; subst.
        -- rewrite E in E'. discriminate.
        -- rewrite E in E'. injection E' as <-.
           apply truthy_json_falsy in Hv. rewrite Hv. reflexivity.
    + split; [intros _; apply no_items_obj_absent; exact E | reflexivity].
Qed.

(** [stringifies] decides [has_text]. *)
Lemma stringifies_has_text : forall v, stringifies v = true <-> has_text v.
Proof.
  fix stringifies_has_text 1.
  intros v. destruct v as [ | b | q | s | items | members]; simpl.
  - split; [constructor | reflexivity].
  - split; [constructor | reflexivity].
  - split; [constructor | reflexivity].
  - split; [constructor | reflexivity].
  - split.
    + intros H. constructor.
      induction items as [|x items IH]; [constructor|].
      simpl in H. apply andb_true_iff in H. destruct H as [Hx Hl].
      constructor; [apply stringifies_has_text; exact Hx | apply IH; exact Hl].
    + intros H. inversion H as [ | | | | l Hall | ]; subst. clear H.
      induction items as [|x items IH]; [reflexivity|].
      inversion Hall as [|y l Hy Hl]; subst. simpl.
      apply andb_true_iff. split; [apply stringifies_has_text; exact Hy | apply IH; exact Hl].
  - destruct (lookup "toString" members) as [v|] eqn:E.
    + split; [discriminate|]. intros H. inversion H as [ | | | | | ms E']; subst.
      rewrite E in E'. discriminate.
    + split; [intros _; constructor; exact E | reflexivity].
Qed.

Lemma shows_prints members key :
  shows (member (JObj members) key) = true <-> prints members key.
Proof.
  unfold prints. simpl. destruct (lookup key members) as [v|]; simpl.
  - apply stringifies_has_text.
  - split; [constructor | reflexivity].
Qed.

(** [renders] decides [well_formed_item]. *)
Lemma renders_well_formed item : renders item = true <-> well_formed_item item.
Proof.
  unfold renders.
  destruct item as [ | b | q | s | items | members];
    try (simpl; split; [discriminate | intros H; inversion H]).
  assert (Ec : member (JObj members) "crop"
               = match lookup "crop" members with Some v => Got v | None => Undefined end)
    by reflexivity.
  rewrite Ec. clear Ec.
  destruct (lookup "crop" members) as [crop|] eqn:E;
    [|split; [discriminate | intros H; inversion H as [ms c E']; subst;
                              rewrite E in E'; discriminate]].
  rewrite !andb_true_iff, !shows_prints.
  split.
  - intros (((((Hlabel & Hw) & Hh) & Hx) & Hy) & Hurl).
    apply (well_formed_item_intro members crop E); [|exact Hlabel | exact Hurl].
    destruct crop as [ | b | q | s | items | ms]; try constructor;
      try (simpl in Hw; discriminate); apply shows_prints; assumption.
  - intros H. inversion H as [ms c E' Hc Hlabel Hurl]; subst.
    rewrite E in E'. injection E' as <-.
    inversion Hc as [ms Hw Hh Hx Hy | b | q | s | items]; subst;
      try (repeat split; first [assumption | reflexivity]).
    repeat split; first [assumption | apply shows_prints; assumption].
Qed.

Lemma forallb_renders items :
  forallb renders items = true <-> Forall well_formed_item items.
Proof.
  rewrite forallb_forall, Forall_forall.
  split; intros H x Hx; apply renders_well_formed, H, Hx.
Qed.

(** [outputs_of] is what the destructuring [const { outputs = [] } = result]
    gives. *)
Lemma outputs_of_member result outputs :
  outputs_of result outputs <->
  match member result "outputs" with
  | Throws => False
  | Undefined => outputs = JArr []
  | Got v => outputs = v
  end.
Proof.
  destruct result as [ | b | q | s | items | members]; simpl;
    try (split; [intros H; inversion H; reflexivity | intros ->; constructor]).
  - split; [intros H; inversion H | intros []].
  - destruct (lookup "outputs" members) as [v|] eqn:E.
    + split.
      * intros H. inversion H as [ms v' E' | ms E' | | | | ]; subst;
          rewrite E in E'; [injection E' as <-; reflexivity | discriminate].
      * intros ->. constructor. exact E.
    + split.
      * intros H. inversion H as [ms v' E' | ms E' | | | | ]; subst;
          [rewrite E in E'; discriminate | reflexivity].
      * intros ->. apply outputs_absent. exact E.
Qed.

Lemma outputs_of_functional result o o' :
  outputs_of result o -> outputs_of result o' -> o = o'.
Proof.
  rewrite !outputs_of_member.
  destruct (member result "outputs"); [intros [] | congruence | congruence].
Qed.

(** The page a readable success response leaves. *)
Lemma handleConfirm_ok_parsed result p :
  handleConfirm (Response true (Parsed result)) p
  = match member result "outputs" with
    | Throws => mkPage TypeErrorText (Some error) [] false
    | access =>
        let outputs := match access with Got v => v | _ => JArr [] end in
        match length_truthy outputs with
        | None => mkPage TypeErrorText (Some error) [] false
        | Some false =>
            mkPage (Text "Processing finished but no outputs were generated.")
              (Some warning) [] false
        | Some true =>
            match outputs with
            | JArr items =>
                if forallb renders items
                then mkPage (Text "Export complete!") (Some success) items false
                else mkPage TypeErrorText (Some error) [] false
            | _ => mkPage TypeErrorText (Some error) [] false
            end
        end
    end.
Proof.
  unfold handleConfirm, confirm_try.
  destruct (member result "outputs") as [ | | outputs]; try reflexivity.
  destruct (length_truthy outputs) as [[|]|]; try reflexivity.
  destruct outputs as [ | b | q | s | items | members]; try reflexivity.
  destruct (forallb renders items); reflexivity.
Qed.

(** The outcomes of a readable success response: the body is [null]; or it
    has outputs with nothing to show; or outputs that all render; or
    outputs that are not a list of items that render. *)
Lemma handleConfirm_ok_parsed_cases result p :
  let p' := handleConfirm (Response true (Parsed result)) p in
  (result = JNull /\ p' = mkPage TypeErrorText (Some error) [] false) \/
  exists outputs,
    outputs_of result outputs /\
    ((no_items outputs /\
      p' = mkPage (Text "Processing finished but no outputs were generated.")
             (Some warning) [] false) \/
     (~ no_items outputs /\
      exists items,
        outputs = JArr items /\ Forall well_formed_item items /\
        p' = mkPage (Text "Export complete!") (Some success) items false) \/
     (~ no_items outputs /\
      ~ (exists items, outputs = JArr items /\ Forall well_formed_item items) /\
      p' = mkPage TypeErrorText (Some error) [] false)).
Proof.
  intros p'. subst p'. rewrite handleConfirm_ok_parsed.
  pose proof (outputs_of_member result) as Hof.
  destruct (member result "outputs") as [ | | v] eqn:Em.
  - left. split; [|reflexivity].
    destruct result; simpl in Em; try discriminate; [reflexivity|].
    destruct (lookup "outputs" members); discriminate.
  - right. exists (JArr []). split; [apply Hof; reflexivity|].
    left. split; [constructor | reflexivity].
  - right. exists v. split; [apply Hof; reflexivity|]. cbv zeta.
    pose proof (length_truthy_no_items v) as Hno.
    destruct (length_truthy v) as [[|]|] eqn:El.
    + assert (Hnot : ~ no_items v) by (intros H; apply Hno in H; discriminate).
      destruct v as [ | b | q | s | items | members];
        try (right; right; split; [exact Hnot|];
             split; [intros (l & E & _); discriminate | reflexivity]).
      destruct (forallb renders items) eqn:Ef.
      * right. left. split; [exact Hnot|]. exists items.
        split; [reflexivity|]. split; [apply forallb_renders; exact Ef | reflexivity].
      * right. right. split; [exact Hnot|]. split; [|reflexivity].
        intros (l & E & Hall). injection E as <-.
        apply forallb_renders in Hall. rewrite Hall in Ef. discriminate.
    + left. split; [apply Hno; reflexivity | reflexivity].
    + right. right.
      split; [intros H; apply Hno in H; discriminate|].
      split; [|reflexivity].
      intros (l & E & _). subst v. discriminate El.
Qed.

(** The message a response that is not [ok] leaves. *)
Lemma handleConfirm_not_ok body p :
  handleConfirm (Response false body) p
  = mkPage (error_message body) (Some error) [] false.
Proof. reflexivity. Qed.

Lemma error_message_generic body :
  lacks_error_message body -> error_message body = Text "Unable to process video".
Proof.
  intros H. unfold error_message.
  inversion H as [m | b | q | s | l | members E | members v E Hv]; subst;
    try reflexivity; simpl; rewrite E; [reflexivity|].
  apply truthy_json_falsy in Hv. rewrite Hv. reflexivity.
Qed.

(** C9 as stated fails: a response with [ok = true] whose body cannot be
    read as JSON ends in the error state, and it is neither a non-success
    response nor a network failure. *)
Lemma unreadable_success_body_is_error :
  feedback_status (handleConfirm (Response true (Rejected "Unexpected token <")) blank_page)
    = Some error /\
  ~ (forall outcome p,
       feedback_status (handleConfirm outcome p) = Some error ->
       (exists m, outcome = NetworkFailure m) \/ (exists body, outcome = Response false body)).
Proof.
  split; [reflexivity|].
  intros Hclaim.
  destruct (Hclaim (Response true (Rejected "Unexpected token <")) blank_page eq_refl)
    as [[m E] | [body E]]; discriminate.
Qed.

(** C9 (amended): a success response whose body is not [null] and whose
    outputs (the [outputs] member, or the empty list when there is none)
    have nothing to show gives the "no outputs generated" warning, not the
    error state.  The error state is reached exactly on a network failure,
    a non-success response, a success response whose body cannot be read
    or is [null], or a success response whose outputs have something to
    show but are not a list of items the page can render.  A non-success
    response whose body cannot be read, or is not [null] and has no truthy
    [error] member, gives "Unable to process video"; a [null] body gives the
    text of the [TypeError] instead, and a non-empty string [error] member
    is shown as it is.  The button is enabled again in every case. *)
Theorem submission_feedback :
  forall outcome p,
    let p' := handleConfirm outcome p in
    (forall result outputs,
       outcome = Response true (Parsed result) ->
       outputs_of result outputs -> no_items outputs ->
       feedback_status p' = Some warning /\
       feedback_text p' = Text "Processing finished but no outputs were generated." /\
       exports p' = []) /\
    (feedback_status p' = Some error <->
     (exists m, outcome = NetworkFailure m) \/
     (exists body, outcome = Response false body) \/
     (exists m, outcome = Response true (Rejected m)) \/
     outcome = Response true (Parsed JNull) \/
     (exists result outputs,
        outcome = Response true (Parsed result) /\
        outputs_of result outputs /\ ~ no_items outputs /\
        ~ (exists items, outputs = JArr items /\ Forall well_formed_item items))) /\
    (forall body,
       outcome = Response false body ->
       (lacks_error_message body -> feedback_text p' = Text "Unable to process video") /\
       (body = Parsed JNull -> feedback_text p' = TypeErrorText) /\
       (forall members s,
          body = Parsed (JObj members) ->
          lookup "error" members = Some (JStr s) -> s <> ""%string ->
          feedback_text p' = Text s)) /\
    confirm_disabled p' = false.
Proof.
  intros outcome p p'.
  split; [|split; [|split]].
  - intros result outputs -> Hof Hno. subst p'.
    destruct (handleConfirm_ok_parsed_cases result p)
      as [[-> _] | (o & Hof' & [[_ ->] | [[Hnot _] | [Hnot _]]])].
    + inversion Hof.
    + repeat split; reflexivity.
    + rewrite (outputs_of_functional _ _ _ Hof Hof') in Hno. contradiction.
    + rewrite (outputs_of_functional _ _ _ Hof Hof') in Hno. contradiction.
  - subst p'. destruct outcome as [m | [|] [result | m]].
    + split; [intros _; left; eauto | reflexivity].
    + destruct (handleConfirm_ok_parsed_cases result p)
        as [[-> ->] | (o & Hof & [[Hno ->] | [(Hnot & l & -> & Hall & ->) | (Hnot & Hbad & ->)]])].
      * split; [intros _; right; right; right; left; reflexivity | reflexivity].
      * split; [discriminate|].
        intros [[m E] | [[b E] | [[m E] | [E | (r & o' & E & Hof' & Hnot & _)]]]];
          try discriminate.
        -- injection E as ->. inversion Hof.
        -- injection E as ->.
           rewrite (outputs_of_functional _ _ _ Hof' Hof) in Hnot. contradiction.
      * split; [discriminate|].
        intros [[m E] | [[b E] | [[m E] | [E | (r & o' & E & Hof' & _ & Hbad)]]]];
          try discriminate.
        -- injection E as ->. inversion Hof.
        -- injection E as ->.
           rewrite (outputs_of_functional _ _ _ Hof' Hof) in Hbad.
           exfalso. apply Hbad. exists l. split; [reflexivity | exact Hall].
      * split; [|reflexivity].
        intros _. right. right. right. right. exists result, o.
        repeat split; assumption.
    + split; [intros _; right; right; left; eauto | reflexivity].
    + split; [intros _; right; left; eauto | reflexivity].
    + split; [intros _; right; left; eauto | reflexivity].
  - intros body ->. subst p'. rewrite handleConfirm_not_ok. cbn [feedback_text].
    split; [apply error_message_generic|]. split.
    + intros ->. reflexivity.
    + intros members s -> E Hs. unfold error_message. simpl. rewrite E. simpl.
      destruct (String.eqb s "") eqn:Es; [|reflexivity].
      apply String.eqb_eq in Es. contradiction.
  - subst p'. reflexivity.
Qed.

(** Instances: [{outputs: []}] with status 200 gives the warning; a
    non-success response with [{}] as body gives the generic message. *)
Lemma submission_feedback_witness :
  (let p' := handleConfirm (Response true (Parsed (JObj [("outputs"%string, JArr [])])))
               blank_page in
   feedback_status p' = Some warning /\
   feedback_text p' = Text "Processing finished but no outputs were generated." /\
   exports p' = []) /\
  (let p' := handleConfirm (Response false (Parsed (JObj []))) blank_page in
   feedback_text p' = Text "Unable to process video").
Proof.
  split.
  - apply (proj1 (submission_feedback
                    (Response true (Parsed (JObj [("outputs"%string, JArr [])])))
                    blank_page)
             (JObj [("outputs"%string, JArr [])]) (JArr []) eq_refl).
    + apply outputs_member. reflexivity.
    + apply no_items_arr.
  - apply (proj1 (proj1 (proj2 (proj2 (submission_feedback
                                         (Response false (Parsed (JObj []))) blank_page)))
                    (Parsed (JObj [])) eq_refl)).
    apply lacks_absent. reflexivity.
Defined.

(* ================================================================== *)
(** * Further properties of the script *)

(** ** [clamp] and [getPointerRatio] *)

(** As [minmax], for goals that are equalities of terms. *)
Ltac minmax_eq :=
  unfold clamp in *; split_minmax; first [reflexivity | lra | exfalso; lra].

Lemma clamp_idempotent v lo hi : clamp (clamp v lo hi) lo hi = clamp v lo hi.
Proof. minmax_eq. Qed.

Lemma clamp_in_range v lo hi : lo <= v -> v <= hi -> clamp v lo hi = v.
Proof. intros. minmax_eq. Qed.

(** X1: [clamp] never returns less than [min]; on a non-empty range it
    returns at most [max] and on an empty one it returns [min]; clamping
    twice is clamping once; and it is monotone in the value. *)
Theorem clamp_range_idempotent_monotone :
  forall v v' lo hi,
    lo <= clamp v lo hi /\
    (lo <= hi -> clamp v lo hi <= hi) /\
    (hi < lo -> clamp v lo hi = lo) /\
    clamp (clamp v lo hi) lo hi = clamp v lo hi /\
    (v <= v' -> clamp v lo hi <= clamp v' lo hi).
Proof.
  intros v v' lo hi.
  split; [minmax|]. split; [intros; minmax|].
  split; [intros; minmax_eq|]. split; [apply clamp_idempotent|].
  intros. minmax.
Qed.

(** An instance: the range [[0, 1 - 25/18]] of the 1280x720 sizing is empty. *)
Lemma clamp_range_idempotent_monotone_witness :
  clamp (1 # 10) 0 (1 - (25 # 18)) <= 1 - (25 # 18) \/
  clamp (1 # 10) 0 (1 - (25 # 18)) = 0.
Proof.
  right.
  apply (proj1 (proj2 (proj2 (clamp_range_idempotent_monotone
                                (1 # 10) 0 0 (1 - (25 # 18)))))).
  reflexivity.
Defined.

(** X2: [getPointerRatio] gives nothing exactly when the overlay has zero
    width or height; otherwise both coordinates lie in [[0, 1]], they are the
    exact relative position of a pointer inside the overlay, and a pointer
    left of (above) the overlay is reported on its left (top) edge. *)
Theorem getPointerRatio_range :
  forall b e,
    (getPointerRatio b e = None <-> DOMRect.width b == 0 \/ DOMRect.height b == 0) /\
    (forall x y, getPointerRatio b e = Some (x, y) -> 0 <= x <= 1 /\ 0 <= y <= 1) /\
    (0 < DOMRect.width b -> 0 < DOMRect.height b ->
     exists x y,
       getPointerRatio b e = Some (x, y) /\
       (DOMRect.left b <= PointerEvent.clientX e <= DOMRect.left b + DOMRect.width b ->
        x == (PointerEvent.clientX e - DOMRect.left b) / DOMRect.width b) /\
       (DOMRect.top b <= PointerEvent.clientY e <= DOMRect.top b + DOMRect.height b ->
        y == (PointerEvent.clientY e - DOMRect.top b) / DOMRect.height b) /\
       (PointerEvent.clientX e <= DOMRect.left b -> x == 0) /\
       (PointerEvent.clientY e <= DOMRect.top b -> y == 0)).
Proof.
  intros b e. unfold getPointerRatio, truthy.
  split; [|split].
  - destruct (Qeq_bool (DOMRect.width b) 0) eqn:Ew;
      destruct (Qeq_bool (DOMRect.height b) 0) eqn:Eh; simpl;
      try (apply Qeq_bool_iff in Ew); try (apply Qeq_bool_iff in Eh);
      try (split; [intros _; tauto | reflexivity]).
    split; [discriminate|].
    apply Qeq_bool_neq in Ew. apply Qeq_bool_neq in Eh. tauto.
  - intros x y.
    destruct (negb (negb (Qeq_bool (DOMRect.width b) 0))
              || negb (negb (Qeq_bool (DOMRect.height b) 0)))%bool; [discriminate|].
    intros E. inversion E; subst. split; apply clamp_bounds; lra.
  - intros Hw Hh.
    assert (Ew : Qeq_bool (DOMRect.width b) 0 = false).
    { destruct (Qeq_bool (DOMRect.width b) 0) eqn:E; [|reflexivity].
      apply Qeq_bool_iff in E. lra. }
    assert (Eh : Qeq_bool (DOMRect.height b) 0 = false).
    { destruct (Qeq_bool (DOMRect.height b) 0) eqn:E; [|reflexivity].
      apply Qeq_bool_iff in E. lra. }
    rewrite Ew, Eh. simpl. eexists _, _. split; [reflexivity|].
    assert (Hrel : forall c o w, 0 < w ->
              (o <= c <= o + w -> clamp ((c - o) / w) 0 1 == (c - o) / w) /\
              (c <= o -> clamp ((c - o) / w) 0 1 == 0)).
    { intros c o w Hpos. split; intros Hc.
      - apply clamp_id.
        + apply Qle_shift_div_l; lra.
        + apply Qle_shift_div_r; lra.
      - assert ((c - o) / w <= 0) by (apply Qle_shift_div_r; lra).
        minmax. }
    split; [apply Hrel; assumption|]. split; [apply Hrel; assumption|].
    split; apply Hrel; assumption.
Qed.

(** An instance: the middle of a 960x540 overlay placed at (10, 20). *)
Lemma getPointerRatio_range_witness :
  exists x y,
    getPointerRatio (DOMRect.mk 10 20 960 540) (press_at 490 290) = Some (x, y) /\
    x == (490 - 10) / 960 /\ y == (290 - 20) / 540.
Proof.
  destruct (proj2 (proj2 (getPointerRatio_range (DOMRect.mk 10 20 960 540)
                            (press_at 490 290))))
    as (x & y & E & Hx & Hy & _); [reflexivity | reflexivity |].
  exists x, y. split; [exact E|]. split.
  - apply Hx. vm_compute. split; discriminate.
  - apply Hy. vm_compute. split; discriminate.
Defined.

(** ** [updateRectSizeFromVideo] *)

Lemma size_rect_idempotent cw ch rect :
  size_rect cw ch (size_rect cw ch rect) = size_rect cw ch rect.
Proof.
  unfold size_rect.
  destruct (Rect.left rect), (Rect.top rect); simpl; rewrite !clamp_idempotent; reflexivity.
Qed.

(** X3: sizing twice for the same video is sizing once: the metadata event
    and the ready-state test at start-up may both run the sizing and the
    state is the same as after one of them. *)
Theorem updateRectSizeFromVideo_idempotent :
  forall vw vh s,
    updateRectSizeFromVideo vw vh (updateRectSizeFromVideo vw vh s)
    = updateRectSizeFromVideo vw vh s.
Proof.
  intros vw vh s. unfold updateRectSizeFromVideo.
  destruct (N.eqb vw 0 || N.eqb vh 0)%bool eqn:E; rewrite ?E; [reflexivity|].
  simpl. rewrite !size_rect_idempotent. reflexivity.
Qed.

(** X4: a sizing gives a region that has no position yet its default
    position, clamped; it leaves a positioned region where it is whenever the
    target box still fits there, and it keeps the interaction in progress. *)
Theorem updateRectSizeFromVideo_position :
  forall vw vh s r,
    vw <> 0%N -> vh <> 0%N ->
    let cw := TARGET_ASPECT.width / N2Q vw in
    let ch := TARGET_ASPECT.height / N2Q vh in
    let rect := get_rect s r in
    let rect' := get_rect (updateRectSizeFromVideo vw vh s) r in
    (positioned rect = None ->
     Rect.left rect' = Some (clamp (Rect.defaultLeft rect) 0 (1 - cw)) /\
     Rect.top rect' = Some (clamp (Rect.defaultTop rect) 0 (1 - ch))) /\
    (forall l t, positioned rect = Some (l, t) ->
       (0 <= l -> l + cw <= 1 -> Rect.left rect' = Some l) /\
       (0 <= t -> t + ch <= 1 -> Rect.top rect' = Some t)) /\
    interaction (updateRectSizeFromVideo vw vh s) = interaction s.
Proof.
  intros vw vh s r Hw Hh cw ch rect rect'.
  subst rect'. rewrite get_rect_update by assumption. fold cw ch rect.
  split; [|split].
  - unfold positioned, size_rect.
    destruct (Rect.left rect), (Rect.top rect); try discriminate; intros _; split; reflexivity.
  - intros l t. unfold positioned, size_rect.
    destruct (Rect.left rect), (Rect.top rect); try discriminate.
    intros E. inversion E; subst. simpl.
    split; intros H0 H1; f_equal; apply clamp_in_range; lra.
  - rewrite updateRectSizeFromVideo_known by assumption. reflexivity.
Qed.

(** An instance: the first sizing of a 1920x1080 video, and a second sizing
    of the 3840x2160 video in the middle of the resize. *)
Lemma updateRectSizeFromVideo_position_witness :
  Rect.left (get_rect (updateRectSizeFromVideo 1920 1080 initial_state) Speaker1)
    = Some (clamp (5 # 100) 0 (1 - TARGET_ASPECT.width / N2Q 1920)) /\
  Rect.left (get_rect (updateRectSizeFromVideo 3840 2160 resizing_4k) Speaker2)
    = Some (6 # 10).
Proof.
  split.
  - apply (proj1 (updateRectSizeFromVideo_position 1920%N 1080%N initial_state Speaker1
                    ltac:(discriminate) ltac:(discriminate))).
    reflexivity.
  - destruct (updateRectSizeFromVideo_position 3840%N 2160%N resizing_4k Speaker2
                ltac:(discriminate) ltac:(discriminate)) as (_ & Hkeep & _).
    apply (proj1 (Hkeep (6 # 10) (55 # 100) eq_refl)); vm_compute; discriminate.
Defined.

(** X5: until a metadata event arrives with known metrics, no event changes
    anything: presses, moves and releases on the unsized page leave the
    initial state as it is. *)
Theorem unsized_page_ignores_events :
  forall trace,
    Forall (fun step => snd step <> LoadedMetadata \/ metrics_unknown (fst step)) trace ->
    run trace initial_state = initial_state.
Proof.
  intros trace Hall. unfold run.
  induction Hall as [|[env ev] trace Hstep _ IH]; [reflexivity|].
  simpl. replace (dispatch env ev initial_state) with initial_state; [exact IH|].
  destruct ev; simpl in *; try reflexivity.
  - destruct Hstep as [Hne | Hunk]; [contradiction|].
    unfold metrics_unknown, getVideoMetrics in Hunk. unfold updateRectSizeFromVideo.
    destruct (N.eqb (videoWidth env) 0 || N.eqb (videoHeight env) 0)%bool;
      [reflexivity | discriminate].
  - destruct r; reflexivity.
  - destruct r; reflexivity.
Qed.

(** An instance: a press, a move and a release before any metadata. *)
Lemma unsized_page_ignores_events_witness :
  run [ (env_1920x1080, PointerDownHandle Speaker1 TopLeft (press_at 10 10));
        (env_1920x1080, PointerMoved (press_at 50 50));
        (mkEnv 0 0 bounds_4k, LoadedMetadata);
        (env_1920x1080, PointerUp) ] initial_state
  = initial_state.
Proof.
  apply unsized_page_ignores_events.
  apply Forall_cons; [left; discriminate|].
  apply Forall_cons; [left; discriminate|].
  apply Forall_cons; [right; reflexivity|].
  apply Forall_cons; [left; discriminate|].
  apply Forall_nil.
Defined.

(** ** [pointerMove] and [resizeRect] *)

Lemma set_set_rect s r v v' : set_rect (set_rect s r v) r v' = set_rect s r v'.
Proof. destruct r; reflexivity. Qed.

Lemma get_set_rect_neq s r r' v : r' <> r -> get_rect (set_rect s r v) r' = get_rect s r'.
Proof. destruct r, r'; intros H; try reflexivity; contradiction. Qed.

(** What [pointerMove] can do to the state: replace the dragged rectangle by
    a rectangle with the same identity and defaults, or nothing. *)
Lemma pointerMove_cases vw vh b e s :
  pointerMove vw vh b e s = s \/
  exists r v,
    dragged s = Some r /\
    pointerMove vw vh b e s = set_rect s r v /\
    Rect.id v = Rect.id (get_rect s r) /\
    Rect.defaultLeft v = Rect.defaultLeft (get_rect s r) /\
    Rect.defaultTop v = Rect.defaultTop (get_rect s r).
Proof.
  unfold pointerMove, dragged.
  destruct (interaction s) as [[r start pid ct | r h start pid ct]|]; [| |left; reflexivity].
  - destruct (negb (truthy (DOMRect.width b)) || negb (truthy (DOMRect.height b)))%bool;
      [left; reflexivity|].
    right. eexists _, _. repeat split; reflexivity.
  - destruct (getPointerRatio b e) as [p|]; [|left; reflexivity].
    unfold resizeRect. destruct (getVideoMetrics vw vh); [|left; reflexivity].
    right. eexists _, _. repeat split; reflexivity.
Qed.

(** X6: a pointer move never changes the interaction, the floor, the
    identity or default position of a region, nor the region that is not
    being dragged. *)
Theorem pointerMove_frame :
  forall vw vh b e s,
    let s' := pointerMove vw vh b e s in
    interaction s' = interaction s /\
    minWidthRatio s' = minWidthRatio s /\
    (forall r,
       Rect.id (get_rect s' r) = Rect.id (get_rect s r) /\
       Rect.defaultLeft (get_rect s' r) = Rect.defaultLeft (get_rect s r) /\
       Rect.defaultTop (get_rect s' r) = Rect.defaultTop (get_rect s r)) /\
    (forall r, dragged s <> Some r -> get_rect s' r = get_rect s r).
Proof.
  intros vw vh b e s s'. subst s'.
  destruct (pointerMove_cases vw vh b e s) as [-> | (r0 & v & Hd & -> & Hid & Hdl & Hdt)].
  - repeat split; reflexivity.
  - split; [apply interaction_set_rect|]. split; [apply minWidthRatio_set_rect|].
    split.
    + intros r. destruct r, r0; simpl in *; repeat split; assumption || reflexivity.
    + intros r Hr. apply get_set_rect_neq. intros ->. apply Hr. exact Hd.
Qed.

(** An instance: the resize of the first region leaves the second alone. *)
Lemma pointerMove_frame_witness :
  get_rect (pointerMove 3840 2160 bounds_4k (press_at 248 400) resizing_4k) Speaker2
  = get_rect resizing_4k Speaker2.
Proof.
  apply (proj2 (proj2 (proj2 (pointerMove_frame 3840%N 2160%N bounds_4k
                                (press_at 248 400) resizing_4k)))).
  discriminate.
Defined.

(** X7: the state after a pointer move that takes effect does not depend on
    the pointer moves before it: the region is placed from the values
    recorded at pointer-down and the last pointer position alone, for a move
    as for a resize. *)
Theorem last_pointer_position_wins :
  forall vw vh vw' vh' b b' e e' s,
    vw <> 0%N -> vh <> 0%N ->
    truthy (DOMRect.width b) = true -> truthy (DOMRect.height b) = true ->
    pointerMove vw vh b e (pointerMove vw' vh' b' e' s) = pointerMove vw vh b e s.
Proof.
  intros vw vh vw' vh' b b' e e' s Hw Hh Hbw Hbh.
  destruct (interaction s) as [[r start pid ct | r h start pid ct]|] eqn:Ei.
  - assert (E1 : pointerMove vw' vh' b' e' s = s \/
                 exists v, pointerMove vw' vh' b' e' s = set_rect s r v /\
                           Rect.id v = Rect.id (get_rect s r) /\
                           Rect.defaultLeft v = Rect.defaultLeft (get_rect s r) /\
                           Rect.defaultTop v = Rect.defaultTop (get_rect s r) /\
                           Rect.widthRatio v = Rect.widthRatio (get_rect s r) /\
                           Rect.heightRatio v = Rect.heightRatio (get_rect s r)).
    { unfold pointerMove. rewrite Ei.
      destruct (negb (truthy (DOMRect.width b')) || negb (truthy (DOMRect.height b')))%bool;
        [left; reflexivity|].
      right. eexists. repeat split; reflexivity. }
    destruct E1 as [-> | (v & -> & Hid & Hdl & Hdt & Hwr & Hhr)]; [reflexivity|].
    rewrite (pointerMove_move vw vh b e (set_rect s r v) r start pid ct)
      by (rewrite ?interaction_set_rect; assumption).
    rewrite (pointerMove_move vw vh b e s r start pid ct) by assumption.
    rewrite get_set_same, set_set_rect. unfold move_rect.
    rewrite Hid, Hdl, Hdt, Hwr, Hhr. reflexivity.
  - assert (E1 : pointerMove vw' vh' b' e' s = s \/
                 exists v, pointerMove vw' vh' b' e' s = set_rect s r v /\
                           Rect.id v = Rect.id (get_rect s r) /\
                           Rect.defaultLeft v = Rect.defaultLeft (get_rect s r) /\
                           Rect.defaultTop v = Rect.defaultTop (get_rect s r)).
    { unfold pointerMove. rewrite Ei.
      destruct (getPointerRatio b' e') as [p|]; [|left; reflexivity].
      unfold resizeRect. destruct (getVideoMetrics vw' vh'); [|left; reflexivity].
      right. eexists. repeat split; reflexivity. }
    destruct E1 as [-> | (v & -> & Hid & Hdl & Hdt)]; [reflexivity|].
    destruct (pointerMove_resize vw vh b e (set_rect s r v) r h start pid ct)
      as (x & y & Hp & _ & _ & ->);
      try assumption; [rewrite interaction_set_rect; assumption|].
    destruct (pointerMove_resize vw vh b e s r h start pid ct)
      as (x0 & y0 & Hp0 & _ & _ & ->); try assumption.
    rewrite Hp in Hp0. inversion Hp0; subst.
    rewrite get_set_same, set_set_rect, minWidthRatio_set_rect.
    unfold resizeRect_rect, applyValues. cbv zeta.
    rewrite Hid, Hdl, Hdt. reflexivity.
  - unfold pointerMove. rewrite Ei. unfold pointerMove. rewrite Ei. reflexivity.
Qed.

(** An instance: a resize on the 3840x2160 video, after a wild pointer
    move. *)
Lemma last_pointer_position_wins_witness :
  pointerMove 3840 2160 bounds_4k (press_at 248 400)
    (pointerMove 3840 2160 bounds_4k (press_at 900 10) resizing_4k)
  = pointerMove 3840 2160 bounds_4k (press_at 248 400) resizing_4k.
Proof.
  apply last_pointer_position_wins; reflexivity || discriminate.
Defined.

(** The geometry [applyValues] writes, in pixels. *)
Lemma resize_rect_geometry m mwr h start p rect :
  0 < Metrics.width m -> 0 < Metrics.height m ->
  exists sl st bw,
    Rect.left (resizeRect_rect m mwr h start p rect) = Some (sl / Metrics.width m) /\
    Rect.top (resizeRect_rect m mwr h start p rect) = Some (st / Metrics.height m) /\
    Rect.widthRatio (resizeRect_rect m mwr h start p rect) = bw / Metrics.width m /\
    Rect.heightRatio (resizeRect_rect m mwr h start p rect)
      = bw / TARGET_ASPECT_RATIO / Metrics.height m /\
    minWidthPx_of mwr m <= bw <= Metrics.width m /\
    0 <= sl /\ sl + bw <= Metrics.width m /\ 0 <= st /\
    (bw / TARGET_ASPECT_RATIO <= Metrics.height m ->
     st + bw / TARGET_ASPECT_RATIO <= Metrics.height m).
Proof.
  intros HW HH. unfold resizeRect_rect, applyValues. cbv zeta.
  set (a := arm m h start (fst p * Metrics.width m) (snd p * Metrics.height m)).
  set (nw := computeWidthPx m (minWidthPx_of mwr m) (dxPx a) (dyPx a) (boundsWidthPx a)).
  set (bw := clamp nw (minWidthPx_of mwr m) (Metrics.width m)).
  assert (Hbw : minWidthPx_of mwr m <= bw <= Metrics.width m)
    by (apply boundedWidthPx_bounds; assumption).
  pose proof (minWidthPx_of_pos m mwr HW) as Hfl.
  assert (Hhp : 0 <= bw / TARGET_ASPECT_RATIO)
    by (rewrite div_TARGET_ASPECT_RATIO; lra).
  destruct (safe_position (Metrics.width m) bw (newLeftPx h a nw)) as (L0 & L1 & _);
    [lra|].
  destruct (safe_position (Metrics.height m) (bw / TARGET_ASPECT_RATIO) (newTopPx h a nw)
              Hhp) as (T0 & T1 & _).
  eexists _, _, bw. simpl.
  split; [reflexivity|]. split; [reflexivity|]. split; [reflexivity|].
  split; [reflexivity|]. split; [exact Hbw|]. split; [exact L0|].
  split; [apply L1; lra|]. split; [exact T0 | exact T1].
Qed.

Lemma div_le_1_iff a w : 0 < w -> (a / w <= 1 <-> a <= w).
Proof.
  intros Hw. split; intros H.
  - assert (E : a == a / w * w) by (field; lra). rewrite E. nra.
  - apply div_le_1; assumption.
Qed.

(** X8: in exact arithmetic, every resize, on any video and from any start
    values, leaves the region with [0 <= left], [0 <= top],
    [left + widthRatio <= 1], a width ratio between 0.02 and 1 and a
    positive height ratio; the bottom edge is inside the frame exactly when
    the region is not taller than the frame.  (Exact rationals; the doubles
    of the script can exceed a bound that is met with equality here by one
    unit in the last place.) *)
Theorem resize_horizontal_containment :
  forall vw vh b e s r h start pid ct,
    interaction s = Some (Resize r h start pid ct) ->
    vw <> 0%N -> vh <> 0%N ->
    truthy (DOMRect.width b) = true -> truthy (DOMRect.height b) = true ->
    let rect := get_rect (pointerMove vw vh b e s) r in
    exists l t,
      Rect.left rect = Some l /\ Rect.top rect = Some t /\
      0 <= l /\ 0 <= t /\ l + Rect.widthRatio rect <= 1 /\
      (2 # 100) <= Rect.widthRatio rect <= 1 /\
      0 < Rect.heightRatio rect /\
      (t + Rect.heightRatio rect <= 1 <-> Rect.heightRatio rect <= 1).
Proof.
  intros vw vh b e s r h start pid ct Hi Hw Hh Hbw Hbh rect. subst rect.
  destruct (pointerMove_resize vw vh b e s r h start pid ct Hi Hw Hh Hbw Hbh)
    as (x & y & _ & _ & _ & ->).
  rewrite get_set_same.
  pose proof (N2Q_pos vw Hw) as HW. pose proof (N2Q_pos vh Hh) as HH.
  set (m := Metrics.mk (N2Q vw) (N2Q vh)).
  destruct (resize_rect_geometry m (minWidthRatio s) h start (x, y) (get_rect s r) HW HH)
    as (sl & st & bw & -> & -> & -> & -> & Hbw' & L0 & L1 & T0 & T1).
  pose proof (minWidthPx_of_bounds m (minWidthRatio s) HW) as Hfl.
  simpl Metrics.width in *. simpl Metrics.height in *.
  rewrite div_TARGET_ASPECT_RATIO in *.
  exists (sl / N2Q vw), (st / N2Q vh).
  split; [reflexivity|]. split; [reflexivity|].
  split; [apply div_nonneg; assumption|].
  split; [apply div_nonneg; assumption|].
  split; [apply div_sum_le_1; assumption|].
  split; [split; [apply Qle_shift_div_l; lra | apply div_le_1; lra]|].
  split; [apply Qlt_shift_div_l; lra|].
  rewrite div_le_1_iff by assumption.
  assert (E : st / N2Q vh + bw * (1000 # 1100) / N2Q vh
              == (st + bw * (1000 # 1100)) / N2Q vh) by (field; lra).
  rewrite E. rewrite div_le_1_iff by assumption.
  split; intros H; [lra | apply T1; exact H].
Qed.

(** An instance: the resize on the 3840x2160 video. *)
Lemma resize_horizontal_containment_witness :
  let rect := get_rect (pointerMove 3840 2160 bounds_4k (press_at 900 10) resizing_4k)
                Speaker1 in
  exists l t,
    Rect.left rect = Some l /\ Rect.top rect = Some t /\
    0 <= l /\ 0 <= t /\ l + Rect.widthRatio rect <= 1 /\
    (2 # 100) <= Rect.widthRatio rect <= 1 /\
    0 < Rect.heightRatio rect /\
    (t + Rect.heightRatio rect <= 1 <-> Rect.heightRatio rect <= 1).
Proof.
  apply (resize_horizontal_containment 3840%N 2160%N bounds_4k (press_at 900 10)
           resizing_4k Speaker1 BottomRight start_4k 1%Z
           (HandleElement Speaker1 BottomRight));
    reflexivity || discriminate.
Defined.

(** The width after a resize step, as the clamped smaller candidate. *)
Lemma resize_step_width vw vh b e s r h start pid ct x y :
  interaction s = Some (Resize r h start pid ct) ->
  vw <> 0%N -> vh <> 0%N ->
  getPointerRatio b e = Some (x, y) ->
  let m := Metrics.mk (N2Q vw) (N2Q vh) in
  let a := arm m h start (x * N2Q vw) (y * N2Q vh) in
  let floor := minWidthPx_of (minWidthRatio s) m in
  width_px vw (get_rect (pointerMove vw vh b e s) r)
  == clamp (Qmin (dxPx a) (dyPx a * TARGET_ASPECT_RATIO)) floor
       (maxWidthPx_of m floor (boundsWidthPx a)) /\
  Rect.heightRatio (get_rect (pointerMove vw vh b e s) r) * N2Q vh
  == width_px vw (get_rect (pointerMove vw vh b e s) r) / TARGET_ASPECT_RATIO.
Proof.
  intros Hi Hw Hh Hp m a floor.
  pose proof (N2Q_pos vw Hw) as HW. pose proof (N2Q_pos vh Hh) as HH.
  unfold pointerMove. rewrite Hi, Hp. unfold resizeRect.
  rewrite getVideoMetrics_known by assumption. rewrite get_set_same.
  split.
  - rewrite resize_width_px by assumption.
    unfold newWidthPx_of, computeWidthPx. cbv zeta. fold m. fold a. fold floor.
    fold (maxWidthPx_of m floor (boundsWidthPx a)).
    apply clamp_candidate. apply Qlt_le_weak. apply minWidthPx_of_pos. exact HW.
  - unfold width_px, resizeRect_rect, applyValues. cbv zeta. simpl.
    rewrite !div_TARGET_ASPECT_RATIO. field. split; lra.
Qed.

Lemma arm_bound_pointer m h start px py px' py' :
  boundsWidthPx (arm m h start px py) = boundsWidthPx (arm m h start px' py').
Proof. destruct h; reflexivity. Qed.

Lemma arm_farther m h start x y x' y' :
  0 < Metrics.width m -> 0 < Metrics.height m ->
  farther h (x, y) (x', y') ->
  dxPx (arm m h start (x * Metrics.width m) (y * Metrics.height m))
    <= dxPx (arm m h start (x' * Metrics.width m) (y' * Metrics.height m)) /\
  dyPx (arm m h start (x * Metrics.width m) (y * Metrics.height m))
    <= dyPx (arm m h start (x' * Metrics.width m) (y' * Metrics.height m)).
Proof.
  intros HW HH Hf.
  destruct h; destruct Hf as [Hx Hy]; simpl in Hx, Hy;
    unfold arm; cbv zeta; cbn [dxPx dyPx]; split; nra.
Qed.

(** X9: during a resize the width follows the pointer monotonically: of two
    pointer positions, the one at least as far from the anchor on both axes
    (in the directions the handle grows) gives a region at least as wide.
    Dragging towards the anchor therefore never widens the region. *)
Theorem resize_width_monotone :
  forall vw vh b b' e e' s r h start pid ct p p',
    interaction s = Some (Resize r h start pid ct) ->
    vw <> 0%N -> vh <> 0%N ->
    getPointerRatio b e = Some p -> getPointerRatio b' e' = Some p' ->
    farther h p p' ->
    width_px vw (get_rect (pointerMove vw vh b e s) r)
    <= width_px vw (get_rect (pointerMove vw vh b' e' s) r).
Proof.
  intros vw vh b b' e e' s r h start pid ct [x y] [x' y'] Hi Hw Hh Hp Hp' Hf.
  pose proof (N2Q_pos vw Hw) as HW. pose proof (N2Q_pos vh Hh) as HH.
  destruct (resize_step_width vw vh b e s r h start pid ct x y Hi Hw Hh Hp) as [-> _].
  destruct (resize_step_width vw vh b' e' s r h start pid ct x' y' Hi Hw Hh Hp') as [-> _].
  set (m := Metrics.mk (N2Q vw) (N2Q vh)).
  destruct (arm_farther m h start x y x' y' HW HH Hf) as [Hdx Hdy].
  simpl Metrics.width in *. simpl Metrics.height in *.
  rewrite (arm_bound_pointer m h start (x * N2Q vw) (y * N2Q vh) (x' * N2Q vw) (y' * N2Q vh)).
  set (a := arm m h start (x * N2Q vw) (y * N2Q vh)) in *.
  set (a' := arm m h start (x' * N2Q vw) (y' * N2Q vh)) in *.
  set (dx := dxPx a) in *. set (dy := dyPx a) in *.
  set (dx' := dxPx a') in *. set (dy' := dyPx a') in *.
  set (floor := minWidthPx_of (minWidthRatio s) m).
  set (upper := maxWidthPx_of m floor (boundsWidthPx a')).
  clearbody dx dy dx' dy' floor upper.
  rewrite TARGET_ASPECT_RATIO_value. minmax.
Qed.

(** An instance: on the 3840x2160 video the bottom-right handle dragged from
    overlay point (248, 400) further out to (300, 420). *)
Lemma resize_width_monotone_witness :
  width_px 3840 (get_rect (pointerMove 3840 2160 bounds_4k (press_at 248 400) resizing_4k)
                   Speaker1)
  <= width_px 3840 (get_rect (pointerMove 3840 2160 bounds_4k (press_at 300 420) resizing_4k)
                      Speaker1).
Proof.
  apply (resize_width_monotone 3840%N 2160%N bounds_4k bounds_4k
           (press_at 248 400) (press_at 300 420) resizing_4k Speaker1 BottomRight start_4k
           1%Z (HandleElement Speaker1 BottomRight) (248 # 960, 400 # 540)
           (300 # 960, 420 # 540));
    try reflexivity; try discriminate.
  split; vm_compute; discriminate.
Defined.

(** X10: a pointer on the anchor, or beyond it on either axis (a horizontal
    or a vertical anchor-to-pointer distance that is not positive), gives
    exactly the floor width [max(min(minWidthRatio, 1), 0.02) * videoWidth]:
    the region stops shrinking at the floor and stays there. *)
Theorem resize_at_anchor_gives_floor :
  forall vw vh b e s r h start pid ct,
    interaction s = Some (Resize r h start pid ct) ->
    vw <> 0%N -> vh <> 0%N ->
    ~ DOMRect.width b == 0 -> ~ DOMRect.height b == 0 ->
    let W := N2Q vw in
    let H := N2Q vh in
    let anchor := anchor_of h start in
    let pointer := spec_pointer_px W H b e in
    spec_horizontal_distance h anchor pointer <= 0 \/
    spec_vertical_distance h anchor pointer <= 0 ->
    width_px vw (get_rect (pointerMove vw vh b e s) r)
    == Qmax (Qmin (minWidthRatio s) 1) (2 # 100) * W.
Proof.
  intros vw vh b e s r h start pid ct Hi Hw Hh Hbw Hbh W H anchor pointer Hbehind.
  destruct (resize_step_spec vw vh b e s r h start pid ct Hi Hw Hh Hbw Hbh)
    as (Ew & _ & Hfl & Hup & _).
  fold W H anchor pointer in Ew, Hfl, Hup.
  rewrite Ew.
  set (floor := Qmax (Qmin (minWidthRatio s) 1) (2 # 100) * W) in *.
  set (upper := Qmax (Qmin (spec_frame_edge_bound W H h anchor) W) floor) in *.
  set (horizontal := spec_horizontal_distance h anchor pointer) in *.
  set (vertical := spec_vertical_distance h anchor pointer) in *.
  clearbody floor upper horizontal vertical.
  destruct Hbehind; minmax.
Qed.

(** An instance: the bottom-right handle dragged to the top-left corner of
    the overlay, beyond the anchor (192, 216), leaves the region 550 pixels
    wide. *)
Lemma resize_at_anchor_gives_floor_witness :
  spec_horizontal_distance BottomRight (anchor_of BottomRight start_4k)
    (spec_pointer_px (N2Q 3840) (N2Q 2160) bounds_4k (press_at 0 0)) == - (192) /\
  width_px 3840 (get_rect (pointerMove 3840 2160 bounds_4k (press_at 0 0) resizing_4k)
                   Speaker1)
  == 550.
Proof.
  split; [reflexivity|].
  assert (Hnz : forall q : Q, 0 < q -> ~ q == 0)
    by (intros q Hq E; rewrite E in Hq; discriminate Hq).
  pose proof (resize_at_anchor_gives_floor 3840%N 2160%N bounds_4k (press_at 0 0)
                resizing_4k Speaker1 BottomRight start_4k 1%Z
                (HandleElement Speaker1 BottomRight) eq_refl
                ltac:(discriminate) ltac:(discriminate)
                (Hnz 960 eq_refl) (Hnz 540 eq_refl)) as Hstep.
  cbv zeta in Hstep. rewrite Hstep; [reflexivity|].
  left. vm_compute. discriminate.
Defined.

(** X11: the resized region never reaches past the pointer unless the floor
    forces it: its pixel width is at most the larger of the horizontal
    anchor-to-pointer distance and the floor
    [max(min(minWidthRatio, 1), 0.02) * videoWidth], and its pixel height at
    most the larger of the vertical distance and the floor height (the
    floor times 1000/1100). *)
Theorem resize_within_pointer_envelope :
  forall vw vh b e s r h start pid ct,
    interaction s = Some (Resize r h start pid ct) ->
    vw <> 0%N -> vh <> 0%N ->
    ~ DOMRect.width b == 0 -> ~ DOMRect.height b == 0 ->
    let W := N2Q vw in
    let H := N2Q vh in
    let anchor := anchor_of h start in
    let pointer := spec_pointer_px W H b e in
    let floor := Qmax (Qmin (minWidthRatio s) 1) (2 # 100) * W in
    let rect := get_rect (pointerMove vw vh b e s) r in
    width_px vw rect <= Qmax (spec_horizontal_distance h anchor pointer) floor /\
    Rect.heightRatio rect * H
    <= Qmax (spec_vertical_distance h anchor pointer) (floor * (1000 # 1100)).
Proof.
  intros vw vh b e s r h start pid ct Hi Hw Hh Hbw Hbh W H anchor pointer floor rect.
  destruct (resize_step_spec vw vh b e s r h start pid ct Hi Hw Hh Hbw Hbh)
    as (Ew & Eh & Hfl & Hup & _).
  fold W H anchor pointer floor rect in Ew, Eh, Hfl, Hup.
  rewrite Eh, Ew.
  set (upper := Qmax (Qmin (spec_frame_edge_bound W H h anchor) W) floor) in *.
  set (horizontal := spec_horizontal_distance h anchor pointer) in *.
  set (vertical := spec_vertical_distance h anchor pointer) in *.
  clearbody floor upper horizontal vertical. clear Ew Eh.
  split; minmax.
Qed.

(** An instance: the resize on the 3840x2160 video to overlay point
    (248, 400), 800 pixels right of the anchor and 1384 below it, leaves a
    region at most 800 pixels wide and 1384 high. *)
Lemma resize_within_pointer_envelope_witness :
  let rect := get_rect (pointerMove 3840 2160 bounds_4k (press_at 248 400) resizing_4k)
                Speaker1 in
  width_px 3840 rect <= 800 /\ Rect.heightRatio rect * N2Q 2160 <= 1384.
Proof.
  assert (Hnz : forall q : Q, 0 < q -> ~ q == 0)
    by (intros q Hq E; rewrite E in Hq; discriminate Hq).
  pose proof (resize_within_pointer_envelope 3840%N 2160%N bounds_4k (press_at 248 400)
                resizing_4k Speaker1 BottomRight start_4k 1%Z
                (HandleElement Speaker1 BottomRight) eq_refl
                ltac:(discriminate) ltac:(discriminate)
                (Hnz 960 eq_refl) (Hnz 540 eq_refl)) as Hstep.
  cbv zeta in Hstep. destruct Hstep as [Hwidth Hheight]. cbv zeta.
  split.
  - eapply Qle_trans; [exact Hwidth|]. vm_compute. discriminate.
  - eapply Qle_trans; [exact Hheight|]. vm_compute. discriminate.
Defined.

(** ** Runs of events *)

Lemma forall_set_rect (P : Rect.t -> Prop) s r v :
  P v -> (forall r', P (get_rect s r')) -> forall r', P (get_rect (set_rect s r v) r').
Proof.
  intros Hv Hall r'. destruct r, r'; simpl; auto;
    apply (Hall Speaker1) || apply (Hall Speaker2).
Qed.

Lemma pointerMoves_interaction vw vh moves s :
  interaction (pointerMoves vw vh moves s) = interaction s.
Proof.
  revert s. induction moves as [|[b e] moves IH]; intros s; [reflexivity|].
  unfold pointerMoves in *. simpl. rewrite IH.
  destruct (pointerMove_cases vw vh b e s) as [-> | (r & v & _ & -> & _)];
    [reflexivity | apply interaction_set_rect].
Qed.

(** X12: after a pointer-up or pointer-cancel no interaction is left, no
    region has changed, and pointer moves that follow change nothing. *)
Theorem endDrag_stops_the_drag :
  forall vw vh moves s,
    interaction (endDrag s) = None /\
    (forall r, get_rect (endDrag s) r = get_rect s r) /\
    minWidthRatio (endDrag s) = minWidthRatio s /\
    pointerMoves vw vh moves (endDrag s) = endDrag s.
Proof.
  intros vw vh moves s.
  split; [reflexivity|]. split; [intros r; destruct r; reflexivity|].
  split; [reflexivity|].
  induction moves as [|[b e] moves IH]; [reflexivity|].
  unfold pointerMoves in *. simpl. exact IH.
Qed.

(** X19: the pointer capture released at pointer-up is the one taken at
    pointer-down, on the same element and for the same pointer id, whatever
    pointer moves came in between; nothing is released for a pointer id of 0
    (it is falsy in the guard of [endDrag]) and nothing at a second
    pointer-up. *)
Theorem release_matches_capture :
  (forall vw vh e r s moves l t,
     positioned (get_rect s r) = Some (l, t) ->
     endDrag_release (pointerMoves vw vh moves (pointerDown e r s))
     = if Z.eqb (PointerEvent.pointerId e) 0 then None
       else Some (RectElement r, PointerEvent.pointerId e)) /\
  (forall vw vh e r h s moves l t,
     positioned (get_rect s r) = Some (l, t) ->
     vw <> 0%N -> vh <> 0%N ->
     endDrag_release (pointerMoves vw vh moves (pointerDownResize vw vh e r h s))
     = if Z.eqb (PointerEvent.pointerId e) 0 then None
       else Some (HandleElement r h, PointerEvent.pointerId e)) /\
  (forall s, endDrag_release (endDrag s) = None).
Proof.
  split; [|split].
  - intros vw vh e r s moves l t Hp. unfold endDrag_release.
    rewrite pointerMoves_interaction. unfold pointerDown. rewrite Hp. reflexivity.
  - intros vw vh e r h s moves l t Hp Hw Hh. unfold endDrag_release.
    rewrite pointerMoves_interaction. unfold pointerDownResize. rewrite Hp.
    rewrite getVideoMetrics_known by assumption. reflexivity.
  - reflexivity.
Qed.

(** Instances: a press on the body of region two with pointer id 7, and a
    press on a handle with pointer id 0. *)
Lemma release_matches_capture_witness :
  endDrag_release
    (pointerMoves 3840 2160 [(bounds_4k, press_at 5 5)]
       (pointerDown (PointerEvent.mk 10 20 7) Speaker2 resizing_4k))
  = Some (RectElement Speaker2, 7%Z) /\
  endDrag_release
    (pointerMoves 3840 2160 [(bounds_4k, press_at 5 5)]
       (pointerDownResize 3840 2160 (PointerEvent.mk 10 20 0) Speaker2 TopLeft resizing_4k))
  = None.
Proof.
  destruct release_matches_capture as (Hbody & Hhandle & _).
  split.
  - apply (Hbody 3840%N 2160%N (PointerEvent.mk 10 20 7) Speaker2 resizing_4k
             [(bounds_4k, press_at 5 5)] (6 # 10) (55 # 100)).
    reflexivity.
  - apply (Hhandle 3840%N 2160%N (PointerEvent.mk 10 20 0) Speaker2 TopLeft resizing_4k
             [(bounds_4k, press_at 5 5)] (6 # 10) (55 # 100));
      reflexivity || discriminate.
Defined.

Lemma dispatch_ids env ev s r :
  Rect.id (get_rect (dispatch env ev s) r) = Rect.id (get_rect s r).
Proof.
  destruct ev; simpl.
  - unfold updateRectSizeFromVideo.
    destruct (N.eqb (videoWidth env) 0 || N.eqb (videoHeight env) 0)%bool; [reflexivity|].
    destruct r; simpl; unfold size_rect;
      match goal with
      | |- context [Rect.left ?x] => destruct (Rect.left x), (Rect.top x); reflexivity
      end.
  - unfold pointerDown. destruct (positioned (get_rect s r0)) as [[l t]|];
      destruct r; reflexivity.
  - unfold pointerDownResize, pointerDown.
    destruct (positioned (get_rect s r0)) as [[l t]|];
      destruct (getVideoMetrics (videoWidth env) (videoHeight env));
      destruct r; reflexivity.
  - destruct (pointerMove_cases (videoWidth env) (videoHeight env) (bounds env) e s)
      as [-> | (r0 & v & _ & -> & Hid & _)]; [reflexivity|].
    destruct r, r0; simpl in *; assumption || reflexivity.
  - destruct r; reflexivity.
  - destruct r; reflexivity.
Qed.

(** X14: whatever events the page has seen, with whatever video and overlay,
    the submitted payload has exactly two entries, for [rect-speaker-1] and
    [rect-speaker-2] in that order. *)
Theorem request_regions_ids :
  forall trace,
    map Region.id (request_regions (run trace initial_state))
    = ["rect-speaker-1"%string; "rect-speaker-2"%string].
Proof.
  intros trace.
  assert (H : forall s r, Rect.id (get_rect (run trace s) r) = Rect.id (get_rect s r)).
  { unfold run. induction trace as [|[env ev] trace IH]; intros s r; [reflexivity|].
    simpl. rewrite IH. apply dispatch_ids. }
  pose proof (H initial_state Speaker1) as H1. pose proof (H initial_state Speaker2) as H2.
  unfold request_regions, serialize. cbn [map Region.id get_rect] in *.
  rewrite H1, H2. reflexivity.
Qed.

Lemma sized_rect_size_rect vw vh rect :
  vw <> 0%N -> vh <> 0%N ->
  sized_rect vw vh
    (size_rect (TARGET_ASPECT.width / N2Q vw) (TARGET_ASPECT.height / N2Q vh) rect).
Proof.
  intros Hw Hh.
  pose proof (N2Q_pos vw Hw) as HW. pose proof (N2Q_pos vh Hh) as HH.
  destruct (size_rect_fields (TARGET_ASPECT.width / N2Q vw)
              (TARGET_ASPECT.height / N2Q vh) rect) as (E1 & E2 & l & t & El & Et).
  eexists _, _. rewrite E1, E2.
  split; [exact El|]. split; [exact Et|].
  split; [minmax|]. split; [minmax|].
  unfold TARGET_ASPECT.width, TARGET_ASPECT.height.
  split; [apply Qlt_shift_div_l; lra|]. split; [apply Qlt_shift_div_l; lra|].
  rewrite TARGET_ASPECT_RATIO_value. field. split; lra.
Qed.

Lemma sized_rect_move vw vh b start e rect :
  sized_rect vw vh rect -> sized_rect vw vh (move_rect b start e rect).
Proof.
  intros (l & t & _ & _ & _ & _ & Hw & Hh & Ha).
  unfold move_rect. eexists _, _. simpl.
  split; [reflexivity|]. split; [reflexivity|].
  split; [minmax|]. split; [minmax|]. auto.
Qed.

Lemma sized_rect_resize vw vh mwr h start p rect :
  vw <> 0%N -> vh <> 0%N ->
  sized_rect vw vh (resizeRect_rect (Metrics.mk (N2Q vw) (N2Q vh)) mwr h start p rect).
Proof.
  intros Hw Hh.
  pose proof (N2Q_pos vw Hw) as HW. pose proof (N2Q_pos vh Hh) as HH.
  set (m := Metrics.mk (N2Q vw) (N2Q vh)).
  destruct (resize_rect_geometry m mwr h start p rect HW HH)
    as (sl & st & bw & El & Et & Ew & Eh & Hbw & L0 & _ & T0 & _).
  pose proof (minWidthPx_of_pos m mwr HW) as Hfl.
  exists (sl / N2Q vw), (st / N2Q vh). rewrite Ew, Eh.
  simpl Metrics.width in *. simpl Metrics.height in *.
  rewrite div_TARGET_ASPECT_RATIO.
  split; [exact El|]. split; [exact Et|].
  split; [apply div_nonneg; assumption|]. split; [apply div_nonneg; assumption|].
  split; [apply Qlt_shift_div_l; lra|]. split; [apply Qlt_shift_div_l; lra|].
  rewrite TARGET_ASPECT_RATIO_value. field. split; lra.
Qed.

Lemma sized_inv_step vw vh env ev s :
  vw <> 0%N -> vh <> 0%N ->
  videoWidth env = vw -> videoHeight env = vh ->
  sized_inv vw vh s -> sized_inv vw vh (dispatch env ev s).
Proof.
  intros Hw Hh Ew Eh Hinv.
  destruct ev; simpl dispatch; rewrite ?Ew, ?Eh.
  - right. intros r. rewrite get_rect_update by assumption.
    apply sized_rect_size_rect; assumption.
  - destruct Hinv as [(P1 & P2 & Hi) | Hs].
    + left. unfold pointerDown.
      replace (positioned (get_rect s r)) with (@None (Q * Q)) by (destruct r; auto).
      auto.
    + right. intros r'. unfold pointerDown.
      destruct (positioned (get_rect s r)) as [[l t]|]; [|apply Hs].
      destruct r'; apply (Hs Speaker1) || apply (Hs Speaker2).
  - destruct Hinv as [(P1 & P2 & Hi) | Hs].
    + left. unfold pointerDown.
      replace (positioned (get_rect s r)) with (@None (Q * Q)) by (destruct r; auto).
      auto.
    + right. intros r'. unfold pointerDownResize, pointerDown.
      destruct (positioned (get_rect s r)) as [[l t]|];
        destruct (getVideoMetrics vw vh);
        destruct r'; apply (Hs Speaker1) || apply (Hs Speaker2).
  - pose proof Hinv as Hsame.
    destruct Hinv as [(P1 & P2 & Hi) | Hs].
    + unfold pointerMove. rewrite Hi. exact Hsame.
    + unfold pointerMove.
      destruct (interaction s) as [[r start pid ct | r h start pid ct]|];
        [| |exact Hsame].
      * destruct (negb (truthy (DOMRect.width (bounds env)))
                  || negb (truthy (DOMRect.height (bounds env))))%bool; [exact Hsame|].
        right. apply forall_set_rect; [|exact Hs]. apply sized_rect_move. apply Hs.
      * destruct (getPointerRatio (bounds env) e) as [p|]; [|exact Hsame].
        unfold resizeRect. rewrite getVideoMetrics_known by assumption.
        right. apply forall_set_rect; [|exact Hs]. apply sized_rect_resize; assumption.
  - destruct Hinv as [(P1 & P2 & Hi) | Hs]; [left; auto|].
    right. intros r. destruct r; apply (Hs Speaker1) || apply (Hs Speaker2).
  - destruct Hinv as [(P1 & P2 & Hi) | Hs]; [left; auto|].
    right. intros r. destruct r; apply (Hs Speaker1) || apply (Hs Speaker2).
Qed.

Lemma sized_inv_run vw vh trace s :
  vw <> 0%N -> vh <> 0%N ->
  fixed_video vw vh trace ->
  sized_inv vw vh s -> sized_inv vw vh (run trace s).
Proof.
  intros Hw Hh Hfix. revert s.
  induction Hfix as [|[env ev] trace [Ew Eh] _ IH]; intros s Hinv; [exact Hinv|].
  unfold run. simpl. apply IH. apply sized_inv_step; assumption.
Qed.

(** X13: while the page shows one video, of any size, every positioned
    region in every reachable state has non-negative [left] and [top],
    positive width and height ratios, and a pixel-space aspect of exactly
    1100/1000. *)
Theorem reachable_regions_are_sized :
  forall vw vh trace r,
    vw <> 0%N -> vh <> 0%N ->
    fixed_video vw vh trace ->
    let rect := get_rect (run trace initial_state) r in
    positioned rect = None \/
    (sized_rect vw vh rect /\ pixel_aspect vw vh rect == TARGET_ASPECT_RATIO).
Proof.
  intros vw vh trace r Hw Hh Hfix rect.
  assert (Hinv : sized_inv vw vh (run trace initial_state)).
  { apply sized_inv_run; try assumption. left. repeat split; reflexivity. }
  subst rect. destruct Hinv as [(P1 & P2 & _) | Hs].
  - left. destruct r; assumption.
  - right. split; [apply Hs|].
    destruct (Hs r) as (l & t & _ & _ & _ & _ & Hwr & Hhr & Ha).
    pose proof (N2Q_pos vh Hh) as HH.
    unfold pixel_aspect. rewrite Ha.
    set (d := Rect.heightRatio (get_rect (run trace initial_state) r) * N2Q vh) in *.
    assert (Hd : 0 < d) by (unfold d; nra).
    clearbody d. field. lra.
Qed.

(** An instance: the 1280x720 video, on which the regions overflow the
    frame but keep the aspect. *)
Lemma reachable_regions_are_sized_witness :
  let rect := get_rect (run [ (env_1280x720, LoadedMetadata);
                              (env_1280x720, PointerDownRect Speaker1 (press_at 5 5));
                              (env_1280x720, PointerMoved (press_at 50 50)) ]
                          initial_state) Speaker1 in
  positioned rect = None \/
  (sized_rect 1280 720 rect /\ pixel_aspect 1280 720 rect == TARGET_ASPECT_RATIO).
Proof.
  apply (reachable_regions_are_sized 1280%N 720%N); try discriminate.
  repeat constructor.
Defined.

Lemma size_rect_positioned cw ch rect : positioned (size_rect cw ch rect) <> None.
Proof.
  unfold positioned, size_rect.
  destruct (Rect.left rect), (Rect.top rect); simpl; discriminate.
Qed.

Lemma dispatch_keeps_positioned env ev s r :
  positioned (get_rect s r) <> None ->
  positioned (get_rect (dispatch env ev s) r) <> None.
Proof.
  intros Hp. destruct ev; simpl.
  - unfold updateRectSizeFromVideo.
    destruct (N.eqb (videoWidth env) 0 || N.eqb (videoHeight env) 0)%bool; [exact Hp|].
    destruct r; apply size_rect_positioned.
  - unfold pointerDown. destruct (positioned (get_rect s r0)) as [[l t]|];
      destruct r; exact Hp.
  - unfold pointerDownResize, pointerDown.
    destruct (positioned (get_rect s r0)) as [[l t]|];
      destruct (getVideoMetrics (videoWidth env) (videoHeight env));
      destruct r; exact Hp.
  - unfold pointerMove.
    destruct (interaction s) as [[r0 start pid ct | r0 h start pid ct]|]; [| |exact Hp].
    + destruct (negb (truthy (DOMRect.width (bounds env)))
                || negb (truthy (DOMRect.height (bounds env))))%bool; [exact Hp|].
      destruct r, r0; simpl; try exact Hp; discriminate.
    + destruct (getPointerRatio (bounds env) e) as [p|]; [|exact Hp].
      unfold resizeRect.
      destruct (getVideoMetrics (videoWidth env) (videoHeight env)); [|exact Hp].
      destruct r, r0; simpl; try exact Hp; discriminate.
  - destruct r; exact Hp.
  - destruct r; exact Hp.
Qed.

Lemma run_keeps_positioned trace s r :
  positioned (get_rect s r) <> None ->
  positioned (get_rect (run trace s) r) <> None.
Proof.
  revert s. unfold run.
  induction trace as [|[env ev] trace IH]; intros s Hp; [exact Hp|].
  simpl. apply IH. apply dispatch_keeps_positioned. exact Hp.
Qed.

Lemma positioned_after_metadata vw vh trace env0 s r :
  vw <> 0%N -> vh <> 0%N ->
  fixed_video vw vh trace ->
  In (env0, LoadedMetadata) trace ->
  positioned (get_rect (run trace s) r) <> None.
Proof.
  intros Hw Hh Hfix. revert s.
  induction Hfix as [|[env ev] trace [Ew Eh] _ IH]; intros s Hin; [contradiction|].
  destruct Hin as [E | Hin].
  - inversion E; subst. change (run ((env0, LoadedMetadata) :: trace) s)
      with (run trace (updateRectSizeFromVideo (videoWidth env0) (videoHeight env0) s)).
    apply run_keeps_positioned. rewrite get_rect_update by assumption.
    apply size_rect_positioned.
  - apply (IH (dispatch env ev s) Hin).
Qed.

(** X15: in exact arithmetic, for a video at least 1100 pixels wide and
    1000 high, and no wider than 55 times its height, once the metadata
    event has been handled every entry of the submitted payload has [x] and
    [y] in [[0, 1]] and [width] and [height] in [(0, 1]], whatever moves and
    resizes came before.  (Exact rationals; with the doubles of the script
    a value that is exactly 1 here can be sent as 1.0000000000000002.) *)
Theorem request_regions_in_unit_square :
  forall vw vh trace env0 reg,
    (1100 <= vw)%N -> (1000 <= vh)%N -> (vw <= 55 * vh)%N ->
    fixed_video vw vh trace ->
    In (env0, LoadedMetadata) trace ->
    In reg (request_regions (run trace initial_state)) ->
    exists x y,
      Region.x reg = Some x /\ Region.y reg = Some y /\
      0 <= x <= 1 /\ 0 <= y <= 1 /\
      0 < Region.width reg <= 1 /\ 0 < Region.height reg <= 1.
Proof.
  intros vw vh trace env0 reg H1 H2 H3 Hfix Hmeta Hin.
  assert (Hw : vw <> 0%N) by lia. assert (Hh : vh <> 0%N) by lia.
  assert (Hrect : forall r,
            contained (get_rect (run trace initial_state) r) /\
            sized_rect vw vh (get_rect (run trace initial_state) r)).
  { intros r.
    pose proof (positioned_after_metadata vw vh trace env0 initial_state r Hw Hh Hfix Hmeta)
      as Hp.
    assert (Hc : in_frame_inv vw vh (run trace initial_state)).
    { apply in_frame_inv_run; try assumption. left. repeat split; reflexivity. }
    assert (Hs : sized_inv vw vh (run trace initial_state)).
    { apply sized_inv_run; try assumption. left. repeat split; reflexivity. }
    split.
    - destruct Hc as [(P1 & P2 & _) | (Hc & _)]; [|apply Hc].
      exfalso. apply Hp. destruct r; assumption.
    - destruct Hs as [(P1 & P2 & _) | Hs]; [|apply Hs].
      exfalso. apply Hp. destruct r; assumption. }
  assert (Hreg : forall r, reg = serialize (get_rect (run trace initial_state) r) ->
            exists x y,
              Region.x reg = Some x /\ Region.y reg = Some y /\
              0 <= x <= 1 /\ 0 <= y <= 1 /\
              0 < Region.width reg <= 1 /\ 0 < Region.height reg <= 1).
  { intros r ->. destruct (Hrect r) as [(l & t & El & Et & Hl & Ht & Hlw & Hth) Hs].
    destruct Hs as (l' & t' & _ & _ & _ & _ & Hwr & Hhr & _).
    exists l, t. unfold serialize. simpl.
    repeat split; try assumption; lra. }
  unfold request_regions in Hin. destruct Hin as [E | [E | []]].
  - apply (Hreg Speaker1). symmetry. exact E.
  - apply (Hreg Speaker2). symmetry. exact E.
Qed.

(** An instance: the payload after the resize trace on the 1920x1080
    video. *)
Lemma request_regions_in_unit_square_witness :
  exists x y,
    Region.x (serialize (rect1 (run resize_trace_1920x1080 initial_state))) = Some x /\
    Region.y (serialize (rect1 (run resize_trace_1920x1080 initial_state))) = Some y /\
    0 <= x <= 1 /\ 0 <= y <= 1 /\
    0 < Region.width (serialize (rect1 (run resize_trace_1920x1080 initial_state))) <= 1 /\
    0 < Region.height (serialize (rect1 (run resize_trace_1920x1080 initial_state))) <= 1.
Proof.
  apply (request_regions_in_unit_square 1920%N 1080%N resize_trace_1920x1080 env_1920x1080).
  - vm_compute. discriminate.
  - vm_compute. discriminate.
  - vm_compute. discriminate.
  - repeat constructor.
  - left. reflexivity.
  - left. reflexivity.
Defined.

(** ** [handleConfirm] *)

(** X16: the page a submission settles on depends on the outcome of the
    request alone: feedback, exports and button state left by an earlier
    submission never survive. *)
Theorem handleConfirm_forgets_previous_page :
  forall outcome p p', handleConfirm outcome p = handleConfirm outcome p'.
Proof. intros outcome p p'. reflexivity. Qed.

(** X17: the exports list is filled exactly when a success response can be
    read and its outputs (the [outputs] member of the body) are a non-empty
    list of items the page can render, and then with those items in order
    and the "Export complete!" success state; in every other case the list
    is empty and the state is not the success state.  A settled submission
    is never left in the pending state. *)
Theorem handleConfirm_exports :
  forall outcome p,
    let p' := handleConfirm outcome p in
    (forall result items,
       outcome = Response true (Parsed result) ->
       outputs_of result (JArr items) -> items <> [] ->
       Forall well_formed_item items ->
       exports p' = items /\ feedback_status p' = Some success /\
       feedback_text p' = Text "Export complete!") /\
    (exports p' <> [] ->
     exists result,
       outcome = Response true (Parsed result) /\
       outputs_of result (JArr (exports p')) /\
       Forall well_formed_item (exports p')) /\
    (feedback_status p' = Some success <-> exports p' <> []) /\
    feedback_status p' <> Some pending /\ feedback_status p' <> None.
Proof.
  intros outcome p p'. subst p'.
  destruct outcome as [m | [|] [result | m]];
    try (split; [intros r l E; discriminate E|];
         split; [intros H; contradiction H; reflexivity|];
         split; [split; [discriminate | intros H; contradiction H; reflexivity]|];
         split; discriminate).
  destruct (handleConfirm_ok_parsed_cases result p)
    as [[-> ->] | (o & Hof & [[Hno ->] | [(Hnot & l & -> & Hall & ->) | (Hnot & Hbad & ->)]])];
    cbn [exports feedback_status feedback_text].
  - split; [intros r l E Hof; injection E as <-; inversion Hof|].
    split; [intros H; contradiction H; reflexivity|].
    split; [split; [discriminate | intros H; contradiction H; reflexivity]|].
    split; discriminate.
  - split.
    { intros r l E Hof' Hne _. injection E as <-.
      rewrite (outputs_of_functional _ _ _ Hof Hof') in Hno.
      inversion Hno. subst l. contradiction Hne. reflexivity. }
    split; [intros H; contradiction H; reflexivity|].
    split; [split; [discriminate | intros H; contradiction H; reflexivity]|].
    split; discriminate.
  - assert (Hne : l <> []) by (intros ->; apply Hnot; constructor).
    split.
    { intros r l' E Hof' _ _. injection E as <-.
      pose proof (outputs_of_functional _ _ _ Hof Hof') as El. injection El as <-.
      repeat split; reflexivity. }
    split; [intros _; exists result; repeat split; assumption|].
    split; [split; [intros _; exact Hne | reflexivity]|].
    split; discriminate.
  - split.
    { intros r l E Hof' _ Hall. injection E as <-.
      rewrite (outputs_of_functional _ _ _ Hof Hof') in Hbad.
      exfalso. apply Hbad. exists l. split; [reflexivity | exact Hall]. }
    split; [intros H; contradiction H; reflexivity|].
    split; [split; [discriminate | intros H; contradiction H; reflexivity]|].
    split; discriminate.
Qed.

(** An instance: a success response with one output. *)
Lemma handleConfirm_exports_witness :
  let o := JObj [ ("label"%string, JStr "Speaker 1");
                  ("crop"%string,
                   JObj [ ("width"%string, JNum 1100); ("height"%string, JNum 1000);
                          ("x"%string, JNum 96); ("y"%string, JNum 80) ]);
                  ("url"%string, JStr "/download/speaker1.mp4") ] in
  let p' := handleConfirm (Response true (Parsed (JObj [("outputs"%string, JArr [o])])))
              blank_page in
  exports p' = [o] /\ feedback_status p' = Some success /\
  feedback_text p' = Text "Export complete!".
Proof.
  intros o p'.
  apply (proj1 (handleConfirm_exports
                  (Response true (Parsed (JObj [("outputs"%string, JArr [o])]))) blank_page)
           (JObj [("outputs"%string, JArr [o])]) [o] eq_refl).
  - apply outputs_member. reflexivity.
  - discriminate.
  - apply Forall_cons; [|apply Forall_nil].
    eapply well_formed_item_intro; [reflexivity | | exact (has_text_str _) ..].
    apply crop_obj; exact (has_text_num _).
Defined.

(** ** A resize that starts on the corner *)

(** With the pointer on the dragged corner of the start rectangle, the
    pixel geometry [applyValues] computes is the start geometry. *)
Lemma resize_on_corner_px m mwr h start px py :
  0 < Metrics.width m -> 0 < Metrics.height m ->
  start_in_frame m start ->
  minWidthPx_of mwr m <= ResizeStart.widthPx start ->
  ResizeStart.heightPx start * TARGET_ASPECT_RATIO == ResizeStart.widthPx start ->
  let floor := minWidthPx_of mwr m in
  let a := arm m h start px py in
  dxPx a == ResizeStart.widthPx start ->
  dyPx a == ResizeStart.heightPx start ->
  let nw := computeWidthPx m floor (dxPx a) (dyPx a) (boundsWidthPx a) in
  let bw := clamp nw floor (Metrics.width m) in
  let hp := bw / TARGET_ASPECT_RATIO in
  let sl := clamp (newLeftPx h a nw) 0 (Qmax (Metrics.width m - bw) 0) in
  let st := clamp (newTopPx h a nw) 0 (Qmax (Metrics.height m - hp) 0) in
  bw == ResizeStart.widthPx start /\ hp == ResizeStart.heightPx start /\
  sl == ResizeStart.leftPx start /\ st == ResizeStart.topPx start.
Proof.
  intros HW HH Hin Hfw Hasp floor a Hdx Hdy nw bw hp sl st.
  assert (Hfh : minWidthPx_of mwr m <= ResizeStart.heightPx start * TARGET_ASPECT_RATIO)
    by (rewrite Hasp; exact Hfw).
  pose proof (resize_keeps_anchor_px m mwr h start px py HW HH Hin Hfw Hfh) as Hanchor.
  cbv zeta in Hanchor. fold floor a nw bw hp sl st in Hanchor.
  assert (Hroom : ResizeStart.widthPx start <= boundsWidthPx a /\
                  boundsWidthPx a <= Metrics.width m).
  { destruct (arm_bound_room m h start px py (ResizeStart.widthPx start) Hin)
      as (H1 & H2 & _); [lra | rewrite Hasp; lra |]. split; assumption. }
  pose proof (minWidthPx_of_bounds m mwr HW) as Hfl. fold floor in Hfl, Hfw.
  assert (Enw : nw == ResizeStart.widthPx start).
  { unfold nw, computeWidthPx.
    rewrite TARGET_ASPECT_RATIO_value in *.
    set (dx := dxPx a) in *. set (dy := dyPx a) in *. set (bd := boundsWidthPx a) in *.
    clearbody dx dy bd floor. clear Hanchor. minmax. }
  assert (Ebw : bw == ResizeStart.widthPx start).
  { unfold bw. rewrite <- Enw. apply clamp_id; lra. }
  assert (Ehp : hp == ResizeStart.heightPx start).
  { unfold hp. rewrite div_TARGET_ASPECT_RATIO. rewrite Ebw.
    rewrite TARGET_ASPECT_RATIO_value in Hasp. lra. }
  split; [exact Ebw|]. split; [exact Ehp|].
  destruct Hanchor as [Hx Hy].
  clearbody sl st bw hp nw.
  rewrite TARGET_ASPECT_RATIO_value in *.
  destruct h; unfold a, arm in Hx, Hy; cbv zeta in Hx, Hy;
    cbn [anchorX anchorY] in Hx, Hy; split; lra.
Qed.

(** X18: a resize does not jump when it starts on the corner.  For a region
    inside the frame, with the pixel aspect of the target box and at least
    the floor width, a press on a handle followed by a pointer move to the
    very corner that handle sits on leaves [left], [top], [widthRatio] and
    [heightRatio] as they were. *)
Theorem resize_on_corner_is_identity :
  forall vw vh b e0 e s r h cx cy x y,
    vw <> 0%N -> vh <> 0%N ->
    contained (get_rect s r) ->
    Rect.heightRatio (get_rect s r) * N2Q vh * TARGET_ASPECT_RATIO
      == Rect.widthRatio (get_rect s r) * N2Q vw ->
    minWidthPx_of (minWidthRatio s) (Metrics.mk (N2Q vw) (N2Q vh))
      <= Rect.widthRatio (get_rect s r) * N2Q vw ->
    handle_corner h (get_rect s r) = Some (cx, cy) ->
    getPointerRatio b e = Some (x, y) -> x == cx -> y == cy ->
    let rect := get_rect s r in
    let rect' := get_rect (pointerMove vw vh b e (pointerDownResize vw vh e0 r h s)) r in
    exists l t l' t',
      Rect.left rect = Some l /\ Rect.top rect = Some t /\
      Rect.left rect' = Some l' /\ Rect.top rect' = Some t' /\
      l' == l /\ t' == t /\
      Rect.widthRatio rect' == Rect.widthRatio rect /\
      Rect.heightRatio rect' == Rect.heightRatio rect.
Proof.
  intros vw vh b e0 e s r h cx cy x y Hw Hh Hc Hasp Hfloor Hcorner Hp Hx Hy rect rect'.
  pose proof (N2Q_pos vw Hw) as HW. pose proof (N2Q_pos vh Hh) as HH.
  destruct Hc as (l & t & El & Et & Hl & Ht & Hlw & Hth).
  assert (Epos : positioned (get_rect s r) = Some (l, t))
    by (unfold positioned; rewrite El, Et; reflexivity).
  set (m := Metrics.mk (N2Q vw) (N2Q vh)) in *.
  set (wr := Rect.widthRatio (get_rect s r)) in *.
  set (hr := Rect.heightRatio (get_rect s r)) in *.
  set (start := ResizeStart.mk l t wr hr (l * N2Q vw) (t * N2Q vh) (wr * N2Q vw)
                  (hr * N2Q vh)).
  assert (Hwr0 : 0 <= wr * N2Q vw).
  { pose proof (minWidthPx_of_pos m (minWidthRatio s) HW). lra. }
  assert (Hhr0 : 0 <= hr * N2Q vh).
  { rewrite TARGET_ASPECT_RATIO_value in Hasp. lra. }
  assert (Hin : start_in_frame m start).
  { unfold start_in_frame, start. simpl. repeat split; try assumption; nra. }
  assert (Ei : interaction (pointerDownResize vw vh e0 r h s)
               = Some (Resize r h start (PointerEvent.pointerId e0) (HandleElement r h))).
  { unfold pointerDownResize. rewrite Epos.
    rewrite getVideoMetrics_known by assumption. reflexivity. }
  assert (Emw : minWidthRatio (pointerDownResize vw vh e0 r h s) = minWidthRatio s).
  { unfold pointerDownResize. rewrite Epos.
    rewrite getVideoMetrics_known by assumption. reflexivity. }
  assert (Hdxy : dxPx (arm m h start (x * N2Q vw) (y * N2Q vh)) == wr * N2Q vw /\
                 dyPx (arm m h start (x * N2Q vw) (y * N2Q vh)) == hr * N2Q vh).
  { unfold handle_corner in Hcorner. rewrite Epos in Hcorner. fold wr hr in Hcorner.
    destruct h; inversion Hcorner; subst cx cy; clear Hcorner;
      unfold arm, start; cbv zeta; cbn [dxPx dyPx ResizeStart.leftPx ResizeStart.topPx
                                          ResizeStart.widthPx ResizeStart.heightPx];
      rewrite Hx, Hy; split; ring. }
  destruct Hdxy as [Hdx Hdy].
  pose proof (resize_on_corner_px m (minWidthRatio s) h start (x * N2Q vw) (y * N2Q vh)
                HW HH Hin Hfloor Hasp Hdx Hdy) as Hpx.
  cbv zeta in Hpx. destruct Hpx as (Ebw & Ehp & Esl & Est).
  subst rect rect'.
  unfold pointerMove. rewrite Ei, Hp. unfold resizeRect.
  rewrite getVideoMetrics_known by assumption. rewrite get_set_same, Emw.
  fold m. unfold resizeRect_rect, applyValues. cbv zeta.
  cbn [Rect.left Rect.top Rect.widthRatio Rect.heightRatio fst snd].
  simpl Metrics.width in *. simpl Metrics.height in *.
  eexists l, t, _, _.
  split; [exact El|]. split; [exact Et|].
  split; [reflexivity|]. split; [reflexivity|].
  cbn [ResizeStart.leftPx ResizeStart.topPx ResizeStart.widthPx ResizeStart.heightPx start]
    in Ebw, Ehp, Esl, Est.
  unfold wr, hr in Ebw, Ehp.
  split; [rewrite Esl; field; lra|].
  split; [rewrite Est; field; lra|].
  split; [rewrite Ebw; field; lra|].
  rewrite Ehp. field. lra.
Qed.

(** An instance: the first region of the 3840x2160 video, pressed on its
    bottom-right handle and moved to its bottom-right corner, pixel
    (1292, 1216). *)
Lemma resize_on_corner_is_identity_witness :
  let rect := get_rect resizing_4k Speaker1 in
  let rect' := get_rect
                 (pointerMove 3840 2160 (DOMRect.mk 0 0 3840 2160) (press_at 1292 1216)
                    (pointerDownResize 3840 2160 (press_at 1290 1210) Speaker1 BottomRight
                       resizing_4k)) Speaker1 in
  exists l t l' t',
    Rect.left rect = Some l /\ Rect.top rect = Some t /\
    Rect.left rect' = Some l' /\ Rect.top rect' = Some t' /\
    l' == l /\ t' == t /\
    Rect.widthRatio rect' == Rect.widthRatio rect /\
    Rect.heightRatio rect' == Rect.heightRatio rect.
Proof.
  apply (resize_on_corner_is_identity 3840%N 2160%N (DOMRect.mk 0 0 3840 2160)
           (press_at 1290 1210) (press_at 1292 1216) resizing_4k Speaker1 BottomRight
           ((5 # 100) + (1100 # 3840)) ((1 # 10) + (1000 # 2160))
           (1292 # 3840) (1216 # 2160));
    try discriminate; try reflexivity.
  exists (5 # 100), (1 # 10). vm_compute. repeat split; discriminate.
Defined.

(** ** The floor after a sizing *)

(** X20: for a video at least 1100 pixels wide, the floor a resize enforces
    after a sizing is, in pixels, [max(min(max(550, 0.03 W), 1100), 0.02 W)]
    for the video width [W]; up to a width of 18333 pixels that is 550
    pixels, half of the initial width of a region. *)
Theorem floor_after_sizing :
  forall vw vh s,
    (1100 <= vw)%N -> vh <> 0%N ->
    let s' := updateRectSizeFromVideo vw vh s in
    let floor := minWidthPx_of (minWidthRatio s') (Metrics.mk (N2Q vw) (N2Q vh)) in
    floor == Qmax (Qmin (Qmax 550 ((3 # 100) * N2Q vw)) 1100) ((2 # 100) * N2Q vw) /\
    ((vw <= 18333)%N -> floor == 550).
Proof.
  intros vw vh s Hbig Hh s' floor.
  assert (Hw : vw <> 0%N) by lia.
  pose proof (N2Q_pos vw Hw) as HW.
  assert (H1100 : 1100 <= N2Q vw).
  { change 1100 with (N2Q 1100). apply N2Q_le. assumption. }
  assert (E : floor == Qmax (Qmin (Qmax 550 ((3 # 100) * N2Q vw)) 1100)
                        ((2 # 100) * N2Q vw)).
  { subst floor s'. rewrite updateRectSizeFromVideo_known by assumption.
    simpl minWidthRatio. unfold minWidthPx_of, minWidthRatio_of. simpl Metrics.width.
    set (cw := TARGET_ASPECT.width / N2Q vw).
    assert (Hcw : cw * N2Q vw == 1100) by (apply div_mul_cancel; assumption).
    assert (Hcw0 : 0 < cw).
    { unfold cw, TARGET_ASPECT.width. apply Qlt_shift_div_l; lra. }
    rewrite or_else_truthy by lra.
    set (W := N2Q vw) in *. clearbody cw W.
    split_minmax; nra. }
  split; [exact E|]. intros Hsmall. rewrite E.
  assert (H18 : N2Q vw <= 18333).
  { change 18333 with (N2Q 18333). apply N2Q_le. assumption. }
  split_minmax; lra.
Qed.

(** An instance: a 1920x1080 video. *)
Lemma floor_after_sizing_witness :
  minWidthPx_of (minWidthRatio (updateRectSizeFromVideo 1920 1080 initial_state))
    (Metrics.mk (N2Q 1920) (N2Q 1080)) == 550.
Proof.
  apply (proj2 (floor_after_sizing 1920%N 1080%N initial_state
                  ltac:(vm_compute; discriminate) ltac:(discriminate))).
  vm_compute. discriminate.
Defined.

(* ================================================================== *)
(** * The earlier revision, [static/js/main.js] *)

Ltac mainjs_minmax := unfold MainJs.clamp, clamp in *; split_minmax; try lra.

(** X23: on a non-empty range the [clamp] of the earlier revision and the
    [clamp] of the later one return the same value; on an empty range the
    earlier one returns [max] where the later one returns [min]. *)
Theorem mainjs_clamp_agrees_on_nonempty_range :
  forall v lo hi,
    (lo <= hi -> MainJs.clamp v lo hi = clamp v lo hi) /\
    (hi < lo -> MainJs.clamp v lo hi = hi /\ clamp v lo hi = lo).
Proof.
  intros v lo hi. split.
  - intros Hle. unfold clamp. destruct (Qlt_le_dec hi lo); [lra | reflexivity].
  - intros Hlt. split.
    + unfold MainJs.clamp. split_minmax; first [reflexivity | exfalso; lra].
    + unfold clamp. destruct (Qlt_le_dec hi lo); [reflexivity | lra].
Qed.

(** An instance: the vertical range of a 1280x720 video in the later
    revision, [[0, 1 - 25/18]]. *)
Lemma mainjs_clamp_agrees_on_nonempty_range_witness :
  MainJs.clamp (1 # 10) 0 (1 - (25 # 18)) = 1 - (25 # 18) /\
  clamp (1 # 10) 0 (1 - (25 # 18)) = 0.
Proof.
  apply (proj2 (mainjs_clamp_agrees_on_nonempty_range (1 # 10) 0 (1 - (25 # 18)))).
  reflexivity.
Defined.

Lemma mainjs_scale_bounds vw vh :
  vw <> 0%N -> vh <> 0%N ->
  0 < MainJs.scale vw vh /\ MainJs.scale vw vh <= 1 /\
  1080 * MainJs.scale vw vh <= N2Q vw /\ 675 * MainJs.scale vw vh <= N2Q vh /\
  (MainJs.scale vw vh == 1 \/ 1080 * MainJs.scale vw vh == N2Q vw \/
   675 * MainJs.scale vw vh == N2Q vh).
Proof.
  intros Hw Hh.
  pose proof (N2Q_pos vw Hw) as HW. pose proof (N2Q_pos vh Hh) as HH.
  assert (Ew : 1080 * (N2Q vw / 1080) == N2Q vw) by (field; lra).
  assert (Eh : 675 * (N2Q vh / 675) == N2Q vh) by (field; lra).
  unfold MainJs.scale.
  set (a := N2Q vw / 1080) in *. set (b := N2Q vh / 675) in *.
  set (W := N2Q vw) in *. set (H := N2Q vh) in *. clearbody a b W H.
  repeat split; split_minmax; lra.
Qed.

Lemma mainjs_size_rect_fields cw ch rect :
  Rect.widthRatio (MainJs.size_rect cw ch rect) = cw /\
  Rect.heightRatio (MainJs.size_rect cw ch rect) = ch /\
  exists l t,
    Rect.left (MainJs.size_rect cw ch rect) = Some (MainJs.clamp l 0 (1 - cw)) /\
    Rect.top (MainJs.size_rect cw ch rect) = Some (MainJs.clamp t 0 (1 - ch)).
Proof.
  unfold MainJs.size_rect.
  destruct (Rect.left rect), (Rect.top rect); simpl; repeat split; eauto.
Qed.

Lemma mainjs_get_rect_update vw vh s r :
  vw <> 0%N -> vh <> 0%N ->
  MainJs.get_rect (MainJs.updateRectSizeFromVideo vw vh s) r
  = MainJs.size_rect (1080 * MainJs.scale vw vh / N2Q vw)
      (675 * MainJs.scale vw vh / N2Q vh) (MainJs.get_rect s r).
Proof.
  intros Hw Hh. unfold MainJs.updateRectSizeFromVideo.
  destruct (N.eqb_spec vw 0); [contradiction|].
  destruct (N.eqb_spec vh 0); [contradiction|].
  destruct r; reflexivity.
Qed.

Lemma mainjs_crop_bounds vw vh :
  vw <> 0%N -> vh <> 0%N ->
  0 < 1080 * MainJs.scale vw vh / N2Q vw <= 1 /\
  0 < 675 * MainJs.scale vw vh / N2Q vh <= 1.
Proof.
  intros Hw Hh.
  pose proof (N2Q_pos vw Hw) as HW. pose proof (N2Q_pos vh Hh) as HH.
  destruct (mainjs_scale_bounds vw vh Hw Hh) as (H0 & _ & H2 & H3 & _).
  repeat split; try (apply Qlt_shift_div_l; lra); apply div_le_1; assumption.
Qed.

(** X21: in exact arithmetic, the sizing of the earlier revision fits every
    video: both regions end inside the frame, their pixel size is at most
    1080x675 with a pixel aspect of exactly 1080/675, it is exactly 1080x675
    when the video is at least that large, and otherwise the region spans
    the full width or the full height of the frame.  (Exact rationals; with
    the doubles of the script a ratio that is exactly 1 here can come out
    one unit in the last place above 1, and the old [clamp] then returns a
    position just below 0.) *)
Theorem mainjs_sizing_fits_every_video :
  forall vw vh s r,
    vw <> 0%N -> vh <> 0%N ->
    let rect := MainJs.get_rect (MainJs.updateRectSizeFromVideo vw vh s) r in
    contained rect /\
    MainJs.pixel_aspect vw vh rect == 1080 / 675 /\
    Rect.widthRatio rect * N2Q vw <= 1080 /\
    Rect.heightRatio rect * N2Q vh <= 675 /\
    ((1080 <= vw)%N -> (675 <= vh)%N ->
     Rect.widthRatio rect * N2Q vw == 1080 /\ Rect.heightRatio rect * N2Q vh == 675) /\
    ((Rect.widthRatio rect * N2Q vw == 1080 /\ Rect.heightRatio rect * N2Q vh == 675) \/
     Rect.widthRatio rect == 1 \/ Rect.heightRatio rect == 1).
Proof.
  intros vw vh s r Hw Hh rect. subst rect.
  pose proof (N2Q_pos vw Hw) as HW. pose proof (N2Q_pos vh Hh) as HH.
  rewrite mainjs_get_rect_update by assumption.
  destruct (mainjs_size_rect_fields (1080 * MainJs.scale vw vh / N2Q vw)
              (675 * MainJs.scale vw vh / N2Q vh) (MainJs.get_rect s r))
    as (E1 & E2 & l & t & El & Et).
  destruct (mainjs_crop_bounds vw vh Hw Hh) as [Hcw Hch].
  destruct (mainjs_scale_bounds vw vh Hw Hh) as (Hs0 & Hs1 & Hsw & Hsh & Hcase).
  rewrite E1, E2.
  assert (Ew : 1080 * MainJs.scale vw vh / N2Q vw * N2Q vw == 1080 * MainJs.scale vw vh)
    by (apply div_mul_cancel; assumption).
  assert (Eh : 675 * MainJs.scale vw vh / N2Q vh * N2Q vh == 675 * MainJs.scale vw vh)
    by (apply div_mul_cancel; assumption).
  split; [|split; [|split; [|split; [|split]]]].
  - exists (MainJs.clamp l 0 (1 - 1080 * MainJs.scale vw vh / N2Q vw)),
      (MainJs.clamp t 0 (1 - 675 * MainJs.scale vw vh / N2Q vh)).
    rewrite E1, E2. split; [exact El|]. split; [exact Et|].
    set (cw := 1080 * MainJs.scale vw vh / N2Q vw) in *.
    set (ch := 675 * MainJs.scale vw vh / N2Q vh) in *. clearbody cw ch.
    repeat split; mainjs_minmax.
  - unfold MainJs.pixel_aspect. rewrite E1, E2, Ew, Eh. field. lra.
  - rewrite Ew. lra.
  - rewrite Eh. lra.
  - intros Hbw Hbh. rewrite Ew, Eh.
    assert (Hs : MainJs.scale vw vh == 1).
    { apply N2Q_le in Hbw. apply N2Q_le in Hbh.
      change (N2Q 1080) with 1080 in Hbw. change (N2Q 675) with 675 in Hbh.
      assert (1 <= N2Q vw / 1080) by (apply Qle_shift_div_l; lra).
      assert (1 <= N2Q vh / 675) by (apply Qle_shift_div_l; lra).
      unfold MainJs.scale. split_minmax; lra. }
    rewrite Hs. split; reflexivity.
  - destruct Hcase as [Hs | [Hs | Hs]].
    + left. rewrite Ew, Eh, Hs. split; reflexivity.
    + right. left. rewrite Hs. field. lra.
    + right. right. rewrite Hs. field. lra.
Qed.

(** An instance: a 1280x720 video. *)
Lemma mainjs_sizing_fits_every_video_witness :
  contained (MainJs.get_rect (MainJs.updateRectSizeFromVideo 1280 720 MainJs.initial_state)
               Speaker1).
Proof.
  apply (mainjs_sizing_fits_every_video 1280%N 720%N MainJs.initial_state Speaker1);
    discriminate.
Defined.

Lemma mainjs_size_rect_contained cw ch rect :
  cw <= 1 -> ch <= 1 -> contained (MainJs.size_rect cw ch rect).
Proof.
  intros Hw Hh.
  destruct (mainjs_size_rect_fields cw ch rect) as (E1 & E2 & l & t & El & Et).
  exists (MainJs.clamp l 0 (1 - cw)), (MainJs.clamp t 0 (1 - ch)).
  rewrite E1, E2. repeat split; try assumption; mainjs_minmax.
Qed.

Lemma mainjs_fits_step env ev s :
  (forall r, Rect.widthRatio (MainJs.get_rect s r) <= 1 /\
             Rect.heightRatio (MainJs.get_rect s r) <= 1 /\
             (positioned (MainJs.get_rect s r) = None \/ contained (MainJs.get_rect s r))) ->
  forall r, Rect.widthRatio (MainJs.get_rect (MainJs.dispatch env ev s) r) <= 1 /\
            Rect.heightRatio (MainJs.get_rect (MainJs.dispatch env ev s) r) <= 1 /\
            (positioned (MainJs.get_rect (MainJs.dispatch env ev s) r) = None \/
             contained (MainJs.get_rect (MainJs.dispatch env ev s) r)).
Proof.
  intros Hinv r. destruct ev; simpl.
  - unfold MainJs.updateRectSizeFromVideo.
    destruct (N.eqb_spec (videoWidth env) 0); [apply Hinv|].
    destruct (N.eqb_spec (videoHeight env) 0); [apply Hinv|]. simpl.
    destruct (mainjs_crop_bounds (videoWidth env) (videoHeight env)) as [Hcw Hch];
      try assumption.
    assert (Hc : forall rect,
              contained (MainJs.size_rect
                           (1080 * MainJs.scale (videoWidth env) (videoHeight env)
                            / N2Q (videoWidth env))
                           (675 * MainJs.scale (videoWidth env) (videoHeight env)
                            / N2Q (videoHeight env)) rect))
      by (intros rect; apply mainjs_size_rect_contained; lra).
    destruct r; simpl;
      (split; [|split; [|right; apply Hc]]);
      match goal with
      | |- context [MainJs.size_rect ?cw ?ch ?x] =>
          destruct (mainjs_size_rect_fields cw ch x) as (E1 & E2 & _); rewrite ?E1, ?E2; lra
      end.
  - unfold MainJs.pointerDown.
    destruct (positioned (MainJs.get_rect s r0)) as [[l t]|]; [|apply Hinv].
    destruct r; apply (Hinv Speaker1) || apply (Hinv Speaker2).
  - unfold MainJs.pointerMove.
    destruct (MainJs.activeRect s) as [r0|]; [|apply Hinv].
    destruct (MainJs.dragStart s) as [start|]; [|apply Hinv].
    destruct (negb (truthy (DOMRect.width (bounds env)))
              || negb (truthy (DOMRect.height (bounds env))))%bool; [apply Hinv|].
    destruct (Hinv r0) as (Hw0 & Hh0 & _).
    destruct r, r0; simpl in *; try apply (Hinv Speaker1); try apply (Hinv Speaker2);
      (split; [assumption|]; split; [assumption|]; right;
       eexists _, _; simpl; repeat split; try reflexivity; mainjs_minmax).
  - destruct r; apply (Hinv Speaker1) || apply (Hinv Speaker2).
  - destruct r; apply (Hinv Speaker1) || apply (Hinv Speaker2).
Qed.

(** X22: in exact arithmetic, every positioned region of the earlier
    revision is inside the frame in every state the page can reach, whatever
    the video dimensions and overlay bounds each event saw: the sizing
    always fits and a move never leaves the frame.  (Exact rationals; the
    doubles of the script can miss a bound by one unit in the last place.) *)
Theorem mainjs_regions_stay_in_frame :
  forall trace r,
    let rect := MainJs.get_rect (MainJs.run trace MainJs.initial_state) r in
    positioned rect = None \/ contained rect.
Proof.
  intros trace r rect. subst rect.
  assert (H : forall s,
            (forall r, Rect.widthRatio (MainJs.get_rect s r) <= 1 /\
                       Rect.heightRatio (MainJs.get_rect s r) <= 1 /\
                       (positioned (MainJs.get_rect s r) = None \/
                        contained (MainJs.get_rect s r))) ->
            forall r, Rect.widthRatio (MainJs.get_rect (MainJs.run trace s) r) <= 1 /\
                      Rect.heightRatio (MainJs.get_rect (MainJs.run trace s) r) <= 1 /\
                      (positioned (MainJs.get_rect (MainJs.run trace s) r) = None \/
                       contained (MainJs.get_rect (MainJs.run trace s) r))).
  { unfold MainJs.run. induction trace as [|[env ev] trace IH]; intros s Hinv; [exact Hinv|].
    simpl. apply IH. apply mainjs_fits_step. exact Hinv. }
  apply H. intros r0. destruct r0; simpl; repeat split; try lra; left; reflexivity.
Qed.

(* ================================================================== *)
(** * Rounding *)

(** X24: in the doubles of the script the frame bounds are met only up to
    rounding.  On a 1920x1008 video, after the initial sizing, a resize of
    the first region from its top-left handle with the pointer on the
    top-left corner of the overlay leaves [top = 0] and
    [heightRatio = 1.0000000000000002], so [top + heightRatio > 1], where
    exact arithmetic gives a height ratio of 1 and a region inside the
    frame; on a 334x1502 video the same resize of the second region leaves
    [heightRatio < 1] and [top + heightRatio = 1.0000000000000002]. *)
Theorem doubles_exceed_frame_after_resize :
  Doubles.top Doubles.resized_1920x1008 = Doubles.zero /\
  Doubles.heightRatio Doubles.resized_1920x1008 = Doubles.above_one /\
  Doubles.less Doubles.one (Doubles.bottom Doubles.resized_1920x1008) = true /\
  Doubles.less (Doubles.heightRatio Doubles.resized_334x1502) Doubles.one = true /\
  Doubles.bottom Doubles.resized_334x1502 = Doubles.above_one /\
  (let env := mkEnv 1920 1008 (DOMRect.mk 0 0 960 504) in
   let rect := get_rect (run [ (env, LoadedMetadata);
                               (env, PointerDownHandle Speaker1 TopLeft (press_at 48 4));
                               (env, PointerMoved (press_at 0 0)) ] initial_state)
                 Speaker1 in
   Rect.heightRatio rect == 1 /\ contained rect).
Proof.
  do 5 (split; [vm_compute; reflexivity|]).
  cbv zeta. split; [vm_compute; reflexivity|].
  eexists _, _. split; [reflexivity|]. split; [reflexivity|].
  vm_compute. repeat split; discriminate.
Qed.

(** X25: in the doubles of the earlier revision the initial sizing of a
    1280x478 video leaves [heightRatio = 1.0000000000000002] and
    [top = -2.220446049250313e-16], below the frame, where exact arithmetic
    gives 1 and 0. *)
Theorem mainjs_doubles_leave_frame_1280x478 :
  Doubles.heightRatio Doubles.mainjs_sized_1280x478 = Doubles.above_one /\
  Doubles.top Doubles.mainjs_sized_1280x478 = Doubles.below_zero /\
  Doubles.less (Doubles.top Doubles.mainjs_sized_1280x478) Doubles.zero = true /\
  (let rect := MainJs.get_rect
                 (MainJs.updateRectSizeFromVideo 1280 478 MainJs.initial_state) Speaker1 in
   Rect.heightRatio rect == 1 /\ exists t, Rect.top rect = Some t /\ t == 0).
Proof.
  split; [vm_compute; reflexivity|]. split; [vm_compute; reflexivity|].
  split; [vm_compute; reflexivity|].
  cbv zeta. split; [vm_compute; reflexivity|].
  eexists; split; [reflexivity | vm_compute; reflexivity].
Qed.
